(** * IRS bulletin scraper: a shallow embedding of [scraper.py]

    The development follows the layout of the class [IRSBulletinScraper]:
    byte-string helpers, the HTTP fetcher with retries, the paginated link
    collector, the download manager, the CSV ledger and the validator.
    Python values are modelled as the code manipulates them: [bytes] and
    [str] as [string] (the text of a link, in which the class [\d] is
    looked for, as its code points), [int] as [Z], dictionaries as [gmap],
    exceptions as explicit results. *)

From Stdlib Require Import ZArith Lia Ascii.
From stdpp Require Import base option list strings gmap sorting.

Local Open Scope Z_scope.

(** ** Byte strings *)

Module Bytes.

(** [len(s)] *)
Definition len (s : string) : Z := Z.of_nat (String.length s).

(** [s.startswith(p)] *)
Fixpoint startswith (s p : string) {struct p} : bool :=
  match p, s with
  | EmptyString, _ => true
  | String _ _, EmptyString => false
  | String a p', String b s' => if decide (a = b) then startswith s' p' else false
  end.

(** [needle in hay] for [bytes] and [str] *)
Fixpoint contains (needle hay : string) : bool :=
  startswith hay needle ||
  match hay with
  | EmptyString => false
  | String _ hay' => contains needle hay'
  end.

(** [s[:n]] for [n >= 0], also what [f.read(n)] returns on a fresh handle *)
Fixpoint take (n : nat) (s : string) : string :=
  match n, s with
  | O, _ => EmptyString
  | S _, EmptyString => EmptyString
  | S n', String a s' => String a (take n' s')
  end.

(** [s[n:]] for [n >= 0] *)
Fixpoint drop (n : nat) (s : string) : string :=
  match n, s with
  | O, _ => s
  | S _, EmptyString => EmptyString
  | S n', String _ s' => drop n' s'
  end.

End Bytes.

(** ** Text rendering: [str(int)], [str(float)], zero padding *)

Module Text.

Definition digit (d : Z) : ascii :=
  match Z.to_nat d with
  | 0 => "0" | 1 => "1" | 2 => "2" | 3 => "3" | 4 => "4"
  | 5 => "5" | 6 => "6" | 7 => "7" | 8 => "8" | _ => "9"
  end%nat%char.

Definition is_digit (c : ascii) : bool :=
  match c with
  | "0" | "1" | "2" | "3" | "4" | "5" | "6" | "7" | "8" | "9" => true
  | _ => false
  end%char.

Fixpoint all_digits (s : string) : bool :=
  match s with
  | EmptyString => true
  | String c s' => is_digit c && all_digits s'
  end.

Fixpoint dec_go (fuel : nat) (n : Z) (acc : string) : string :=
  match fuel with
  | O => acc
  | S f =>
      let acc' := String (digit (n mod 10)) acc in
      if n <? 10 then acc' else dec_go f (n / 10) acc'
  end.

(** Decimal digits of a non-negative integer. *)
Definition dec (n : Z) : string := dec_go (S (Z.to_nat (Z.log2 n))) n EmptyString.

(** [str(z)] for an [int] *)
Definition str_int (z : Z) : string :=
  if z <? 0 then "-" +:+ dec (- z) else dec z.

Fixpoint zeros (k : nat) : string :=
  match k with O => EmptyString | S k' => String "0"%char (zeros k') end.

(** ["%0<width>d" % n] for [n >= 0] *)
Definition zfill (width : nat) (n : Z) : string :=
  let d := dec n in zeros (width - String.length d) +:+ d.

(** [str(x)] for the [float] nearest to [h / 100], the value [round(_, 2)]
    returns: the shortest decimal text that reads back as the same float,
    which is the integer part, a point, and one or two decimals with no
    trailing zero beyond the first. *)
Definition str_float2 (h : Z) : string :=
  let a := Z.abs h in
  (if h <? 0 then "-" else "") +:+ dec (a / 100) +:+ "." +:+
  (if a mod 10 =? 0
   then String (digit (a / 10 mod 10)) EmptyString
   else String (digit (a / 10 mod 10)) (String (digit (a mod 10)) EmptyString)).

(** The code points of a text of ASCII characters. *)
Definition code_points (s : string) : list N :=
  N_of_ascii <$> String.list_ascii_of_string s.

(** [round(x, 2)] of an exact ratio [num / den] ([den > 0]), in hundredths:
    ties go to the even hundredth. *)
Definition round2 (num den : Z) : Z :=
  let q := (num * 100) / den in
  let r := (num * 100) mod den in
  if 2 * r <? den then q
  else if den <? 2 * r then q + 1
  else if Z.even q then q else q + 1.

End Text.

(** ** Numbers stored in result dictionaries *)

Inductive pynum :=
| PInt (z : Z)        (** an [int] literal *)
| PFloat2 (h : Z).    (** the [float] returned by [round(_, 2)], in hundredths *)

Definition str_num (x : pynum) : string :=
  match x with
  | PInt z => Text.str_int z
  | PFloat2 h => Text.str_float2 h
  end.

(** ** [datetime] *)

Record DateTime := {
  year : Z; month : Z; day : Z;
  hour : Z; minute : Z; second : Z; microsecond : Z
}.


(** [datetime.isoformat()]: [YYYY-MM-DDTHH:MM:SS], with [.ffffff] when the
    microsecond is not zero. *)
Definition isoformat (d : DateTime) : string :=
  Text.zfill 4 (year d) +:+ "-" +:+ Text.zfill 2 (month d) +:+ "-" +:+
  Text.zfill 2 (day d) +:+ "T" +:+ Text.zfill 2 (hour d) +:+ ":" +:+
  Text.zfill 2 (minute d) +:+ ":" +:+ Text.zfill 2 (second d) +:+
  (if microsecond d =? 0 then "" else "." +:+ Text.zfill 6 (microsecond d)).


(** ** Paths, patterns and parsed pages *)

Module Path.

(** [s.endswith(p)] *)
Definition endswith (s p : string) : bool :=
  Bytes.startswith (String.rev s) (String.rev p).

(** [os.path.basename(p)]: what follows the last slash. *)
Fixpoint basename (p : string) : string :=
  match p with
  | EmptyString => EmptyString
  | String c r =>
      if Bytes.contains "/" r then basename r
      else if decide (c = "/"%char) then r else p
  end.

End Path.

Module Re.

(** The pattern is a [str] pattern and is searched in the [href] of an
    anchor, a [str]: both are sequences of code points. *)
Section Pattern.

(** The class [\d] of a [str] pattern is the Unicode category Nd.  Among
    the ASCII characters these are the digits 0 to 9; beyond them the
    Unicode database of the interpreter decides. *)
Variable unicode_decimal : N → bool.

Definition decimal (c : N) : bool :=
  if (c <? 128)%N then (48 <=? c)%N && (c <=? 57)%N else unicode_decimal c.

Fixpoint skip_digits (s : list N) : list N :=
  match s with
  | c :: r => if decimal c then skip_digits r else s
  | [] => []
  end.

(** [\d+]: one digit or more, greedily; the rest of the text. *)
Definition digits1 (s : list N) : option (list N) :=
  match s with
  | c :: r => if decimal c then Some (skip_digits r) else None
  | [] => None
  end.

(** A literal: the rest of the text after it. *)
Fixpoint lit (p s : list N) {struct p} : option (list N) :=
  match p, s with
  | [], _ => Some s
  | _ :: _, [] => None
  | a :: p', b :: s' => if decide (a = b) then lit p' s' else None
  end.

(** [/pub/irs-irbs/irb\d+-\d+\.pdf] matched at the start of [s].  The
    character after each run of digits is an ASCII character that is not
    a digit, so the greedy run is the only one that can match. *)
Definition bulletin_at (s : list N) : bool :=
  match ((((lit (Text.code_points "/pub/irs-irbs/irb") s ≫= digits1)
             ≫= lit (Text.code_points "-")) ≫= digits1)
           ≫= lit (Text.code_points ".pdf")) with
  | Some _ => true
  | None => false
  end.

(** [re.compile(r"/pub/irs-irbs/irb\d+-\d+\.pdf").search(s)] *)
Fixpoint bulletin_search (s : list N) : bool :=
  bulletin_at s ||
  match s with
  | [] => false
  | _ :: r => bulletin_search r
  end.

End Pattern.

End Re.

Module Html.

(** The pagination block [<ul class="pagination">]: for each
    [<li class="pager__item--next">] the text of its first [<a>], if it has
    one, and the text of every [<a>] of the block. *)
Record Pagination := {
  next_items : list (option string);
  pager_links : list string
}.

(** What the scraper asks of a parsed page: the [href] of every
    [<a href=...>] in document order, as code points, and the first
    pagination block. *)
Record Soup := {
  hrefs : list (list N);
  pagination : option Pagination
}.

End Html.

(** ** The network, the disk and the clock *)

Record Response := {
  status_code : Z;
  soup : Html.Soup;           (** [BeautifulSoup(response.content, "html.parser")] *)
  body : list string;         (** the chunks [iter_content] yields *)
  body_fails : bool           (** [iter_content] raises after the last chunk *)
}.

Inductive Attempt :=
| Answer (r : Response)
| Fails.                      (** [requests.get] raises *)

Inductive Event :=
| EGet (url : string) (stream : bool) (a : Attempt)
| ESleep (secs : Z).

(** How writing the ledger file ends.  The file is opened with mode ["w"],
    which empties it; the writer then sends the records through a buffer,
    so an error of the file system (a full disk, a lost mount) can stop the
    writing at any byte. *)
Inductive Fault :=
| NoFault                     (** the file is opened and every write reaches it *)
| OpenFails                   (** [open(self.csv_file, "w")] raises: a read-only
                                  ledger, a path that is a directory *)
| WriteFails (kept : list (list string) → list (list string)).
                              (** a write or the closing flush raises: of the
                                  records sent, [kept] gives what the [csv]
                                  module reads from the bytes that reached
                                  the file *)

(** The file system as the scraper meets it: the files stored in the
    output directory, and which operations on them fail.  The output
    directory and the directory of the ledger are the ones the scraper
    made when it was created: [exists()] on the directory and on the path
    of the ledger returns, and so does [stat()] on a file that is
    stored. *)
Record Disk := {
  files : gmap string string;
  exists_fails : string → bool;         (** [path.exists()] raises: a name the
                                            file system refuses, as one longer
                                            than it allows *)
  open_fails : string → bool;           (** [open(path, "wb")] raises *)
  write_fails : string → nat → bool;    (** the k-th [f.write] to the file raises *)
  read_fails : string → bool;           (** [open(path, "rb")] or [f.read] raises *)
  unlink_fails : string → bool;         (** [path.unlink()] raises *)
  csv_fault : Fault                     (** how writing the ledger ends *)
}.

(** The ledger file as the [csv] module reads and writes it: a sequence of
    records, each a sequence of fields; [None] when the file does not exist
    or cannot be read.  [Csv.text] gives the bytes the writer produces for
    the records. *)
Abbreviation LedgerFile := (option (list (list string))).

Record World := {
  net : list Event → string → Attempt;  (** what a GET yields, given the history *)
  clock : list Event → DateTime;         (** [datetime.now()] *)
  log : list Event;
  disk : Disk;
  ledger : LedgerFile
}.

Definition record (e : Event) (w : World) : World :=
  {| net := net w; clock := clock w; log := log w ++ [e];
     disk := disk w; ledger := ledger w |}.

Definition with_disk (d : Disk) (w : World) : World :=
  {| net := net w; clock := clock w; log := log w; disk := d; ledger := ledger w |}.

Definition with_ledger (l : LedgerFile) (w : World) : World :=
  {| net := net w; clock := clock w; log := log w; disk := disk w; ledger := l |}.

Definition with_files (fs : gmap string string) (d : Disk) : Disk :=
  {| files := fs; exists_fails := exists_fails d; open_fails := open_fails d;
     write_fails := write_fails d; read_fails := read_fails d;
     unlink_fails := unlink_fails d; csv_fault := csv_fault d |}.

(** [requests.get(url, stream=stream, timeout=...)] *)
Definition requests_get (url : string) (stream : bool) (w : World) : Attempt * World :=
  let a := net w (log w) url in (a, record (EGet url stream a) w).

(** [time.sleep(secs)] *)
Definition sleep (secs : Z) (w : World) : World := record (ESleep secs) w.

(** ** Configuration ([config.py]) *)

Definition MAX_WORKERS : Z := 5.
Definition MAX_RETRIES : Z := 3.
Definition REQUEST_TIMEOUT : Z := 30.
Definition DELAY_BETWEEN_PAGES : Z := 1.
Definition CHUNK_SIZE : Z := 8192.
Definition CSV_FIELDNAMES : list string :=
  ["file_name"; "file_size_mb"; "download_timestamp"; "status"].

(** ** Result dictionaries and the [csv] module *)

(** The dictionary [download_bulletin] and [process_document] build. *)
Record Outcome := {
  file_name : string;
  file_size_mb : pynum;
  download_timestamp : string;
  status : string
}.

(** [str(result[key])] *)
Definition outcome_field (o : Outcome) (key : string) : option string :=
  if decide (key = "file_name") then Some (file_name o)
  else if decide (key = "file_size_mb") then Some (str_num (file_size_mb o))
  else if decide (key = "download_timestamp") then Some (download_timestamp o)
  else if decide (key = "status") then Some (status o)
  else None.

Module Csv.

(** A row as [csv.DictReader] yields it: a value per header name ([None]
    where the record was short) and, under the key [None], the fields
    beyond the header when the record was long. *)
Record Row := {
  cells : gmap string (option string);
  rest : option (list string)
}.

(** [dict(zip(fieldnames, row))], then [restval] for the names without a
    field; a later duplicate of a name wins. *)
Definition zip_row (fieldnames row : list string) : gmap string (option string) :=
  foldl (λ d kv, <[kv.1 := kv.2]> d) ∅
    (zip fieldnames (Some <$> row) ++
     ((λ k, (k, None)) <$> drop (length row) fieldnames)).

Definition read_row (fieldnames row : list string) : Row :=
  {| cells := zip_row fieldnames row;
     rest := if (length fieldnames <? length row)%nat
             then Some (drop (length fieldnames) row) else None |}.

Definition is_blank (row : list string) : bool :=
  match row with [] => true | _ => false end.

(** [csv.DictReader(csvfile)]: the first record is the header, blank
    records are skipped. *)
Definition DictReader (table : list (list string)) : list Row :=
  match table with
  | [] => []
  | fieldnames :: rows =>
      read_row fieldnames <$> List.filter (λ r, negb (is_blank r)) rows
  end.

Definition double_quote : ascii := "034"%char.

Definition special (c : ascii) : bool :=
  bool_decide (c = ","%char) || bool_decide (c = double_quote) ||
  bool_decide (c = "013"%char) || bool_decide (c = "010"%char).

Fixpoint has_special (s : string) : bool :=
  match s with
  | EmptyString => false
  | String c r => special c || has_special r
  end.

Fixpoint escape (s : string) : string :=
  match s with
  | EmptyString => EmptyString
  | String c r =>
      if decide (c = double_quote) then String c (String c (escape r))
      else String c (escape r)
  end.

(** A field under [QUOTE_MINIMAL]. *)
Definition field (s : string) : string :=
  if has_special s
  then String double_quote (escape s +:+ String double_quote EmptyString)
  else s.

Fixpoint join (sep : string) (l : list string) : string :=
  match l with
  | [] => EmptyString
  | [s] => s
  | s :: l' => s +:+ sep +:+ join sep l'
  end.

(** One record as [csv.writer] writes it in the default dialect. *)
Definition line (row : list string) : string :=
  join "," (field <$> row) +:+ String "013"%char (String "010"%char EmptyString).

(** The text of a file holding these records. *)
Definition text (table : list (list string)) : string :=
  foldr (λ row acc, line row +:+ acc) EmptyString table.

End Csv.

(** A value of the dictionary [create_csv_summary] merges: a row read back
    from the ledger, or a new result. *)
Inductive Entry :=
| Loaded (row : Csv.Row)
| Result (o : Outcome).

(** Keys of that dictionary are [str], or [None] when a short record left
    the [file_name] column without a field. *)
Abbreviation Ledger := (gmap (option string) Entry).

(** [DictWriter._dict_to_list]: the fields of a row in header order, [""]
    for a missing name or a [None] value; [None] stands for the
    [ValueError] raised when the dictionary has a key outside the header. *)
Definition dict_to_list (e : Entry) : option (list string) :=
  match e with
  | Loaded row =>
      match Csv.rest row with
      | Some _ => None
      | None =>
          if forallb (λ k, bool_decide (k ∈ CSV_FIELDNAMES)) (map_to_list (Csv.cells row)).*1
          then Some ((λ f, default "" (mjoin (Csv.cells row !! f))) <$> CSV_FIELDNAMES)
          else None
      end
  | Result o => Some ((λ f, default "" (outcome_field o f)) <$> CSV_FIELDNAMES)
  end.

(** ** The scraper *)

(** [self.max_pages]: a page count, or [float("inf")]. *)
Inductive PageLimit :=
| Pages (n : Z)
| Unlimited.

Record Scraper := {
  max_workers : Z;
  max_retries : Z;
  timeout : Z;
  max_pages : PageLimit
}.

Definition with_max_pages (m : PageLimit) (self : Scraper) : Scraper :=
  {| max_workers := max_workers self; max_retries := max_retries self;
     timeout := timeout self; max_pages := m |}.

(** A call either returns a value or raises. *)
Inductive Raising (A : Type) :=
| Returned (a : A)
| Raised.
Arguments Returned {A} a.
Arguments Raised {A}.

#[global] Instance Raising_fmap : FMap Raising := λ A B f x,
  match x with
  | Returned a => Returned (f a)
  | Raised => Raised
  end.

(** A function applied to what a call returned, if it ended and returned. *)
Definition returned {A B} (f : A → B) (x : option (Raising A)) : option (Raising B) :=
  fmap (M := Raising) f <$> x.

Definition BASE_URL : string := "https://www.irs.gov/internal-revenue-bulletins".

(** A bulletin link: [(filename, url)]. *)
Abbreviation Link := (string * string)%type.

(** The dictionary [check_for_new_bulletins] returns. *)
Record CheckResults := {
  total_remote_checked : nat;
  total_local : nat;
  new_bulletins_count : nat;
  new_bulletins : list Link;
  check_timestamp : string
}.

Section IRSBulletinScraper.

(** The class [\d] beyond the ASCII characters. *)
Variable unicode_decimal : N → bool.

(** [urllib.parse.urljoin(base, href)]; [None] when it raises
    [ValueError], as it does on an [href] whose host part has an unbalanced
    bracket. *)
Variable urljoin : string → list N → option string.

(** *** Core scraping and downloading *)

(** The body of [for attempt in range(self.max_retries)], from [attempt]
    on, with [remaining] iterations left. *)
Fixpoint make_request_from (remaining : nat) (attempt : Z) (self : Scraper)
    (url : string) (stream : bool) (w : World) : option Response * World :=
  match remaining with
  | O => (None, w)
  | S k =>
      let '(a, w1) := requests_get url stream w in
      let ok := match a with
                | Answer r => if status_code r =? 200 then Some r else None
                | Fails => None
                end in
      match ok with
      | Some r => (Some r, w1)
      | None =>
          let w2 := if attempt <? max_retries self - 1
                    then sleep (2 ^ attempt) w1 else w1 in
          make_request_from k (attempt + 1) self url stream w2
      end
  end.

Definition make_request (self : Scraper) (url : string) (stream : bool)
    (w : World) : option Response * World :=
  make_request_from (Z.to_nat (max_retries self)) 0 self url stream w.

(** [(self.output_dir / filename).exists()]: it raises what [stat] raises
    on a name the file system refuses, as [OSError] on a name longer than
    it allows. *)
Definition file_exists (filename : string) (d : Disk) : Raising bool :=
  if exists_fails d filename then Raised
  else Returned (bool_decide (is_Some (files d !! filename))).

(** [st_size / (1024 * 1024)] as an exact ratio: the division by a power
    of two is exact in floating point for any size below [2 ** 53]. *)
Definition get_file_size_mb (content : string) : Z * Z :=
  (Bytes.len content, 1024 * 1024).

(** [round(self.get_file_size_mb(file_path), 2)] *)
Definition rounded_size_mb (content : string) : pynum :=
  let '(num, den) := get_file_size_mb content in PFloat2 (Text.round2 num den).

Definition get_timestamp (w : World) : string := isoformat (clock w (log w)).

Definition page_url (page_num : Z) : string :=
  if page_num =? 0 then BASE_URL
  else BASE_URL +:+ "?page=" +:+ Text.str_int page_num.

(** One iteration of the loop over the anchors of a page; the state is
    [(bulletin_links, links_found)].  The call of [urljoin] is outside any
    [try]. *)
Definition scan_link (st : list Link * bool) (href : list N)
    : Raising (list Link * bool) :=
  match urljoin "https://www.irs.gov" href with
  | None => Raised
  | Some pdf_url =>
      let bulletin_name := Path.basename pdf_url in
      Returned (if existsb (λ l : Link, bool_decide (bulletin_name = l.1)) st.1
                then st
                else (st.1 ++ [(bulletin_name, pdf_url)], true))
  end.

(** The loop over the anchors: the list as the loop left it, with
    [links_found], or with [None] when an iteration raised. *)
Fixpoint scan_links (st : list Link * bool) (hrefs : list (list N))
    : list Link * option bool :=
  match hrefs with
  | [] => (st.1, Some st.2)
  | href :: hrefs' =>
      match scan_link st href with
      | Returned st' => scan_links st' hrefs'
      | Raised => (st.1, None)
      end
  end.

Definition scan_page (bulletin_links : list Link) (page : Html.Soup)
    : list Link * option bool :=
  scan_links (bulletin_links, false)
    (List.filter (Re.bulletin_search unicode_decimal) (Html.hrefs page)).

Definition _has_next_page (page : Html.Soup) : bool :=
  match Html.pagination page with
  | None => false
  | Some pagination =>
      existsb (λ li : option string,
                 match li with
                 | Some a_text => Bytes.contains "Next" a_text
                 | None => false
                 end) (Html.next_items pagination)
      || existsb (Bytes.contains "Next") (Html.pager_links pagination)
  end.

Definition below (page_num : Z) (m : PageLimit) : bool :=
  match m with
  | Pages n => page_num <? n
  | Unlimited => true
  end.

(** How one iteration of the page loop ends. *)
Inductive PageStep :=
| Break (bulletin_links : list Link) (w : World)
| Continue (bulletin_links : list Link) (w : World)
| Raise (bulletin_links : list Link) (w : World).

(** The body of [while page_num < self.max_pages].  A response that
    [make_request] returns has status 200, so [not response] holds only
    for [None]. *)
Definition crawl_page (self : Scraper) (bulletin_links : list Link)
    (page_num : Z) (w : World) : PageStep :=
  let '(response, w1) := make_request self (page_url page_num) false w in
  match response with
  | None => Break bulletin_links w1
  | Some r =>
      match scan_page bulletin_links (soup r) with
      | (bulletin_links', None) => Raise bulletin_links' w1
      | (bulletin_links', Some links_found) =>
          if negb links_found then Break bulletin_links' w1
          else if negb (_has_next_page (soup r)) then Break bulletin_links' w1
          else Continue bulletin_links' (sleep DELAY_BETWEEN_PAGES w1)
      end
  end.

(** The page loop; [fuel] bounds the number of iterations, and [None] is
    returned when it runs out before the loop ends.  The loop ends by
    returning the list or by raising what [urljoin] raised. *)
Fixpoint crawl (fuel : nat) (self : Scraper) (bulletin_links : list Link)
    (page_num : Z) (w : World) : option (Raising (list Link)) * World :=
  if below page_num (max_pages self) then
    match fuel with
    | O => (None, w)
    | S fuel' =>
        match crawl_page self bulletin_links page_num w with
        | Break bulletin_links' w' => (Some (Returned bulletin_links'), w')
        | Continue bulletin_links' w' =>
            crawl fuel' self bulletin_links' (page_num + 1) w'
        | Raise _ w' => (Some Raised, w')
        end
    end
  else (Some (Returned bulletin_links), w).

Definition get_document_links (fuel : nat) (self : Scraper) (w : World)
    : option (Raising (list Link)) * World :=
  crawl fuel self [] 0 w.

(** *** The ledger *)

(** The loop [for row in reader: existing_files[row["file_name"]] = row];
    a [KeyError] ends it and the rows read so far are kept. *)
Fixpoint load_rows (existing_files : Ledger) (rows : list Csv.Row) : Ledger :=
  match rows with
  | [] => existing_files
  | row :: rows' =>
      match Csv.cells row !! "file_name" with
      | None => existing_files
      | Some key => load_rows (<[key := Loaded row]> existing_files) rows'
      end
  end.

Definition get_existing_files (f : LedgerFile) : Ledger :=
  match f with
  | None => ∅
  | Some table => load_rows ∅ (Csv.DictReader table)
  end.

(** [for result in download_results: existing_files[result["file_name"]] = result] *)
Definition merge_results (existing_files : Ledger) (download_results : list Outcome)
    : Ledger :=
  foldl (λ m o, <[Some (file_name o) := Result o]> m) existing_files download_results.

(** [sorted(keys)]: [None] and a [str] do not compare ([TypeError], here
    [None]); a list of fewer than two keys is never compared. *)
Definition sorted (keys : list (option string)) : option (list (option string)) :=
  match keys with
  | [] | [_] => Some keys
  | _ => (λ names, Some <$> merge_sort String.le names) <$> mapM id keys
  end.

(** The loop [for filename in sorted(...): writer.writerow(...)]: the
    records written so far are what the file holds when a row raises. *)
Fixpoint write_rows (existing_files : Ledger) (filenames : list (option string))
    (written : list (list string)) : list (list string) :=
  match filenames with
  | [] => written
  | filename :: filenames' =>
      match existing_files !! filename ≫= dict_to_list with
      | Some row => write_rows existing_files filenames' (written ++ [row])
      | None => written
      end
  end.

(** The records [create_csv_summary] sends to the writer: the header, and
    the rows up to the first that raises.  [sorted] is evaluated once the
    header is written. *)
Definition summary_rows (existing_files : Ledger) : list (list string) :=
  match sorted (map_to_list existing_files).*1 with
  | Some filenames => write_rows existing_files filenames [CSV_FIELDNAMES]
  | None => [CSV_FIELDNAMES]
  end.

(** The ledger file [create_csv_summary] leaves behind.  Whatever is raised
    between [open] and the end of the [with] block is caught and logged,
    an error of the file system like any other: when the file cannot be
    opened it stays as it was, and when a write fails it holds what had
    reached it. *)
Definition create_csv_summary (fault : Fault) (f : LedgerFile)
    (download_results : list Outcome) : LedgerFile :=
  let existing_files := merge_results (get_existing_files f) download_results in
  match fault with
  | NoFault => Some (summary_rows existing_files)
  | OpenFails => f
  | WriteFails kept => Some (kept (summary_rows existing_files))
  end.

(** The bytes of the ledger file. *)
Definition ledger_text (f : LedgerFile) : option string := Csv.text <$> f.

(** *** Downloading *)

Definition process_document (filename content : string) (w : World) : Outcome :=
  {| file_name := filename;
     file_size_mb := rounded_size_mb content;
     download_timestamp := get_timestamp w;
     status := "downloaded" |}.

(** [for chunk in response.iter_content(...): f.write(chunk)], from the
    [k]-th write on; [false] when a write raises. *)
Fixpoint write_chunks (name : string) (k : nat) (chunks : list string) (d : Disk)
    : bool * Disk :=
  match chunks with
  | [] => (true, d)
  | chunk :: chunks' =>
      if write_fails d name k then (false, d)
      else
        let content := default "" (files d !! name) in
        write_chunks name (S k) chunks'
          (with_files (<[name := content +:+ chunk]> (files d)) d)
  end.

(** The [with open(file_path, "wb")] block; [false] when it raises. *)
Definition save_body (name : string) (r : Response) (d : Disk) : bool * Disk :=
  if open_fails d name then (false, d)
  else
    let '(ok, d1) := write_chunks name 0 (body r)
                       (with_files (<[name := ""]> (files d)) d) in
    (ok && negb (body_fails r), d1).

Definition failed_outcome (bulletin_name : string) (w : World) : Outcome :=
  {| file_name := bulletin_name; file_size_mb := PInt 0;
     download_timestamp := get_timestamp w; status := "failed" |}.

Definition download_bulletin (self : Scraper) (bulletin_info : Link) (w : World)
    : Raising Outcome * World :=
  let '(bulletin_name, pdf_url) := bulletin_info in
  match file_exists bulletin_name (disk w) with
  | Raised => (Raised, w)
  | Returned true =>
      (Returned {| file_name := bulletin_name;
                   file_size_mb :=
                     rounded_size_mb (default "" (files (disk w) !! bulletin_name));
                   download_timestamp := "existing";
                   status := "skipped" |}, w)
  | Returned false =>
      let '(response, w1) := make_request self pdf_url true w in
      match response with
      | None => (Returned (failed_outcome bulletin_name w1), w1)
      | Some r =>
          let '(ok, d1) := save_body bulletin_name r (disk w1) in
          let w2 := with_disk d1 w1 in
          if ok then
            (Returned (process_document bulletin_name
                         (default "" (files d1 !! bulletin_name)) w2), w2)
          else
            match file_exists bulletin_name d1 with
            | Raised => (Raised, w2)
            | Returned true =>
                if unlink_fails d1 bulletin_name then (Raised, w2)
                else
                  let w3 :=
                    with_disk (with_files (delete bulletin_name (files d1)) d1) w2 in
                  (Returned (failed_outcome bulletin_name w3), w3)
            | Returned false => (Returned (failed_outcome bulletin_name w2), w2)
            end
      end
  end.

(** The worker pool of [run], the downloads taken one after the other:
    each worker writes its own file.  The pool is left only when every
    download has ended, and [future.result()] raises again what a
    download raised, so one raise makes the batch raise. *)
Fixpoint download_all (self : Scraper) (new_bulletins : list Link) (w : World)
    : Raising (list Outcome) * World :=
  match new_bulletins with
  | [] => (Returned [], w)
  | bulletin :: new_bulletins' =>
      let '(result, w1) := download_bulletin self bulletin w in
      let '(download_results, w2) := download_all self new_bulletins' w1 in
      (match result, download_results with
       | Returned o, Returned os => Returned (o :: os)
       | _, _ => Raised
       end, w2)
  end.

(** [[(name, url) for name, url in bulletin_links if not self.file_exists(name)]] *)
Fixpoint not_yet_stored (bulletin_links : list Link) (d : Disk) : Raising (list Link) :=
  match bulletin_links with
  | [] => Returned []
  | l :: bulletin_links' =>
      match file_exists l.1 d with
      | Raised => Raised
      | Returned stored =>
          (λ rest, if stored then rest else l :: rest) <$> not_yet_stored bulletin_links' d
      end
  end.

(** [ThreadPoolExecutor(max_workers=...)] raises [ValueError] unless
    [max_workers] is positive. *)
Definition run (fuel : nat) (self : Scraper) (w : World) : option (Raising ()) * World :=
  let '(crawled, w1) := get_document_links fuel self w in
  match crawled with
  | None => (None, w1)
  | Some Raised => (Some Raised, w1)
  | Some (Returned []) => (Some (Returned ()), w1)
  | Some (Returned bulletin_links) =>
      match not_yet_stored bulletin_links (disk w1) with
      | Raised => (Some Raised, w1)
      | Returned [] => (Some (Returned ()), w1)
      | Returned new_bulletins =>
          if max_workers self <=? 0 then (Some Raised, w1)
          else
            let '(download_results, w2) := download_all self new_bulletins w1 in
            match download_results with
            | Returned results =>
                (Some (Returned ()),
                 with_ledger (create_csv_summary (csv_fault (disk w2))
                                (ledger w2) results) w2)
            | Raised => (Some Raised, w2)
            end
      end
  end.

(** *** Checking for new bulletins *)

(** [self.output_dir.glob("*.pdf")] with the content of each file. *)
Definition glob_pdf (d : Disk) : list (string * string) :=
  List.filter (λ kv : string * string, Path.endswith kv.1 ".pdf")
    (map_to_list (files d)).

(** The rows of the ledger that [get_local_bulletins] adds; a [KeyError]
    ends the loop. *)
Fixpoint local_rows (local_bulletins : gset (option string)) (rows : list Csv.Row)
    : gset (option string) :=
  match rows with
  | [] => local_bulletins
  | row :: rows' =>
      let st := mjoin (Csv.cells row !! "status") in
      if bool_decide (st = Some "downloaded") || bool_decide (st = Some "skipped")
      then match Csv.cells row !! "file_name" with
           | None => local_bulletins
           | Some key => local_rows ({[key]} ∪ local_bulletins) rows'
           end
      else local_rows local_bulletins rows'
  end.

Definition get_local_bulletins (w : World) : gset (option string) :=
  let on_disk : gset (option string) :=
    list_to_set ((λ kv : string * string, Some kv.1) <$> glob_pdf (disk w)) in
  match ledger w with
  | None => on_disk
  | Some table => local_rows on_disk (Csv.DictReader table)
  end.

(** [l[:limit]] *)
Definition slice_to {A} (limit : Z) (l : list A) : list A :=
  if 0 <=? limit then take (Z.to_nat limit) l
  else take (length l - Z.to_nat (- limit)) l.

(** Truth value of an optional [int]. *)
Definition truthy (limit : option Z) : bool :=
  match limit with
  | Some n => negb (n =? 0)
  | None => false
  end.

(** When the crawl raises, the exception leaves the method before
    [max_pages] is set back; no caller catches it. *)
Definition get_remote_bulletins (fuel : nat) (self : Scraper) (limit : option Z)
    (w : World) : option (Raising (list Link)) * World :=
  let '(all_bulletins, w') :=
    if truthy limit && bool_decide (default 0 limit <= 50) then
      let limited_pages := Z.max 1 (default 0 limit / 20 + 1) in
      get_document_links fuel (with_max_pages (Pages limited_pages) self) w
    else get_document_links fuel self w in
  if truthy limit
  then (returned (slice_to (default 0 limit)) all_bulletins, w')
  else (all_bulletins, w').

Definition check_for_new_bulletins (fuel : nat) (self : Scraper) (limit : option Z)
    (w : World) : option (Raising CheckResults) * World :=
  let local_bulletins := get_local_bulletins w in
  let '(remote, w') := get_remote_bulletins fuel self limit w in
  (returned (λ remote_bulletins : list Link,
      let new := List.filter (λ l : Link, bool_decide (Some l.1 ∉ local_bulletins))
                   remote_bulletins in
      {| total_remote_checked := length remote_bulletins;
         total_local := size local_bulletins;
         new_bulletins_count := length new;
         new_bulletins := new;
         check_timestamp := get_timestamp w' |}) remote, w').

(** *** Processing and validation *)

(** The whole body is in a [try] whose handler returns [False]: so does a
    file that cannot be opened or read. *)
Definition _is_valid_pdf_flexible (d : Disk) (name : string) : bool :=
  match files d !! name with
  | None => false
  | Some content =>
      if Bytes.len content =? 0 then false
      else if read_fails d name then false
      else
        let header := Bytes.take 1024 content in
        if Bytes.startswith header "%PDF" then true
        else if Bytes.contains "PDF" (Bytes.take 100 header) then true
        else if Bytes.startswith header "%!PS" then true
        else if Bytes.len content <? 1024 then false
        else true
  end.

(** The dictionary of validation results, in directory order. *)
Definition validate_pdf_files (d : Disk) : list (string * bool) :=
  (λ kv : string * string,
     if Bytes.len kv.2 =? 0 then (kv.1, false)
     else (kv.1, _is_valid_pdf_flexible d kv.1)) <$> glob_pdf d.

(** The deletion loop: a failure is logged and the loop goes on. *)
Fixpoint unlink_each (names : list string) (d : Disk) : Disk :=
  match names with
  | [] => d
  | filename :: names' =>
      unlink_each names'
        (if unlink_fails d filename then d
         else with_files (delete filename (files d)) d)
  end.

Definition cleanup_invalid_files (dry_run : bool) (d : Disk) : list string * Disk :=
  let invalid_files :=
    (List.filter (λ kv : string * bool, negb kv.2) (validate_pdf_files d)).*1 in
  match invalid_files with
  | [] => ([], d)
  | _ =>
      if dry_run then (invalid_files, d)
      else (invalid_files, unlink_each invalid_files d)
  end.

End IRSBulletinScraper.

(** *** Statistics *)

(** The dictionary [get_bulletin_statistics] returns. *)
Record BulletinStatistics := {
  total_files : nat;
  total_size_mb : pynum;
  valid_files : nat;
  invalid_files : nat;
  average_size_mb : pynum
}.

Section Statistics.

(** [round(total_size / (1024 * 1024) / count, 2)]: the second division is
    rounded in floating point, so the value is left to the arithmetic. *)
Variable rounded_average : Z → nat → pynum.

(** [sum(f.stat().st_size for f in pdf_files)] *)
Definition total_size (pdf_files : list (string * string)) : Z :=
  foldr (λ kv acc, Bytes.len kv.2 + acc) 0 pdf_files.

(** [sum(validation_results.values())] *)
Definition count_valid (validation_results : list (string * bool)) : nat :=
  length (List.filter snd validation_results).

(** The output directory exists: the constructor creates it. *)
Definition get_bulletin_statistics (d : Disk) : BulletinStatistics :=
  let pdf_files := glob_pdf d in
  let validation_results := validate_pdf_files d in
  let valid_count := count_valid validation_results in
  let invalid_count := (length validation_results - valid_count)%nat in
  {| total_files := length pdf_files;
     total_size_mb := PFloat2 (Text.round2 (total_size pdf_files) (1024 * 1024));
     valid_files := valid_count;
     invalid_files := invalid_count;
     average_size_mb :=
       match pdf_files with
       | [] => PInt 0
       | _ => rounded_average (total_size pdf_files) (length pdf_files)
       end |}.

End Statistics.

(** * Properties *)

(** ** Byte strings *)

Module BytesFacts.
Import Bytes.


Lemma app_cons a p r : String a p +:+ r = String a (p +:+ r).
Proof. reflexivity. Qed.

Lemma startswith_spec s p : startswith s p = true ↔ ∃ r, s = p +:+ r.
Proof.
  revert s. induction p as [|a p IH]; intros s; simpl.
  - split; [intros _; by exists s | done].
  - destruct s as [|b s].
    + split; [done | intros [r Hr]; discriminate].
    + case_decide as Hab.
      * subst b. rewrite IH. split; intros [r Hr]; exists r.
        -- by rewrite app_cons, Hr.
        -- rewrite app_cons in Hr. by injection Hr.
      * split; [done | intros [r Hr]]. rewrite app_cons in Hr.
        injection Hr as -> _. done.
Qed.

Lemma contains_spec needle hay :
  contains needle hay = true ↔ ∃ pre post, hay = pre +:+ needle +:+ post.
Proof.
  induction hay as [|b hay IH]; simpl.
  - rewrite orb_false_r, startswith_spec. split.
    + intros [r Hr]. by exists EmptyString, r.
    + intros (pre & post & H). destruct pre; [by exists post | discriminate].
  - rewrite orb_true_iff, startswith_spec, IH. split.
    + intros [[r Hr] | (pre & post & H)].
      * by exists EmptyString, r.
      * exists (String b pre), post. by rewrite app_cons, H.
    + intros (pre & post & H). destruct pre as [|c pre].
      * left. by exists post.
      * right. rewrite app_cons in H. injection H as -> H. by exists pre, post.
Qed.

Lemma take_drop n s : take n s +:+ drop n s = s.
Proof.
  revert s. induction n as [|n IH]; intros [|a s]; simpl; try done.
  by rewrite app_cons, IH.
Qed.

Lemma length_take n s : String.length (take n s) = Nat.min n (String.length s).
Proof.
  revert s. induction n as [|n IH]; intros [|a s]; simpl; try done.
  by rewrite IH.
Qed.

(** A prefix no longer than the slice is a prefix of the slice exactly when
    it is a prefix of the whole string. *)
Lemma startswith_take n s p :
  (String.length p <= n)%nat → startswith (take n s) p = startswith s p.
Proof.
  revert n s. induction p as [|a p IH]; intros n s Hn; simpl in *; [done|].
  destruct n as [|n]; [lia|]. destruct s as [|b s]; simpl; [done|].
  case_decide; [|done]. apply IH. lia.
Qed.

End BytesFacts.

(** ** Rendering samples *)

Example dec_samples :
  Text.dec 0 = "0" ∧ Text.dec 7 = "7" ∧ Text.dec 10 = "10" ∧
  Text.dec 1048576 = "1048576" ∧ Text.str_int (-42) = "-42".
Proof. repeat split; reflexivity. Qed.

Example str_float2_samples :
  Text.str_float2 0 = "0.0" ∧ Text.str_float2 150 = "1.5" ∧
  Text.str_float2 12 = "0.12" ∧ Text.str_float2 123456 = "1234.56" ∧
  Text.str_float2 100 = "1.0".
Proof. repeat split; reflexivity. Qed.

(** [round(131072 / 2**20, 2)] is [round(0.125, 2) = 0.12]. *)
Example round2_samples :
  Text.round2 131072 1048576 = 12 ∧ Text.round2 1572864 1048576 = 150 ∧
  Text.round2 0 1048576 = 0 ∧ Text.round2 393216 1048576 = 38.
Proof. repeat split; reflexivity. Qed.

Example isoformat_samples :
  isoformat {| year := 2024; month := 3; day := 9; hour := 7; minute := 5;
               second := 0; microsecond := 0 |} = "2024-03-09T07:05:00" ∧
  isoformat {| year := 2024; month := 12; day := 31; hour := 23; minute := 59;
               second := 59; microsecond := 1200 |} = "2024-12-31T23:59:59.001200".
Proof. split; reflexivity. Qed.

(** ** Samples of the helpers *)

(** A database that knows, beyond ASCII, the Arabic-Indic digits. *)
Definition sample_decimal (c : N) : bool := ((1632 <=? c) && (c <=? 1641))%N.

Definition href (s : string) : list N := Text.code_points s.

Example bulletin_search_samples :
  let search := Re.bulletin_search sample_decimal in
  search (href "/pub/irs-irbs/irb2024-02.pdf") = true ∧
  search (href "https://www.irs.gov/pub/irs-irbs/irb24-7.pdf#page=2") = true ∧
  search (href "/pub/irs-irbs/irb-02.pdf") = false ∧
  search (href "/pub/irs-irbs/irb2024-02.PDF") = false ∧
  search (href "/pub/irs-pdf/p17.pdf") = false ∧
  search (href "/pub/irs-irbs/irb" ++ [1634; 1632; 1634; 1636]%N ++ href "-" ++
          [1632; 1633]%N ++ href ".pdf") = true.
Proof. repeat split; reflexivity. Qed.

Example basename_samples :
  Path.basename "https://www.irs.gov/pub/irs-irbs/irb2024-02.pdf" = "irb2024-02.pdf" ∧
  Path.basename "irb2024-02.pdf" = "irb2024-02.pdf" ∧
  Path.basename "/pub/" = "" ∧
  Path.endswith "irb2024-02.pdf" ".pdf" = true ∧
  Path.endswith "notes.txt" ".pdf" = false.
Proof. repeat split; reflexivity. Qed.

Example has_next_page_samples :
  _has_next_page {| Html.hrefs := []; Html.pagination := None |} = false ∧
  _has_next_page {| Html.hrefs := [];
                    Html.pagination := Some {| Html.next_items := [None];
                                               Html.pager_links := ["1"; "2"] |} |} = false ∧
  _has_next_page {| Html.hrefs := [];
                    Html.pagination := Some {| Html.next_items := [];
                                               Html.pager_links := ["1"; "Next page"] |} |} = true.
Proof. repeat split; reflexivity. Qed.

Example slice_to_samples :
  slice_to 2 [1; 2; 3] = [1; 2] ∧ slice_to 5 [1; 2; 3] = [1; 2; 3] ∧
  slice_to 0 [1; 2; 3] = [] ∧ slice_to (-1) [1; 2; 3] = [1; 2] ∧
  slice_to (-4) [1; 2; 3] = [].
Proof. repeat split; reflexivity. Qed.

Example page_url_samples :
  page_url 0 = "https://www.irs.gov/internal-revenue-bulletins" ∧
  page_url 12 = "https://www.irs.gov/internal-revenue-bulletins?page=12".
Proof. split; reflexivity. Qed.

(** ** Validator *)

Section Validator.
Import Bytes BytesFacts.

Lemma take_take n m s : (n <= m)%nat → take n (take m s) = take n s.
Proof.
  revert m s. induction n as [|n IH]; intros m s Hnm; [done|].
  destruct m as [|m]; [lia|]. destruct s as [|a s]; simpl; [done|].
  rewrite IH by lia. done.
Qed.

Lemma len_zero s : len s = 0 ↔ s = EmptyString.
Proof. unfold len. destruct s; simpl; split; intros; try done; lia. Qed.

(** A recognised signature: the first kilobyte starts with [%PDF], or
    [PDF] occurs within the first 100 bytes, or the first kilobyte starts
    with [%!PS]. *)
Definition recognised_signature (content : string) : Prop :=
  (∃ r, take 1024 content = "%PDF" +:+ r) ∨
  (∃ pre post, take 100 content = pre +:+ "PDF" +:+ post) ∨
  (∃ r, take 1024 content = "%!PS" +:+ r).

(** C5, amended. The validity classifier on a stored file: an empty file
    is invalid; a non-empty file that cannot be opened or read is invalid,
    whatever it holds; a non-empty readable file with a recognised
    signature is valid; any other non-empty readable file is valid exactly
    when it holds at least 1024 bytes. *)
Theorem is_valid_pdf_flexible_classifies (d : Disk) (name content : string) :
  files d !! name = Some content →
  (content = EmptyString → _is_valid_pdf_flexible d name = false) ∧
  (read_fails d name = true → _is_valid_pdf_flexible d name = false) ∧
  (content ≠ EmptyString → read_fails d name = false →
     recognised_signature content → _is_valid_pdf_flexible d name = true) ∧
  (content ≠ EmptyString → read_fails d name = false →
     ¬ recognised_signature content →
     (_is_valid_pdf_flexible d name = true ↔ 1024 <= len content)).
Proof.
  intros Hfile. unfold _is_valid_pdf_flexible, recognised_signature.
  rewrite Hfile. rewrite take_take by lia.
  destruct (len content =? 0) eqn:Hlen.
  { apply Z.eqb_eq, len_zero in Hlen. subst content. by repeat split. }
  apply Z.eqb_neq in Hlen.
  split; [intros ->; by destruct Hlen|].
  destruct (read_fails d name) eqn:Hread; [by repeat split|].
  split; [done|].
  destruct (startswith (take 1024 content) "%PDF") eqn:Hpdf.
  { split; [done|]. intros _ _ Hno. destruct Hno. left. by apply startswith_spec. }
  destruct (contains "PDF" (take 100 content)) eqn:Hin.
  { split; [done|]. intros _ _ Hno. destruct Hno. right; left. by apply contains_spec. }
  destruct (startswith (take 1024 content) "%!PS") eqn:Hps.
  { split; [done|]. intros _ _ Hno. destruct Hno. right; right. by apply startswith_spec. }
  split.
  - intros _ _ [H | [H | H]].
    + apply startswith_spec in H. congruence.
    + apply contains_spec in H. congruence.
    + apply startswith_spec in H. congruence.
  - intros _ _ _. destruct (len content <? 1024) eqn:Hsz.
    + apply Z.ltb_lt in Hsz. split; [done | lia].
    + apply Z.ltb_ge in Hsz. done.
Qed.

End Validator.

(** Storage on which no operation fails. *)
Definition sample_disk (fs : gmap string string) : Disk :=
  {| files := fs; exists_fails := λ _, false; open_fails := λ _, false;
     write_fails := λ _ _, false; read_fails := λ _, false;
     unlink_fails := λ _, false; csv_fault := NoFault |}.

(** Storage whose files cannot be read. *)
Definition unreadable_disk (fs : gmap string string) : Disk :=
  {| files := fs; exists_fails := λ _, false; open_fails := λ _, false;
     write_fails := λ _ _, false; read_fails := λ _, true;
     unlink_fails := λ _, false; csv_fault := NoFault |}.

Lemma is_valid_pdf_flexible_classifies_witness :
  let d := sample_disk {[ "irb2024-01.pdf" := "%PDF-1.7 bulletin" ]} in
  _is_valid_pdf_flexible d "irb2024-01.pdf" = true.
Proof.
  intros d.
  destruct (is_valid_pdf_flexible_classifies d "irb2024-01.pdf" "%PDF-1.7 bulletin")
    as (_ & _ & Hvalid & _).
  - reflexivity.
  - apply Hvalid.
    + discriminate.
    + reflexivity.
    + left. exists "-1.7 bulletin". reflexivity.
Defined.

(** C5 as stated fails: a file that starts with the PDF signature, and one
    of 2000 bytes, are classified invalid when they cannot be read. *)
Lemma is_valid_pdf_flexible_classifies_counterexample :
  let d := unreadable_disk {[ "irb2024-01.pdf" := "%PDF-1.7 bulletin";
                              "irb2024-02.pdf" := Text.zeros 2000 ]} in
  files d !! "irb2024-01.pdf" = Some "%PDF-1.7 bulletin" ∧
  Bytes.startswith (Bytes.take 1024 "%PDF-1.7 bulletin") "%PDF" = true ∧
  _is_valid_pdf_flexible d "irb2024-01.pdf" = false ∧
  1024 <= Bytes.len (Text.zeros 2000) ∧
  _is_valid_pdf_flexible d "irb2024-02.pdf" = false.
Proof. split_and!; try (vm_compute; reflexivity). vm_compute. discriminate. Qed.

(** ** HTTP fetcher *)

Section Fetcher.

(** An attempt that did not produce a response with status 200. *)
Definition failed_attempt (a : Attempt) : Prop :=
  match a with
  | Answer r => status_code r ≠ 200
  | Fails => True
  end.

(** The events of a run of failed attempts, the first with index [j]: each
    GET is followed by a pause of [2 ^ index] seconds. *)
Fixpoint backoff_log (url : string) (stream : bool) (j : Z) (failures : list Attempt)
    : list Event :=
  match failures with
  | [] => []
  | a :: failures' =>
      EGet url stream a :: ESleep (2 ^ j) :: backoff_log url stream (j + 1) failures'
  end.

(** Everything but the log is as before. *)
Definition same_world (w w' : World) : Prop :=
  net w' = net w ∧ clock w' = clock w ∧ disk w' = disk w ∧ ledger w' = ledger w.

Lemma same_world_refl w : same_world w w.
Proof. by repeat split. Qed.

Lemma same_world_trans w1 w2 w3 :
  same_world w1 w2 → same_world w2 w3 → same_world w1 w3.
Proof. unfold same_world. intros (?&?&?&?) (?&?&?&?). repeat split; congruence. Qed.

Lemma same_world_record e w : same_world w (record e w).
Proof. by repeat split. Qed.

Lemma make_request_from_spec self url stream remaining :
  ∀ attempt w,
    (1 <= remaining)%nat → attempt + Z.of_nat remaining = max_retries self →
    ∃ failures last,
      let '(result, w') := make_request_from remaining attempt self url stream w in
      log w' = log w ++ backoff_log url stream attempt failures ++ [EGet url stream last] ∧
      same_world w w' ∧
      Forall failed_attempt failures ∧
      last = net w (log w ++ backoff_log url stream attempt failures) url ∧
      ((∃ r, last = Answer r ∧ status_code r = 200 ∧ result = Some r ∧
             (length failures < remaining)%nat) ∨
       (failed_attempt last ∧ result = None ∧ S (length failures) = remaining)).
Proof.
  induction remaining as [|k IH]; intros attempt w Hpos Hsum; [lia|].
  cbn [make_request_from]. unfold requests_get.
  set (a := net w (log w) url).
  assert (Hcases :
    (∃ r, a = Answer r ∧ status_code r = 200) ∨ failed_attempt a).
  { destruct a as [r|]; [|by right].
    destruct (decide (status_code r = 200)); [left; eauto | by right]. }
  destruct Hcases as [(r & Ha & H200) | Hfail].
  - rewrite Ha. apply Z.eqb_eq in H200 as H200'. rewrite H200'.
    exists [], a. cbn. rewrite app_nil_r. repeat split; try done.
    { by rewrite Ha. }
    left. exists r. split_and!; try done; lia.
  - assert (Hok : match a with
                  | Answer r => if status_code r =? 200 then Some r else None
                  | Fails => None
                  end = None).
    { destruct a as [r|]; [|done]. cbn in Hfail.
      apply Z.eqb_neq in Hfail. by rewrite Hfail. }
    rewrite Hok. destruct k as [|k].
    + assert ((attempt <? max_retries self - 1) = false) as -> by (apply Z.ltb_ge; lia).
      exists [], a. cbn. rewrite app_nil_r. repeat split; try done. by right.
    + assert ((attempt <? max_retries self - 1) = true) as -> by (apply Z.ltb_lt; lia).
      specialize (IH (attempt + 1) (sleep (2 ^ attempt) (record (EGet url stream a) w))).
      destruct IH as (failures & last & IH); [lia | lia |].
      exists (a :: failures), last.
      destruct (make_request_from (S k) (attempt + 1) self url stream _) as [result w'].
      destruct IH as (Hlog & Hsame & Hfails & Hlast & Hres). cbn in Hlog, Hlast.
      repeat split.
      * rewrite Hlog. cbn. rewrite <- !app_assoc. done.
      * apply Hsame.
      * apply Hsame.
      * apply Hsame.
      * apply Hsame.
      * by constructor.
      * rewrite Hlast. cbn. rewrite <- !app_assoc. done.
      * destruct Hres as [(r & ? & ? & ? & ?) | (? & ? & ?)].
        -- left. exists r. split_and!; try done; cbn; lia.
        -- right. split_and!; try done; cbn; lia.
Qed.

(** C2. With [max_retries >= 1], [make_request] issues GETs for the URL one
    after the other, each taken from the network at that point of the
    history; every failed one but the last is followed by a pause of
    [2 ^ index] seconds.  The run ends either at the first response with
    status 200, which is returned, or after [max_retries] failed attempts
    with [None], the last attempt not followed by a pause. *)
Theorem make_request_retries (self : Scraper) (url : string) (stream : bool) (w : World) :
  1 <= max_retries self →
  ∃ failures last,
    let '(result, w') := make_request self url stream w in
    log w' = log w ++ backoff_log url stream 0 failures ++ [EGet url stream last] ∧
    same_world w w' ∧
    Forall failed_attempt failures ∧
    last = net w (log w ++ backoff_log url stream 0 failures) url ∧
    Z.of_nat (length failures) + 1 <= max_retries self ∧
    ((∃ r, last = Answer r ∧ status_code r = 200 ∧ result = Some r) ∨
     (failed_attempt last ∧ result = None ∧
      Z.of_nat (length failures) + 1 = max_retries self)).
Proof.
  intros Hpos. unfold make_request.
  destruct (make_request_from_spec self url stream (Z.to_nat (max_retries self)) 0 w)
    as (failures & last & H); [lia | lia |].
  exists failures, last.
  destruct (make_request_from _ 0 self url stream w) as [result w'].
  destruct H as (Hlog & Hsame & Hfails & Hlast & Hres).
  repeat split; try done; try apply Hsame.
  - destruct Hres as [(r & ? & ? & ? & ?) | (? & ? & ?)]; lia.
  - destruct Hres as [(r & ? & ? & ? & ?) | (? & ? & ?)].
    + left. eauto.
    + right. split_and!; try done; lia.
Qed.

End Fetcher.

(** A sample run: the server answers 503, then the connection fails, then
    the page arrives. *)

Definition empty_page : Html.Soup := {| Html.hrefs := []; Html.pagination := None |}.

Definition answer (code : Z) (page : Html.Soup) : Attempt :=
  Answer {| status_code := code; soup := page; body := []; body_fails := false |}.

Definition gets (history : list Event) : nat :=
  length (List.filter (λ e, match e with EGet _ _ _ => true | ESleep _ => false end) history).

Definition epoch : DateTime :=
  {| year := 2024; month := 1; day := 2; hour := 3; minute := 4; second := 5;
     microsecond := 0 |}.

Definition sample_world (network : list Event → string → Attempt)
    (fs : gmap string string) (l : LedgerFile) : World :=
  {| net := network; clock := λ _, epoch; log := []; disk := sample_disk fs; ledger := l |}.

Definition flaky_net (history : list Event) (url : string) : Attempt :=
  match gets history with
  | O => answer 503 empty_page
  | 1%nat => Fails
  | _ => answer 200 empty_page
  end.

Definition default_scraper : Scraper :=
  {| max_workers := MAX_WORKERS; max_retries := MAX_RETRIES;
     timeout := REQUEST_TIMEOUT; max_pages := Unlimited |}.

Example make_request_third_time_lucky :
  let '(result, w') := make_request default_scraper "u" false (sample_world flaky_net ∅ None) in
  result = Some {| status_code := 200; soup := empty_page; body := []; body_fails := false |} ∧
  log w' = [EGet "u" false (answer 503 empty_page); ESleep 1;
            EGet "u" false Fails; ESleep 2;
            EGet "u" false (answer 200 empty_page)].
Proof. split; reflexivity. Qed.

Example make_request_gives_up :
  let '(result, w') :=
    make_request default_scraper "u" false (sample_world (λ _ _, Fails) ∅ None) in
  result = None ∧
  log w' = [EGet "u" false Fails; ESleep 1; EGet "u" false Fails; ESleep 2;
            EGet "u" false Fails].
Proof. split; reflexivity. Qed.

Lemma make_request_retries_witness :
  1 <= max_retries default_scraper ∧
  ∃ failures last,
    let '(result, w') :=
      make_request default_scraper "u" false (sample_world flaky_net ∅ None) in
    log w' = backoff_log "u" false 0 failures ++ [EGet "u" false last] ∧
    ((∃ r, last = Answer r ∧ status_code r = 200 ∧ result = Some r) ∨
     (failed_attempt last ∧ result = None)).
Proof.
  assert (Hpos : 1 <= max_retries default_scraper)
    by (unfold default_scraper, MAX_RETRIES; simpl; lia).
  split; [done|].
  destruct (make_request_retries default_scraper "u" false
              (sample_world flaky_net ∅ None) Hpos) as (failures & last & H).
  exists failures, last.
  destruct (make_request default_scraper "u" false _) as [result w'].
  destruct H as (Hlog & _ & _ & _ & _ & Hres). split; [exact Hlog|].
  destruct Hres as [Hok | (Hno & Hnone & _)]; [by left | by right].
Defined.

(** ** Link collector *)

(** Keep the first link of each filename not seen before, in order. *)
Fixpoint first_seen (seen : list string) (links : list Link) : list Link :=
  match links with
  | [] => []
  | l :: links' =>
      if bool_decide (l.1 ∈ seen) then first_seen seen links'
      else l :: first_seen (seen ++ [l.1]) links'
  end.

(** The pages that arrived with status 200 during a stretch of the log. *)
Definition fetched_pages (events : list Event) : list Html.Soup :=
  omap (λ e, match e with
             | EGet _ _ (Answer r) => if status_code r =? 200 then Some (soup r) else None
             | _ => None
             end) events.

Lemma first_seen_app seen l1 l2 :
  first_seen seen (l1 ++ l2) =
  first_seen seen l1 ++ first_seen (seen ++ (first_seen seen l1).*1) l2.
Proof.
  revert seen. induction l1 as [|l l1 IH]; intros seen; cbn.
  - by rewrite app_nil_r.
  - case_bool_decide; [apply IH|].
    cbn. rewrite IH, <- app_assoc. done.
Qed.

Lemma first_seen_NoDup links : ∀ seen,
  NoDup seen → NoDup (seen ++ (first_seen seen links).*1).
Proof.
  induction links as [|l links IH]; intros seen Hseen; cbn.
  - by rewrite app_nil_r.
  - case_bool_decide as Hin; [by apply IH|].
    cbn. rewrite cons_middle, (assoc_L (++)). apply IH.
    apply NoDup_app. split_and!; [done| |apply NoDup_singleton].
    intros x Hx ->%list_elem_of_singleton. done.
Qed.

Lemma first_seen_sublist links : ∀ seen, first_seen seen links `sublist_of` links.
Proof.
  induction links as [|l links IH]; intros seen; cbn; [done|].
  case_bool_decide.
  - by apply sublist_cons.
  - by apply sublist_skip.
Qed.

Lemma first_seen_covers links : ∀ seen l,
  l ∈ links → l.1 ∈ seen ++ (first_seen seen links).*1.
Proof.
  induction links as [|l0 links IH]; intros seen l Hl; [by apply elem_of_nil in Hl|].
  apply elem_of_cons in Hl as [-> | Hl]; cbn.
  - case_bool_decide as Hin.
    + apply elem_of_app. by left.
    + cbn. apply elem_of_app. right. apply elem_of_cons. by left.
  - case_bool_decide as Hin; [by apply IH|].
    cbn. rewrite cons_middle, (assoc_L (++)). by apply IH.
Qed.

Lemma first_seen_nil seen links :
  (∀ l, l ∈ links → l.1 ∈ seen) → first_seen seen links = [].
Proof.
  induction links as [|l links IH]; intros Hall; cbn; [done|].
  rewrite bool_decide_eq_true_2 by (apply Hall; left).
  apply IH. intros l' Hl'. apply Hall. by right.
Qed.

Lemma fetched_pages_app e1 e2 : fetched_pages (e1 ++ e2) = fetched_pages e1 ++ fetched_pages e2.
Proof. apply omap_app. Qed.

Section Collector.

Variable unicode_decimal : N → bool.
Variable urljoin : string → list N → option string.

(** The link an anchor stands for, when [urljoin] returns. *)
Definition resolve (href : list N) : option Link :=
  (λ pdf_url, (Path.basename pdf_url, pdf_url)) <$> urljoin "https://www.irs.gov" href.

(** The anchors of a page whose [href] the pattern accepts. *)
Definition bulletin_hrefs (page : Html.Soup) : list (list N) :=
  List.filter (Re.bulletin_search unicode_decimal) (Html.hrefs page).

(** The links of the anchors that come before the first one on which
    [urljoin] raises. *)
Fixpoint resolved (hrefs : list (list N)) : list Link :=
  match hrefs with
  | [] => []
  | h :: hrefs' =>
      match resolve h with
      | Some l => l :: resolved hrefs'
      | None => []
      end
  end.

(** The bulletin links of a page, in document order; they stop at the
    anchor on which [urljoin] raises, if there is one. *)
Definition page_links (page : Html.Soup) : list Link := resolved (bulletin_hrefs page).

(** [urljoin] raises on an anchor of the page. *)
Definition page_raises (page : Html.Soup) : bool :=
  existsb (λ h, bool_decide (resolve h = None)) (bulletin_hrefs page).

Definition step_links (s : PageStep) : list Link :=
  match s with Break l _ | Continue l _ | Raise l _ => l end.

Definition step_world (s : PageStep) : World :=
  match s with Break _ w | Continue _ w | Raise _ w => w end.

Definition step_raised (s : PageStep) : bool :=
  match s with Raise _ _ => true | _ => false end.

Lemma existsb_name (name : string) (links : list Link) :
  existsb (λ l : Link, bool_decide (name = l.1)) links = bool_decide (name ∈ links.*1).
Proof.
  induction links as [|l links IH]; cbn; [done|].
  rewrite IH, <- bool_decide_or. apply bool_decide_ext.
  by rewrite elem_of_cons.
Qed.

(** Without a raise every accepted anchor has its link. *)
Lemma resolved_all hs :
  existsb (λ h, bool_decide (resolve h = None)) hs = false →
  resolve <$> hs = Some <$> resolved hs.
Proof.
  induction hs as [|h hs IH]; cbn; [done|].
  intros [Hh Hhs]%orb_false_iff. apply bool_decide_eq_false in Hh.
  destruct (resolve h) as [l|]; [|done]. cbn. by rewrite IH.
Qed.

Lemma scan_links_spec hs : ∀ (links : list Link) (found : bool),
  scan_links urljoin (links, found) hs =
  (links ++ first_seen links.*1 (resolved hs),
   if existsb (λ h, bool_decide (resolve h = None)) hs then None
   else Some (found || negb (bool_decide (first_seen links.*1 (resolved hs) = [])))).
Proof.
  induction hs as [|h hs IH]; intros links found;
    cbn [scan_links resolved existsb first_seen fst snd].
  - by rewrite app_nil_r, orb_false_r.
  - unfold scan_link, resolve.
    destruct (urljoin "https://www.irs.gov" h) as [pdf_url|]; cbn [fmap option_fmap option_map].
    2: { rewrite bool_decide_eq_true_2 by done. cbn. by rewrite app_nil_r. }
    rewrite bool_decide_eq_false_2 by done. cbn [orb fst snd first_seen].
    rewrite existsb_name. case_bool_decide as Hin.
    + apply IH.
    + rewrite IH, fmap_app. cbn [fmap list_fmap fst]. rewrite <- app_assoc. cbn [app].
      f_equal. destruct (existsb _ hs); [done|]. cbn. by rewrite orb_true_r.
Qed.

Lemma scan_page_spec links page :
  scan_page unicode_decimal urljoin links page =
  (links ++ first_seen links.*1 (page_links page),
   if page_raises page then None
   else Some (negb (bool_decide (first_seen links.*1 (page_links page) = [])))).
Proof. unfold scan_page, page_links, page_raises, bulletin_hrefs. by rewrite scan_links_spec. Qed.

(** What a request adds to the log, whatever the number of retries. *)
Lemma make_request_from_log self url stream remaining : ∀ attempt w,
  ∃ events,
    let '(result, w') := make_request_from remaining attempt self url stream w in
    log w' = log w ++ events ∧ same_world w w' ∧
    fetched_pages events = match result with Some r => [soup r] | None => [] end.
Proof.
  induction remaining as [|k IH]; intros attempt w; cbn [make_request_from].
  - exists []. rewrite app_nil_r. split_and!; [done | apply same_world_refl | done].
  - unfold requests_get. set (a := net w (log w) url).
    destruct a as [r|] eqn:Ha; [destruct (status_code r =? 200) eqn:H200|].
    + exists [EGet url stream (Answer r)]. cbn. rewrite H200.
      split_and!; [done | apply same_world_record | done].
    + match goal with |- context [make_request_from k ?x self url stream ?w2] =>
        destruct (IH x w2) as (events & H);
        destruct (make_request_from k x self url stream w2) as [result w'] eqn:Hrun
      end.
      destruct H as (Hlog & Hsame & Hpages).
      destruct (attempt <? max_retries self - 1).
      * exists (EGet url stream (Answer r) :: ESleep (2 ^ attempt) :: events).
        cbn in Hlog. rewrite <- !app_assoc in Hlog. split_and!; [done | apply Hsame |].
        cbn. by rewrite H200.
      * exists (EGet url stream (Answer r) :: events).
        cbn in Hlog. rewrite <- !app_assoc in Hlog. split_and!; [done | apply Hsame |].
        cbn. by rewrite H200.
    + match goal with |- context [make_request_from k ?x self url stream ?w2] =>
        destruct (IH x w2) as (events & H);
        destruct (make_request_from k x self url stream w2) as [result w'] eqn:Hrun
      end.
      destruct H as (Hlog & Hsame & Hpages).
      destruct (attempt <? max_retries self - 1).
      * exists (EGet url stream Fails :: ESleep (2 ^ attempt) :: events).
        cbn in Hlog. rewrite <- !app_assoc in Hlog. split_and!; [done | apply Hsame | done].
      * exists (EGet url stream Fails :: events).
        cbn in Hlog. rewrite <- !app_assoc in Hlog. split_and!; [done | apply Hsame | done].
Qed.

Lemma make_request_log self url stream w :
  ∃ events,
    let '(result, w') := make_request self url stream w in
    log w' = log w ++ events ∧ same_world w w' ∧
    fetched_pages events = match result with Some r => [soup r] | None => [] end.
Proof. apply make_request_from_log. Qed.

(** One iteration appends to the accumulator the links of the page it
    fetched that were not seen before, and raises exactly when [urljoin]
    raises on that page. *)
Lemma crawl_page_spec self links page_num w :
  ∃ events,
    let step := crawl_page unicode_decimal urljoin self links page_num w in
    log (step_world step) = log w ++ events ∧
    step_links step =
      links ++ first_seen links.*1 (concat (page_links <$> fetched_pages events)) ∧
    step_raised step = existsb page_raises (fetched_pages events).
Proof.
  unfold crawl_page.
  destruct (make_request_log self (page_url page_num) false w) as (events & H).
  destruct (make_request self (page_url page_num) false w) as [[r|] w1];
    destruct H as (Hlog & _ & Hpages).
  - rewrite scan_page_spec.
    assert (Hlinks : concat (page_links <$> fetched_pages events) = page_links (soup r)).
    { rewrite Hpages. cbn. by rewrite app_nil_r. }
    destruct (page_raises (soup r)) eqn:Hraises.
    { exists events. cbn. rewrite Hlinks, Hpages. cbn. by rewrite Hraises. }
    destruct (negb (negb _)); [|destruct (negb _)]; cbn.
    + exists events. rewrite Hlinks, Hpages. cbn. by rewrite Hraises.
    + exists events. rewrite Hlinks, Hpages. cbn. by rewrite Hraises.
    + exists (events ++ [ESleep DELAY_BETWEEN_PAGES]).
      rewrite fetched_pages_app, app_nil_r, Hlinks, Hlog, <- app_assoc, Hpages.
      cbn. by rewrite Hraises.
  - exists events. rewrite Hpages. cbn. by rewrite app_nil_r.
Qed.

(** A crawl that ends has collected the first link of each filename among
    the links of the pages fetched; it raises exactly when [urljoin] raised
    on one of these pages, the last one. *)
Lemma crawl_spec self fuel : ∀ links page_num w result w',
  crawl unicode_decimal urljoin fuel self links page_num w = (Some result, w') →
  ∃ events,
    log w' = log w ++ events ∧
    match result with
    | Returned bulletin_links =>
        bulletin_links =
          links ++ first_seen links.*1 (concat (page_links <$> fetched_pages events)) ∧
        existsb page_raises (fetched_pages events) = false
    | Raised => existsb page_raises (fetched_pages events) = true
    end.
Proof.
  induction fuel as [|fuel IH]; intros links page_num w result w'; cbn [crawl].
  - destruct (below _ _); [done|]. intros [= <- <-].
    exists []. by rewrite !app_nil_r.
  - destruct (below _ _); [|intros [= <- <-]; exists []; by rewrite !app_nil_r].
    destruct (crawl_page_spec self links page_num w) as (events & Hlog & Hlinks & Hraised).
    destruct (crawl_page unicode_decimal urljoin self links page_num w)
      as [l1 w1 | l1 w1 | l1 w1]; cbn in Hlog, Hlinks, Hraised.
    + intros [= <- <-]. by exists events.
    + intros Hrun. apply IH in Hrun as (events' & Hlog' & Hres).
      exists (events ++ events'). split.
      * by rewrite Hlog', Hlog, <- app_assoc.
      * rewrite fetched_pages_app, existsb_app, <- Hraised. cbn [orb].
        destruct result as [bulletin_links|]; [|done].
        destruct Hres as [-> Hno]. split; [|done]. rewrite Hlinks.
        rewrite (fmap_app page_links), concat_app, first_seen_app.
        rewrite (fmap_app fst), <- app_assoc. done.
    + intros [= <- <-]. by exists events.
Qed.

(** A bounded crawl ends within [max_pages] iterations. *)
Lemma crawl_bounded self n fuel : ∀ links page_num w,
  max_pages self = Pages n → n - page_num <= Z.of_nat fuel →
  is_Some (crawl unicode_decimal urljoin fuel self links page_num w).1.
Proof.
  induction fuel as [|fuel IH]; intros links page_num w Hmax Hfuel; cbn [crawl];
    rewrite Hmax; cbn [below].
  - rewrite (proj2 (Z.ltb_ge _ _)) by lia. by eexists.
  - destruct (page_num <? n) eqn:Hlt; [|by eexists].
    destruct (crawl_page _ _ _ _ _ _); [by eexists | | by eexists].
    apply IH; [done | lia].
Qed.

(** The pages on which no [urljoin] raised: their links are the links of
    all their accepted anchors. *)
Lemma page_links_all (pages : list Html.Soup) :
  existsb page_raises pages = false →
  ∀ page, page ∈ pages → resolve <$> bulletin_hrefs page = Some <$> page_links page.
Proof.
  intros Hno page Hpage. apply resolved_all.
  destruct (existsb _ (bulletin_hrefs page)) eqn:Hraises; [|done].
  assert (Hsome : existsb page_raises pages = true); [|congruence].
  apply existsb_exists. exists page. split; [by apply list_elem_of_In | done].
Qed.

(** C3. Every iteration of the page loop keeps the filenames of the
    accumulator distinct, also the one that raises.  The list a crawl
    returns has distinct filenames and is exactly the first link of each
    filename among the links of the pages fetched, in the order they were
    met: every accepted anchor of these pages has its link among them, and
    the list is a subsequence of these links and holds every filename
    among them.  A crawl bounded by [max_pages] does end. *)
Theorem get_document_links_unique (self : Scraper) (w : World) :
  (∀ links page_num w0,
     NoDup links.*1 →
     NoDup (step_links (crawl_page unicode_decimal urljoin self links page_num w0)).*1) ∧
  (∀ fuel result w',
     get_document_links unicode_decimal urljoin fuel self w = (Some (Returned result), w') →
     NoDup result.*1 ∧
     ∃ events,
       log w' = log w ++ events ∧
       (∀ page, page ∈ fetched_pages events →
                resolve <$> bulletin_hrefs page = Some <$> page_links page) ∧
       let found := concat (page_links <$> fetched_pages events) in
       result = first_seen [] found ∧
       result `sublist_of` found ∧
       (∀ l, l ∈ found → l.1 ∈ result.*1)) ∧
  (∀ n, max_pages self = Pages n →
     is_Some (get_document_links unicode_decimal urljoin (Z.to_nat n) self w).1).
Proof.
  split_and!.
  - intros links page_num w0 Hnodup.
    destruct (crawl_page_spec self links page_num w0) as (events & _ & -> & _).
    rewrite fmap_app. by apply first_seen_NoDup.
  - intros fuel result w' Hrun. unfold get_document_links in Hrun.
    apply crawl_spec in Hrun as (events & Hlog & -> & Hno). cbn. split.
    + apply (first_seen_NoDup _ []). constructor.
    + exists events.
      split_and!; [done | by apply page_links_all | done | apply first_seen_sublist |].
      intros l Hl. by apply (first_seen_covers _ []).
  - intros n Hmax. unfold get_document_links. apply (crawl_bounded self n); [done | lia].
Qed.

(** C4. A page that arrives but whose bulletin links all carry filenames
    already collected ends the crawl: the accumulator is returned as it
    was (or the crawl raises, when [urljoin] raises on an anchor of the
    page), and the world is the one the request for that page left, so no
    later page is requested, whatever the pagination block of the page
    says. *)
Theorem zero_new_links_stops (self : Scraper) (fuel : nat) (links : list Link)
    (page_num : Z) (w w1 : World) (r : Response) :
  below page_num (max_pages self) = true →
  make_request self (page_url page_num) false w = (Some r, w1) →
  (∀ l, l ∈ page_links (soup r) → l.1 ∈ links.*1) →
  crawl unicode_decimal urljoin (S fuel) self links page_num w =
    (Some (if page_raises (soup r) then Raised else Returned links), w1).
Proof.
  intros Hbelow Hreq Hseen. cbn [crawl]. rewrite Hbelow.
  unfold crawl_page. rewrite Hreq, scan_page_spec.
  rewrite (first_seen_nil _ _ Hseen), app_nil_r.
  by destruct (page_raises (soup r)).
Qed.

(** C10. With [limit = 0] the remote listing is the whole crawl under the
    scraper's own page limit, without truncation, and the check reports
    against that whole list. *)
Theorem limit_zero_returns_all (self : Scraper) (fuel : nat) (w : World) :
  get_remote_bulletins unicode_decimal urljoin fuel self (Some 0) w =
    get_document_links unicode_decimal urljoin fuel self w ∧
  (check_for_new_bulletins unicode_decimal urljoin fuel self (Some 0) w).2 =
    (get_document_links unicode_decimal urljoin fuel self w).2 ∧
  returned total_remote_checked
      (check_for_new_bulletins unicode_decimal urljoin fuel self (Some 0) w).1 =
    returned length (get_document_links unicode_decimal urljoin fuel self w).1 ∧
  returned new_bulletins
      (check_for_new_bulletins unicode_decimal urljoin fuel self (Some 0) w).1 =
    returned (List.filter (λ l : Link, bool_decide (Some l.1 ∉ get_local_bulletins w)))
      (get_document_links unicode_decimal urljoin fuel self w).1.
Proof.
  assert (Hremote : get_remote_bulletins unicode_decimal urljoin fuel self (Some 0) w =
                    get_document_links unicode_decimal urljoin fuel self w).
  { unfold get_remote_bulletins. cbn.
    by destruct (get_document_links unicode_decimal urljoin fuel self w). }
  split; [done|]. unfold check_for_new_bulletins. rewrite Hremote.
  destruct (get_document_links unicode_decimal urljoin fuel self w)
    as [[[remote|]|] w']; by cbn.
Qed.

End Collector.

(** A sample site: two listing pages with the same two bulletins, each with
    a [Next] link. *)

(** The text of code points below 256. *)
Definition ascii_text (h : list N) : string :=
  String.string_of_list_ascii (ascii_of_N <$> h).

(** A join for absolute paths on the bare host; like [urljoin] it raises
    on a bracket that opens the host part. *)
Definition sample_urljoin (base : string) (h : list N) : option string :=
  if bool_decide (take 3 h = href "//[") then None else Some (base +:+ ascii_text h).

Definition listing : Html.Soup :=
  {| Html.hrefs := [href "/pub/irs-irbs/irb2024-02.pdf"; href "/forms";
                    href "/pub/irs-irbs/irb2024-01.pdf";
                    href "/pub/irs-irbs/irb2024-02.pdf"];
     Html.pagination :=
       Some {| Html.next_items := [Some "Next"]; Html.pager_links := ["1"; "2"; "Next"] |} |}.

Definition site_net (history : list Event) (url : string) : Attempt :=
  if decide (url = BASE_URL) then answer 200 listing
  else if decide (url = page_url 1) then answer 200 listing
  else answer 404 empty_page.

Definition site_links : list Link :=
  [("irb2024-02.pdf", "https://www.irs.gov/pub/irs-irbs/irb2024-02.pdf");
   ("irb2024-01.pdf", "https://www.irs.gov/pub/irs-irbs/irb2024-01.pdf")].

Example page_links_listing : page_links sample_decimal sample_urljoin listing =
  site_links ++ [("irb2024-02.pdf", "https://www.irs.gov/pub/irs-irbs/irb2024-02.pdf")].
Proof. reflexivity. Qed.

(** The second page repeats the first: the crawl stops there although it
    has a [Next] link, after two requests. *)
Example crawl_sample_site :
  let '(result, w') :=
    get_document_links sample_decimal sample_urljoin 10 default_scraper
      (sample_world site_net ∅ None) in
  result = Some (Returned site_links) ∧
  log w' = [EGet BASE_URL false (answer 200 listing); ESleep 1;
            EGet (page_url 1) false (answer 200 listing)].
Proof. split; reflexivity. Qed.

(** A page with an anchor that the pattern accepts and [urljoin] refuses:
    the crawl raises, and the link met before is lost with it. *)
Definition broken_listing : Html.Soup :=
  {| Html.hrefs := [href "/pub/irs-irbs/irb2024-02.pdf";
                    href "//[/pub/irs-irbs/irb2024-01.pdf"];
     Html.pagination := None |}.

Example crawl_raises_sample :
  let w := sample_world (λ _ _, answer 200 broken_listing) ∅ None in
  Re.bulletin_search sample_decimal (href "//[/pub/irs-irbs/irb2024-01.pdf") = true ∧
  (get_document_links sample_decimal sample_urljoin 10 default_scraper w).1 =
    Some Raised ∧
  log (get_document_links sample_decimal sample_urljoin 10 default_scraper w).2 =
    [EGet BASE_URL false (answer 200 broken_listing)].
Proof. repeat split; reflexivity. Qed.

(** With a small limit the crawl is cut to one page and the list to a
    prefix; with limit 0 neither happens. *)
Example get_remote_bulletins_samples :
  (get_remote_bulletins sample_decimal sample_urljoin 10 default_scraper (Some 1)
     (sample_world site_net ∅ None)).1 = Some (Returned (take 1 site_links)) ∧
  length (log (get_remote_bulletins sample_decimal sample_urljoin 10 default_scraper (Some 1)
                 (sample_world site_net ∅ None)).2) = 2%nat ∧
  (get_remote_bulletins sample_decimal sample_urljoin 10 default_scraper (Some 0)
     (sample_world site_net ∅ None)).1 = Some (Returned site_links) ∧
  length (log (get_remote_bulletins sample_decimal sample_urljoin 10 default_scraper (Some 0)
                 (sample_world site_net ∅ None)).2) = 3%nat.
Proof. repeat split; reflexivity. Qed.

Lemma get_document_links_unique_witness :
  get_document_links sample_decimal sample_urljoin 10 default_scraper
      (sample_world site_net ∅ None) =
    (Some (Returned site_links),
     (get_document_links sample_decimal sample_urljoin 10 default_scraper
        (sample_world site_net ∅ None)).2) ∧
  NoDup site_links.*1.
Proof.
  assert (Hrun :
    get_document_links sample_decimal sample_urljoin 10 default_scraper
      (sample_world site_net ∅ None) =
    (Some (Returned site_links),
     (get_document_links sample_decimal sample_urljoin 10 default_scraper
        (sample_world site_net ∅ None)).2))
    by reflexivity.
  split; [exact Hrun|].
  exact (proj1 (proj1 (proj2 (get_document_links_unique sample_decimal sample_urljoin
                                default_scraper (sample_world site_net ∅ None))) _ _ _ Hrun)).
Defined.

Lemma zero_new_links_stops_witness :
  let w := sample_world site_net ∅ None in
  let r := {| status_code := 200; soup := listing; body := []; body_fails := false |} in
  _has_next_page listing = true ∧
  crawl sample_decimal sample_urljoin 1 default_scraper site_links 1 w =
    (Some (Returned site_links), record (EGet (page_url 1) false (Answer r)) w).
Proof.
  intros w r. split; [reflexivity|].
  apply (zero_new_links_stops sample_decimal sample_urljoin default_scraper 0
           site_links 1 w _ r).
  - reflexivity.
  - reflexivity.
  - apply Forall_forall. change (soup r) with listing.
    rewrite page_links_listing. repeat constructor.
Defined.

(** ** Ledger *)

Section LedgerFacts.

(** Every entry can be written: its key is a [str] and its dictionary has
    no key outside the header. *)
Definition writable (m : Ledger) : Prop :=
  ∀ key e, m !! key = Some e → is_Some key ∧ is_Some (dict_to_list e).

(** The fields an entry is written with. *)
Definition fields (e : Entry) : list string := default [] (dict_to_list e).

(** An entry as it is read back from the record it was written as. *)
Definition read_back (e : Entry) : Entry :=
  Loaded (Csv.read_row CSV_FIELDNAMES (fields e)).

(** The last of the new results that carries a filename. *)
Definition last_result (name : string) (results : list Outcome) : option Outcome :=
  last (List.filter (λ o, bool_decide (file_name o = name)) results).

(** The value an entry holds under [file_name]. *)
Definition entry_name (e : Entry) : option (option string) :=
  match e with
  | Loaded row => Csv.cells row !! "file_name"
  | Result o => Some (Some (file_name o))
  end.

(** Every entry sits under the key its [file_name] gives. *)
Definition keyed (m : Ledger) : Prop :=
  ∀ key e, m !! key = Some e → entry_name e = Some key.

(** The filenames of a ledger. *)
Definition names (m : Ledger) : list string := omap id (map_to_list m).*1.

(** The records of a ledger in the order they are written. *)
Definition ledger_rows (m : Ledger) : list (list string) :=
  (λ name, from_option fields [] (m !! Some name)) <$> merge_sort String.le (names m).

Lemma foldl_insert_lookup {A} (f : A → option string) (g : A → Entry) (l : list A) :
  ∀ (acc : Ledger) key,
    foldl (λ m x, <[f x := g x]> m) acc l !! key =
    match last (List.filter (λ x, bool_decide (f x = key)) l) with
    | Some x => Some (g x)
    | None => acc !! key
    end.
Proof.
  induction l as [|x l IH] using rev_ind; intros acc key; [done|].
  rewrite foldl_app, List.filter_app. cbn. case_bool_decide as Hkey.
  - rewrite last_snoc, Hkey. apply lookup_insert_eq.
  - rewrite app_nil_r, lookup_insert_ne by done. apply IH.
Qed.

Lemma foldl_insert_lookup_Some {A} (f : A → option string) (g : A → Entry) (l : list A)
    (acc : Ledger) x :
  x ∈ l → (∀ y, y ∈ l → f y = f x → g y = g x) →
  foldl (λ m y, <[f y := g y]> m) acc l !! f x = Some (g x).
Proof.
  induction l as [|y l IH] using rev_ind; intros Hx Hsame; [by apply elem_of_nil in Hx|].
  rewrite foldl_app. cbn. destruct (decide (f y = f x)) as [Heq|Hne].
  - rewrite Heq, lookup_insert_eq. f_equal. apply Hsame; [|done].
    apply elem_of_app. right. by apply list_elem_of_singleton.
  - rewrite lookup_insert_ne by done. apply IH.
    + apply elem_of_app in Hx as [Hx | Hx]; [done|].
      apply list_elem_of_singleton in Hx. by subst.
    + intros z Hz. apply Hsame, elem_of_app. by left.
Qed.

Lemma foldl_insert_lookup_None {A} (f : A → option string) (g : A → Entry) (l : list A)
    (acc : Ledger) key :
  (∀ y, y ∈ l → f y ≠ key) →
  foldl (λ m y, <[f y := g y]> m) acc l !! key = acc !! key.
Proof.
  intros Hne. rewrite foldl_insert_lookup.
  destruct (last _) as [x|] eqn:Hlast; [|done].
  apply last_Some_elem_of, list_elem_of_In, List.filter_In in Hlast as [Hx Hkey].
  apply bool_decide_eq_true in Hkey. apply list_elem_of_In in Hx.
  by destruct (Hne x Hx).
Qed.

(** *** Merging the new results *)

Lemma merge_results_lookup prior results name :
  merge_results prior results !! Some name =
  match last_result name results with
  | Some o => Some (Result o)
  | None => prior !! Some name
  end.
Proof.
  unfold merge_results, last_result.
  rewrite (foldl_insert_lookup (λ o, Some (file_name o)) Result).
  assert (Hfilter : ∀ l : list Outcome,
    List.filter (λ o, bool_decide (Some (file_name o) = Some name)) l =
    List.filter (λ o, bool_decide (file_name o = name)) l).
  { intros l. apply List.filter_ext. intros o. apply bool_decide_ext. naive_solver. }
  by rewrite Hfilter.
Qed.

Lemma merge_results_lookup_None prior results :
  merge_results prior results !! None = prior !! None.
Proof.
  unfold merge_results.
  by apply (foldl_insert_lookup_None (λ o, Some (file_name o)) Result).
Qed.

Lemma merge_results_snoc prior results o :
  merge_results prior (results ++ [o]) =
  <[Some (file_name o) := Result o]> (merge_results prior results).
Proof. unfold merge_results. by rewrite foldl_app. Qed.

Lemma merge_results_elem prior results key e :
  merge_results prior results !! key = Some e →
  prior !! key = Some e ∨ ∃ o, o ∈ results ∧ key = Some (file_name o) ∧ e = Result o.
Proof.
  induction results as [|o results IH] using rev_ind; [by left|].
  rewrite merge_results_snoc. destruct (decide (Some (file_name o) = key)) as [<-|Hne].
  - rewrite lookup_insert_eq. intros [= <-]. right. exists o.
    split; [|done]. apply elem_of_app. right. by apply list_elem_of_singleton.
  - rewrite lookup_insert_ne by done. intros H. apply IH in H as [H | (o' & Ho' & H)].
    + by left.
    + right. exists o'. split; [|done]. apply elem_of_app. by left.
Qed.

Lemma merge_results_dom prior results key :
  is_Some (merge_results prior results !! key) ↔
  is_Some (prior !! key) ∨ ∃ o, o ∈ results ∧ key = Some (file_name o).
Proof.
  induction results as [|o results IH] using rev_ind.
  - split; [by left|]. intros [H | (o & Ho & _)]; [done | by apply elem_of_nil in Ho].
  - rewrite merge_results_snoc. destruct (decide (Some (file_name o) = key)) as [<-|Hne].
    + rewrite lookup_insert_eq. split; [|by eexists]. intros _. right. exists o.
      split; [|done]. apply elem_of_app. right. by apply list_elem_of_singleton.
    + rewrite lookup_insert_ne, IH by done. split.
      * intros [H | (o' & Ho' & H)]; [by left|]. right. exists o'.
        split; [|done]. apply elem_of_app. by left.
      * intros [H | (o' & Ho' & H)]; [by left|]. right. exists o'.
        split; [|done]. apply elem_of_app in Ho' as [Ho' | Ho']; [done|].
        apply list_elem_of_singleton in Ho'. subst. done.
Qed.

Lemma dict_to_list_result o : is_Some (dict_to_list (Result o)).
Proof. by eexists. Qed.

Lemma merge_results_writable prior results :
  writable prior → writable (merge_results prior results).
Proof.
  intros Hprior key e He. apply merge_results_elem in He as [He | (o & _ & -> & ->)].
  - by apply (Hprior key e).
  - split; [by eexists | apply dict_to_list_result].
Qed.

Lemma merge_results_keyed prior results :
  keyed prior → keyed (merge_results prior results).
Proof.
  intros Hprior key e He. apply merge_results_elem in He as [He | (o & _ & -> & ->)].
  - by apply Hprior.
  - done.
Qed.

(** *** Reading the ledger *)

Lemma load_rows_keyed rows : ∀ acc, keyed acc → keyed (load_rows acc rows).
Proof.
  induction rows as [|row rows IH]; intros acc Hacc; cbn; [done|].
  destruct (Csv.cells row !! "file_name") as [key|] eqn:Hkey; [|done].
  apply IH. intros key' e. destruct (decide (key = key')) as [<-|Hne].
  - rewrite lookup_insert_eq. by intros [= <-].
  - rewrite lookup_insert_ne by done. apply Hacc.
Qed.

Lemma get_existing_files_keyed f : keyed (get_existing_files f).
Proof.
  destruct f as [table|]; cbn; [|by intros ??; rewrite lookup_empty].
  apply load_rows_keyed. by intros ??; rewrite lookup_empty.
Qed.

Lemma read_row_written a b c d :
  Csv.cells (Csv.read_row CSV_FIELDNAMES [a; b; c; d]) !! "file_name" = Some (Some a) ∧
  dict_to_list (Loaded (Csv.read_row CSV_FIELDNAMES [a; b; c; d])) = Some [a; b; c; d].
Proof. split; vm_compute; reflexivity. Qed.

Lemma length_four (row : list string) :
  length row = 4%nat → ∃ a b c d, row = [a; b; c; d].
Proof. destruct row as [|a [|b [|c [|d [|? ?]]]]]; try done. intros _. by exists a, b, c, d. Qed.

Lemma load_rows_written rows : ∀ acc,
  Forall (λ row, length row = 4%nat) rows →
  load_rows acc (Csv.read_row CSV_FIELDNAMES <$> rows) =
  foldl (λ m row, <[Some (List.hd "" row) := Loaded (Csv.read_row CSV_FIELDNAMES row)]> m)
    acc rows.
Proof.
  induction rows as [|row rows IH]; intros acc Hlen; [done|].
  apply Forall_cons in Hlen as [Hrow Hrows].
  destruct (length_four row Hrow) as (a & b & c & d & ->).
  cbn [fmap list_fmap load_rows foldl]. rewrite (proj1 (read_row_written a b c d)).
  by apply IH.
Qed.

Lemma filter_not_blank rows :
  Forall (λ row, length row = 4%nat) rows →
  List.filter (λ r, negb (Csv.is_blank r)) rows = rows.
Proof.
  induction 1 as [|row rows Hrow _ IH]; [done|].
  cbn. destruct row; [done|]. cbn. by rewrite IH.
Qed.

Lemma get_existing_files_written rows :
  Forall (λ row, length row = 4%nat) rows →
  get_existing_files (Some (CSV_FIELDNAMES :: rows)) =
  foldl (λ m row, <[Some (List.hd "" row) := Loaded (Csv.read_row CSV_FIELDNAMES row)]> m)
    ∅ rows.
Proof.
  intros Hlen. unfold get_existing_files, Csv.DictReader.
  rewrite filter_not_blank by done. by apply load_rows_written.
Qed.

(** *** What an entry is written as *)

Lemma fields_shape e name :
  entry_name e = Some (Some name) → is_Some (dict_to_list e) →
  ∃ b c d, dict_to_list e = Some [name; b; c; d].
Proof.
  destruct e as [row|o]; cbn.
  - intros Hname. destruct (Csv.rest row); [by intros [? ?]|].
    destruct (forallb _ _); [|by intros [? ?]]. intros _.
    rewrite Hname. cbn. by eexists _, _, _.
  - intros [= <-] _. by eexists _, _, _.
Qed.

Lemma fields_read_back e name :
  entry_name e = Some (Some name) → is_Some (dict_to_list e) →
  dict_to_list (read_back e) = Some (fields e) ∧
  entry_name (read_back e) = Some (Some name).
Proof.
  intros Hname Hw. destruct (fields_shape e name Hname Hw) as (b & c & d & Hrow).
  unfold read_back, fields. rewrite Hrow.
  split; [exact (proj2 (read_row_written name b c d))
         | exact (proj1 (read_row_written name b c d))].
Qed.

(** *** Writing the ledger *)

Lemma names_elem (m : Ledger) name : name ∈ names m ↔ is_Some (m !! Some name).
Proof.
  unfold names. rewrite list_elem_of_omap. split.
  - intros (key & Hkey & [= ->]). apply list_elem_of_fmap in Hkey as ([k e] & -> & He).
    apply elem_of_map_to_list in He. by eexists.
  - intros [e He]. exists (Some name). split; [|done].
    apply list_elem_of_fmap. exists (Some name, e). split; [done|].
    by apply elem_of_map_to_list.
Qed.

Lemma NoDup_omap_id {A} (l : list (option A)) : NoDup l → NoDup (omap id l).
Proof.
  induction 1 as [|x l Hx _ IH]; cbn; [constructor|].
  destruct x as [a|]; cbn; [|done]. constructor; [|done].
  rewrite list_elem_of_omap. intros (y & Hy & [= ->]). done.
Qed.

Lemma names_NoDup (m : Ledger) : NoDup (names m).
Proof. apply NoDup_omap_id, NoDup_fst_map_to_list. Qed.

Lemma keys_names (m : Ledger) : writable m → (map_to_list m).*1 = Some <$> names m.
Proof.
  intros Hw. unfold names.
  assert (Hall : Forall is_Some (map_to_list m).*1).
  { apply Forall_forall. intros key Hkey.
    apply list_elem_of_fmap in Hkey as ([k e] & -> & He).
    apply elem_of_map_to_list in He. by apply (Hw k e). }
  induction Hall as [|key keys [name ->] _ IH]; cbn; [done|]. by rewrite <- IH.
Qed.

Lemma mapM_id_Some (l : list string) : mapM id (Some <$> l) = Some l.
Proof. induction l as [|x l IH]; cbn; [done|]. by rewrite IH. Qed.

Lemma sorted_names (l : list string) :
  sorted (Some <$> l) = Some (Some <$> merge_sort String.le l).
Proof.
  destruct l as [|a [|b l]]; [done | done |].
  unfold sorted. change (Some <$> a :: b :: l) with (Some a :: Some b :: (Some <$> l)).
  cbv iota. change (Some a :: Some b :: (Some <$> l)) with (Some <$> a :: b :: l).
  by rewrite mapM_id_Some.
Qed.

Lemma write_rows_spec (m : Ledger) keys : ∀ written,
  (∀ key, key ∈ keys → is_Some (m !! key ≫= dict_to_list)) →
  write_rows m keys written = written ++ ((λ key, from_option fields [] (m !! key)) <$> keys).
Proof.
  induction keys as [|key keys IH]; intros written Hall; cbn.
  - by rewrite app_nil_r.
  - destruct (Hall key) as [row Hrow]; [by left|]. rewrite Hrow.
    rewrite IH by (intros k Hk; apply Hall; by right).
    rewrite <- app_assoc. cbn. do 2 f_equal.
    destruct (m !! key) as [e|]; [|done]. cbn in *. unfold fields. by rewrite Hrow.
Qed.

Lemma merge_sort_names_elem (m : Ledger) name :
  name ∈ merge_sort String.le (names m) ↔ is_Some (m !! Some name).
Proof. by rewrite merge_sort_Permutation, names_elem. Qed.

(** A ledger that cannot be opened for writing stays as it was. *)
Lemma create_csv_summary_locked f results : create_csv_summary OpenFails f results = f.
Proof. done. Qed.

(** When the merged dictionary can be written, the whole of it is sent to
    the writer. *)
Lemma summary_rows_saved (m : Ledger) :
  writable m → summary_rows m = CSV_FIELDNAMES :: ledger_rows m.
Proof.
  intros Hm. unfold summary_rows.
  rewrite (keys_names m Hm), sorted_names.
  rewrite write_rows_spec.
  - unfold ledger_rows. by rewrite <- list_fmap_compose.
  - intros key Hkey. apply list_elem_of_fmap in Hkey as (name & -> & Hname).
    apply merge_sort_names_elem in Hname as [e He]. rewrite He. cbn.
    by apply (Hm (Some name) e).
Qed.

(** And when nothing fails, the whole of it reaches the file. *)
Lemma create_csv_summary_saved f results :
  writable (merge_results (get_existing_files f) results) →
  create_csv_summary NoFault f results =
  Some (CSV_FIELDNAMES :: ledger_rows (merge_results (get_existing_files f) results)).
Proof. intros Hm. unfold create_csv_summary. by rewrite summary_rows_saved. Qed.

(** So it is with a writable prior ledger. *)
Lemma create_csv_summary_written f results :
  writable (get_existing_files f) →
  create_csv_summary NoFault f results =
  Some (CSV_FIELDNAMES :: ledger_rows (merge_results (get_existing_files f) results)).
Proof. intros Hprior. by apply create_csv_summary_saved, merge_results_writable. Qed.

Lemma row_shape (m : Ledger) name :
  writable m → keyed m → is_Some (m !! Some name) →
  ∃ e b c d, m !! Some name = Some e ∧ fields e = [name; b; c; d].
Proof.
  intros Hw Hk [e He]. destruct (Hw _ _ He) as [_ Hrow].
  destruct (fields_shape e name (Hk _ _ He) Hrow) as (b & c & d & Hfields).
  exists e, b, c, d. split; [done|]. unfold fields. by rewrite Hfields.
Qed.

Lemma ledger_rows_elem (m : Ledger) row :
  row ∈ ledger_rows m ↔ ∃ name e, m !! Some name = Some e ∧ row = fields e.
Proof.
  unfold ledger_rows. rewrite list_elem_of_fmap. split.
  - intros (name & -> & Hname). apply merge_sort_names_elem in Hname as [e He].
    exists name, e. by rewrite He.
  - intros (name & e & He & ->). exists name. rewrite He. split; [done|].
    apply merge_sort_names_elem. by eexists.
Qed.

Lemma ledger_rows_hd (m : Ledger) :
  writable m → keyed m →
  List.hd "" <$> ledger_rows m = merge_sort String.le (names m).
Proof.
  intros Hw Hk. unfold ledger_rows. rewrite <- list_fmap_compose.
  rewrite <- (list_fmap_id (merge_sort String.le (names m))) at 2.
  apply Forall_fmap_ext, Forall_forall. intros name Hname.
  apply merge_sort_names_elem in Hname.
  destruct (row_shape m name Hw Hk Hname) as (e & b & c & d & He & Hfields).
  unfold compose. rewrite He. cbn [from_option]. by rewrite Hfields.
Qed.

Lemma ledger_rows_length (m : Ledger) :
  writable m → keyed m → Forall (λ row, length row = 4%nat) (ledger_rows m).
Proof.
  intros Hw Hk. apply Forall_forall. intros row Hrow.
  apply ledger_rows_elem in Hrow as (name & e & He & ->).
  destruct (row_shape m name Hw Hk) as (e' & b & c & d & He' & Hfields); [by eexists|].
  rewrite He in He'. injection He' as <-. by rewrite Hfields.
Qed.

(** Reading the written file back gives every entry as it was written. *)
Lemma get_existing_files_ledger_rows (m : Ledger) :
  writable m → keyed m →
  get_existing_files (Some (CSV_FIELDNAMES :: ledger_rows m)) = read_back <$> m.
Proof.
  intros Hw Hk. rewrite get_existing_files_written by by apply ledger_rows_length.
  apply map_eq. intros key. rewrite lookup_fmap.
  destruct (m !! key) as [e|] eqn:He; cbn.
  - destruct (Hw _ _ He) as [[name ->] _].
    destruct (row_shape m name Hw Hk) as (e' & b & c & d & He' & Hfields); [by eexists|].
    rewrite He in He'. injection He' as <-.
    assert (Hhd : Some name = Some (List.hd "" (fields e))) by by rewrite Hfields.
    rewrite Hhd.
    apply (foldl_insert_lookup_Some (λ row, Some (List.hd "" row))
             (λ row, Loaded (Csv.read_row CSV_FIELDNAMES row))).
    + apply ledger_rows_elem. by exists name, e.
    + intros row Hrow Hsame. apply ledger_rows_elem in Hrow as (name' & e' & He' & ->).
      destruct (row_shape m name' Hw Hk) as (e2 & b' & c' & d' & He2 & Hfields');
        [by eexists|].
      rewrite He' in He2. injection He2 as <-.
      rewrite Hfields, Hfields' in Hsame. cbn in Hsame. injection Hsame as ->.
      rewrite He in He'. by injection He' as <-.
  - rewrite (foldl_insert_lookup_None (λ row, Some (List.hd "" row))); [done|].
    intros row Hrow Hsame. apply ledger_rows_elem in Hrow as (name' & e' & He' & ->).
    destruct (row_shape m name' Hw Hk) as (e2 & b' & c' & d' & He2 & Hfields');
      [by eexists|].
    rewrite He' in He2. injection He2 as <-.
    rewrite Hfields' in Hsame. cbn in Hsame. subst key. congruence.
Qed.

Lemma read_back_writable (m : Ledger) :
  writable m → keyed m → writable (read_back <$> m) ∧ keyed (read_back <$> m).
Proof.
  intros Hw Hk. split; intros key e'; rewrite lookup_fmap;
    destruct (m !! key) as [e|] eqn:He; cbn; try done; intros [= <-];
    destruct (Hw _ _ He) as [[name ->] Hrow];
    destruct (fields_read_back e name (Hk _ _ He) Hrow) as [Hfields Hname].
  - split; [by eexists | by rewrite Hfields].
  - done.
Qed.

Lemma merge_sort_Permutation_eq (l1 l2 : list string) :
  l1 ≡ₚ l2 → merge_sort String.le l1 = merge_sort String.le l2.
Proof.
  intros Hperm. apply (Sorted_unique String.le); try apply Sorted_merge_sort; try apply _.
  by rewrite !merge_sort_Permutation.
Qed.

Lemma ledger_rows_ext (m1 m2 : Ledger) :
  (∀ name, is_Some (m1 !! Some name) ↔ is_Some (m2 !! Some name)) →
  (∀ name, from_option fields [] (m1 !! Some name) = from_option fields [] (m2 !! Some name)) →
  ledger_rows m1 = ledger_rows m2.
Proof.
  intros Hdom Hrows. unfold ledger_rows.
  rewrite (merge_sort_Permutation_eq (names m1) (names m2)).
  - apply list_fmap_ext. intros _ name _. apply Hrows.
  - apply NoDup_Permutation; try apply names_NoDup.
    intros name. by rewrite !names_elem.
Qed.

Lemma foldl_insert_elem {A} (f : A → option string) (g : A → Entry) (l : list A)
    (acc : Ledger) key e :
  foldl (λ m y, <[f y := g y]> m) acc l !! key = Some e →
  acc !! key = Some e ∨ ∃ x, x ∈ l ∧ f x = key ∧ g x = e.
Proof.
  rewrite foldl_insert_lookup.
  destruct (last _) as [x|] eqn:Hlast; [|by left].
  intros [= <-]. right. exists x.
  apply last_Some_elem_of, list_elem_of_In, List.filter_In in Hlast as [Hx Hkey].
  apply bool_decide_eq_true in Hkey. by apply list_elem_of_In in Hx.
Qed.

(** A file with the fixed header and four fields in every record, such as
    the save writes, can be written back; so can a missing file. *)
Lemma writable_written rows :
  Forall (λ row, length row = 4%nat) rows →
  writable (get_existing_files (Some (CSV_FIELDNAMES :: rows))).
Proof.
  intros Hlen key e. rewrite get_existing_files_written by done.
  intros [He | (row & Hrow & <- & <-)]%foldl_insert_elem;
    [by rewrite lookup_empty in He|].
  rewrite Forall_forall in Hlen.
  destruct (length_four row (Hlen row Hrow)) as (a & b & c & d & ->).
  split; [by eexists|]. rewrite (proj2 (read_row_written a b c d)). by eexists.
Qed.

Lemma writable_missing : writable (get_existing_files None).
Proof. intros key e. cbn. by rewrite lookup_empty. Qed.

(** *** Saving *)

(** C1, amended. Take a prior ledger and new results whose merged
    dictionary can be written: every record has a file name and no column
    outside the fixed header.  So it is whenever the prior ledger can be
    written back ([merge_results_writable]), as a missing file
    ([writable_missing]) and every file the save itself wrote
    ([writable_written]).
    The save sends to the writer the fixed header and one record per
    filename of the prior ledger and of the new results, in ascending
    filename order; each record is the one of the last new result with
    that filename, or else the prior one; and reading these records back
    gives exactly these entries.  When the file system raises no error
    the file holds these records.  When the ledger file cannot be opened
    for writing, the save leaves it as it was; when a write fails, the
    file holds what had reached it of these records.  In both cases the
    error is logged and the save returns. *)
Theorem create_csv_summary_merges (fault : Fault) (f : LedgerFile)
    (results : list Outcome) :
  let merged := merge_results (get_existing_files f) results in
  writable merged →
  ∃ rows,
    create_csv_summary fault f results =
      match fault with
      | NoFault => Some (CSV_FIELDNAMES :: rows)
      | OpenFails => f
      | WriteFails kept => Some (kept (CSV_FIELDNAMES :: rows))
      end ∧
    Sorted String.le (List.hd "" <$> rows) ∧
    NoDup (List.hd "" <$> rows) ∧
    (∀ name, name ∈ List.hd "" <$> rows ↔
             is_Some (get_existing_files f !! Some name) ∨ name ∈ file_name <$> results) ∧
    (∀ row, row ∈ rows ↔ ∃ name e, merged !! Some name = Some e ∧ row = fields e) ∧
    (∀ name, merged !! Some name =
             match last_result name results with
             | Some o => Some (Result o)
             | None => get_existing_files f !! Some name
             end) ∧
    get_existing_files (Some (CSV_FIELDNAMES :: rows)) = read_back <$> merged.
Proof.
  intros merged Hw.
  assert (Hk : keyed merged) by apply merge_results_keyed, get_existing_files_keyed.
  exists (ledger_rows merged). split_and!.
  - rewrite <- (summary_rows_saved merged Hw). by destruct fault.
  - rewrite ledger_rows_hd by done. apply Sorted_merge_sort. apply _.
  - rewrite ledger_rows_hd by done. rewrite merge_sort_Permutation. apply names_NoDup.
  - intros name. rewrite ledger_rows_hd by done.
    rewrite merge_sort_names_elem. unfold merged. rewrite merge_results_dom.
    apply or_iff_compat_l. rewrite list_elem_of_fmap. split.
    + intros (o & Ho & [= ->]). by exists o.
    + intros (o & -> & Ho). by exists o.
  - apply ledger_rows_elem.
  - intros name. apply merge_results_lookup.
  - by apply get_existing_files_ledger_rows.
Qed.

(** C7, amended. When every record of the prior ledger can be written
    back and no write to the ledger file is cut short, saving the same
    results a second time leaves the ledger file as the first save left
    it, record for record and byte for byte, whether or not the file can
    be opened for writing. *)
Theorem create_csv_summary_idempotent (fault : Fault) (f : LedgerFile)
    (results : list Outcome) :
  writable (get_existing_files f) →
  (∀ kept, fault ≠ WriteFails kept) →
  create_csv_summary fault (create_csv_summary fault f results) results =
    create_csv_summary fault f results ∧
  ledger_text (create_csv_summary fault (create_csv_summary fault f results) results) =
    ledger_text (create_csv_summary fault f results).
Proof.
  intros Hprior Hwhole.
  assert (Hsame : create_csv_summary fault (create_csv_summary fault f results) results =
                  create_csv_summary fault f results); [|by rewrite Hsame].
  destruct fault as [| |kept]; [|done|by destruct (Hwhole kept)].
  rewrite (create_csv_summary_written f) by done.
  set (m1 := merge_results (get_existing_files f) results).
  assert (Hw : writable m1) by by apply merge_results_writable.
  assert (Hk : keyed m1) by apply merge_results_keyed, get_existing_files_keyed.
  destruct (read_back_writable m1 Hw Hk) as [Hw' Hk'].
  rewrite create_csv_summary_written;
    rewrite get_existing_files_ledger_rows by done; [|done].
  do 2 f_equal. apply ledger_rows_ext.
  - intros name. rewrite merge_results_dom, lookup_fmap, fmap_is_Some.
    unfold m1 at 1 2. rewrite !merge_results_dom. tauto.
  - intros name. rewrite merge_results_lookup, lookup_fmap.
    destruct (last_result name results) as [o|] eqn:Hlast.
    + unfold m1. by rewrite merge_results_lookup, Hlast.
    + destruct (m1 !! Some name) as [e|] eqn:He; [|done].
      change (fields (read_back e) = fields e).
      destruct (Hw _ _ He) as [_ Hrow].
      destruct (fields_read_back e name (Hk _ _ He) Hrow) as [Hfields _].
      unfold fields at 1. by rewrite Hfields.
Qed.

End LedgerFacts.

(** Sample ledgers. *)

Definition kept_ledger : LedgerFile :=
  Some [CSV_FIELDNAMES;
        ["irb2024-03.pdf"; "2.25"; "2024-01-01T00:00:00"; "downloaded"];
        ["irb2024-01.pdf"; "1.5"; "existing"; "skipped"]].

(** The same ledger with one field too many in a record. *)
Definition torn_ledger : LedgerFile :=
  Some [CSV_FIELDNAMES;
        ["irb2024-03.pdf"; "2.25"; "2024-01-01T00:00:00"; "downloaded"];
        ["irb2024-01.pdf"; "1.5"; "existing"; "skipped"; "stray"]].

Definition new_outcome : Outcome :=
  {| file_name := "irb2024-02.pdf"; file_size_mb := PFloat2 310;
     download_timestamp := "2024-01-02T03:04:05"; status := "downloaded" |}.

Example create_csv_summary_sample :
  create_csv_summary NoFault kept_ledger [new_outcome] =
  Some [CSV_FIELDNAMES;
        ["irb2024-01.pdf"; "1.5"; "existing"; "skipped"];
        ["irb2024-02.pdf"; "3.1"; "2024-01-02T03:04:05"; "downloaded"];
        ["irb2024-03.pdf"; "2.25"; "2024-01-01T00:00:00"; "downloaded"]].
Proof. vm_compute. reflexivity. Qed.

Example csv_line_sample :
  Csv.line ["irb2024-01.pdf"; "1.5"; "existing"; "skipped"] =
    "irb2024-01.pdf,1.5,existing,skipped" +:+ String "013" (String "010" "") ∧
  Csv.field "a,b" = String Csv.double_quote ("a,b" +:+ String Csv.double_quote "").
Proof. split; reflexivity. Qed.

(** The record with a stray field cannot be written: the save stops before
    it, and neither the prior records nor the new result reach the file. *)
Example create_csv_summary_torn :
  create_csv_summary NoFault torn_ledger [new_outcome] = Some [CSV_FIELDNAMES] ∧
  create_csv_summary NoFault (create_csv_summary NoFault torn_ledger [new_outcome])
      [new_outcome] =
    Some [CSV_FIELDNAMES;
          ["irb2024-02.pdf"; "3.1"; "2024-01-02T03:04:05"; "downloaded"]].
Proof. split; vm_compute; reflexivity. Qed.

(** A new result that replaces the record with the stray field makes the
    merged dictionary one that can be written. *)
Example create_csv_summary_mends :
  create_csv_summary NoFault torn_ledger
    [{| file_name := "irb2024-01.pdf"; file_size_mb := PFloat2 150;
        download_timestamp := "existing"; status := "skipped" |}] =
  Some [CSV_FIELDNAMES;
        ["irb2024-01.pdf"; "1.5"; "existing"; "skipped"];
        ["irb2024-03.pdf"; "2.25"; "2024-01-01T00:00:00"; "downloaded"]].
Proof. vm_compute. reflexivity. Qed.

(** C1 as stated fails.  After the save on the torn ledger, the reloaded
    mapping has no entry for the filename of the new result, nor for the
    prior ones.  And on a ledger that cannot be opened for writing, or
    whose writing stops after the header, the save of a new result leaves
    the file without an entry for it. *)
Lemma create_csv_summary_merges_counterexample :
  new_outcome ∈ [new_outcome] ∧
  is_Some (get_existing_files torn_ledger !! Some "irb2024-03.pdf") ∧
  get_existing_files (create_csv_summary NoFault torn_ledger [new_outcome]) = ∅ ∧
  get_existing_files (create_csv_summary OpenFails kept_ledger [new_outcome])
    !! Some "irb2024-02.pdf" = None ∧
  get_existing_files (create_csv_summary (WriteFails (take 1)) kept_ledger [new_outcome])
    !! Some "irb2024-02.pdf" = None.
Proof.
  split_and!.
  - by left.
  - vm_compute. by eexists.
  - vm_compute. reflexivity.
  - vm_compute. reflexivity.
  - vm_compute. reflexivity.
Qed.

(** C7 as stated fails: on the torn ledger the second save with the same
    results leaves a file that differs from the one the first save left. *)
Lemma create_csv_summary_idempotent_counterexample :
  ledger_text (create_csv_summary NoFault (create_csv_summary NoFault torn_ledger [new_outcome])
                 [new_outcome]) ≠
  ledger_text (create_csv_summary NoFault torn_ledger [new_outcome]).
Proof. vm_compute. discriminate. Qed.

Lemma create_csv_summary_merges_witness :
  writable (merge_results (get_existing_files kept_ledger) [new_outcome]) ∧
  ∃ rows,
    create_csv_summary NoFault kept_ledger [new_outcome] = Some (CSV_FIELDNAMES :: rows) ∧
    Sorted String.le (List.hd "" <$> rows) ∧
    get_existing_files (Some (CSV_FIELDNAMES :: rows)) =
      read_back <$> merge_results (get_existing_files kept_ledger) [new_outcome].
Proof.
  assert (Hw : writable (merge_results (get_existing_files kept_ledger) [new_outcome]))
    by (apply merge_results_writable, writable_written; repeat constructor).
  split; [exact Hw|].
  destruct (create_csv_summary_merges NoFault kept_ledger [new_outcome] Hw)
    as (rows & Hfile & Hsorted & _ & _ & _ & _ & Hreload).
  exists rows. split; [exact Hfile | split; [exact Hsorted | exact Hreload]].
Defined.

Lemma create_csv_summary_idempotent_witness :
  writable (get_existing_files kept_ledger) ∧
  ledger_text (create_csv_summary NoFault (create_csv_summary NoFault kept_ledger [new_outcome])
                 [new_outcome]) =
    ledger_text (create_csv_summary NoFault kept_ledger [new_outcome]).
Proof.
  assert (Hw : writable (get_existing_files kept_ledger))
    by (apply writable_written; repeat constructor).
  split; [exact Hw|].
  refine (proj2 (create_csv_summary_idempotent NoFault kept_ledger [new_outcome] Hw _)).
  discriminate.
Defined.

(** ** The format of a ledger record *)

(** The text up to the first point. *)
Fixpoint before_point (s : string) : string :=
  match s with
  | EmptyString => EmptyString
  | String c r => if decide (c = "."%char) then EmptyString else String c (before_point r)
  end.

(** The text after the first point, if there is one. *)
Fixpoint after_point (s : string) : option string :=
  match s with
  | EmptyString => None
  | String c r => if decide (c = "."%char) then Some r else after_point r
  end.

Definition some_digits (s : string) : bool :=
  negb (bool_decide (s = EmptyString)) && Text.all_digits s.

(** A number with exactly two decimal places. *)
Definition two_decimals (s : string) : bool :=
  some_digits (before_point s) &&
  match after_point s with
  | Some d => Text.all_digits d && bool_decide (String.length d = 2%nat)
  | None => false
  end.

(** An integer part as [str] writes it: digits without a leading zero,
    or [0] alone. *)
Definition canonical (s : string) : bool :=
  some_digits s && (bool_decide (s = "0") || negb (Bytes.startswith s "0")).

(** The decimals [str] writes for a float rounded to two places: one
    digit, or two digits the second of which is not [0]. *)
Definition decimals (d : string) : bool :=
  Text.all_digits d &&
  (bool_decide (String.length d = 1%nat) ||
   bool_decide (String.length d = 2%nat) && negb (Path.endswith d "0")).

(** A size as [str] renders it: the [int] [0] of a failed download,
    written [0]; or a [float] rounded to two places, written as its
    integer part, a point, and one or two decimals, never padded with a
    zero to two places. *)
Definition short_decimal (s : string) : bool :=
  match after_point s with
  | Some d => canonical (before_point s) && decimals d
  | None => bool_decide (s = "0")
  end.

Inductive Step :=
| Digits (k : nat)
| Char (c : ascii).

(** The rest of the text after the steps, if the text starts with them. *)
Fixpoint scan (steps : list Step) (s : string) : option string :=
  match steps with
  | [] => Some s
  | Digits k :: steps' =>
      if Text.all_digits (Bytes.take k s) && bool_decide (String.length (Bytes.take k s) = k)
      then scan steps' (Bytes.drop k s) else None
  | Char c :: steps' =>
      match s with
      | String c' r => if decide (c = c') then scan steps' r else None
      | EmptyString => None
      end
  end.

(** [YYYY-MM-DDTHH:MM:SS], optionally followed by [.ffffff]. *)
Definition is_iso8601 (s : string) : bool :=
  match scan [Digits 4; Char "-"; Digits 2; Char "-"; Digits 2; Char "T";
             Digits 2; Char ":"; Digits 2; Char ":"; Digits 2] s with
  | Some EmptyString => true
  | Some rest =>
      match scan [Char "."; Digits 6] rest with
      | Some EmptyString => true
      | _ => false
      end
  | None => false
  end.




Example format_samples :
  two_decimals "1.50" = true ∧ two_decimals "1.5" = false ∧ two_decimals "0" = false ∧
  short_decimal "1.5" = true ∧ short_decimal "0" = true ∧ short_decimal "0.0" = true ∧
  short_decimal "1234.56" = true ∧ short_decimal "10.01" = true ∧
  short_decimal "1.50" = false ∧ short_decimal "0.00" = false ∧
  short_decimal "007" = false ∧ short_decimal "7" = false ∧
  short_decimal "01.5" = false ∧ short_decimal "1." = false ∧
  short_decimal "12.345" = false ∧ short_decimal ".5" = false ∧
  is_iso8601 "2024-03-09T07:05:00" = true ∧
  is_iso8601 "2024-03-09T07:05:00.001200" = true ∧
  is_iso8601 "existing" = false ∧ is_iso8601 "2024-03-09 07:05:00" = false.
Proof. repeat split; reflexivity. Qed.

Section Format.
Import Bytes BytesFacts Text.

Lemma string_app_nil_r s : s +:+ EmptyString = s.
Proof. induction s as [|a s IH]; [done|]. by rewrite app_cons, IH. Qed.

Lemma string_app_assoc s1 s2 s3 : (s1 +:+ s2) +:+ s3 = s1 +:+ s2 +:+ s3.
Proof. induction s1 as [|a s1 IH]; [done|]. by rewrite !app_cons, IH. Qed.

























Lemma round2_nonneg num den : 0 <= num → 0 < den → 0 <= round2 num den.
Proof.
  intros Hnum Hden. unfold round2.
  assert (0 <= num * 100 / den) by (apply Z.div_pos; lia).
  repeat case_match; lia.
Qed.


End Format.

(** ** Download manager: what an outcome holds *)

Section Outcomes.

Lemma make_request_clock self url stream w :
  clock (make_request self url stream w).2 = clock w ∧
  disk (make_request self url stream w).2 = disk w ∧
  ledger (make_request self url stream w).2 = ledger w.
Proof.
  destruct (make_request_log self url stream w) as (events & H).
  destruct (make_request self url stream w) as [result w'].
  destruct H as (_ & (_ & Hclock & Hdisk & Hledger) & _). done.
Qed.

(** Everything of the file system but the stored files is as before. *)
Definition same_faults (d d' : Disk) : Prop :=
  exists_fails d' = exists_fails d ∧ open_fails d' = open_fails d ∧
  write_fails d' = write_fails d ∧ read_fails d' = read_fails d ∧
  unlink_fails d' = unlink_fails d ∧ csv_fault d' = csv_fault d.

Lemma same_faults_refl d : same_faults d d.
Proof. by repeat split. Qed.

Lemma same_faults_files fs d : same_faults d (with_files fs d).
Proof. by repeat split. Qed.

Lemma same_faults_trans d1 d2 d3 :
  same_faults d1 d2 → same_faults d2 d3 → same_faults d1 d3.
Proof.
  unfold same_faults. intros (?&?&?&?&?&?) (?&?&?&?&?&?). repeat split; congruence.
Qed.

Lemma write_chunks_faults name chunks : ∀ k d,
  same_faults d (write_chunks name k chunks d).2.
Proof.
  induction chunks as [|chunk chunks IH]; intros k d; cbn [write_chunks].
  - apply same_faults_refl.
  - destruct (write_fails d name k); [apply same_faults_refl|].
    eapply same_faults_trans; [apply same_faults_files | apply IH].
Qed.

Lemma save_body_faults name r d : same_faults d (save_body name r d).2.
Proof.
  unfold save_body. destruct (open_fails d name); [apply same_faults_refl|].
  pose proof (write_chunks_faults name (body r) 0
                (with_files (<[name := ""]> (files d)) d)) as H.
  destruct (write_chunks _ _ _ _) as [ok d1]. cbn [snd] in *.
  eapply same_faults_trans; [apply same_faults_files | exact H].
Qed.

(** A saved body leaves the file in storage, whole or in part. *)
Lemma write_chunks_stored name chunks : ∀ k d,
  is_Some (files d !! name) → is_Some (files (write_chunks name k chunks d).2 !! name).
Proof.
  induction chunks as [|chunk chunks IH]; intros k d Hd; cbn [write_chunks]; [done|].
  destruct (write_fails d name k); [done|].
  apply IH. cbn. rewrite lookup_insert_eq. by eexists.
Qed.

Lemma save_body_stored name r d ok d1 :
  save_body name r d = (ok, d1) → ok = true → is_Some (files d1 !! name).
Proof.
  unfold save_body. destruct (open_fails d name); [by intros [= <- _]|].
  pose proof (write_chunks_stored name (body r) 0
                (with_files (<[name := ""]> (files d)) d)) as H.
  destruct (write_chunks _ _ _ _) as [ok' d2]. intros [= _ <-] _.
  apply H. cbn. rewrite lookup_insert_eq. by eexists.
Qed.

(** The three shapes of an outcome [download_bulletin] returns. *)
Lemma download_bulletin_outcome self bulletin_info w o w' :
  download_bulletin self bulletin_info w = (Returned o, w') →
  file_name o = bulletin_info.1 ∧ clock w' = clock w ∧
  ((status o = "skipped" ∧ download_timestamp o = "existing" ∧ w' = w ∧
    ∃ content, files (disk w) !! bulletin_info.1 = Some content ∧
               file_size_mb o = rounded_size_mb content) ∨
   (status o = "failed" ∧ download_timestamp o = get_timestamp w' ∧
    file_size_mb o = PInt 0 ∧ files (disk w) !! bulletin_info.1 = None ∧
    files (disk w') !! bulletin_info.1 = None) ∨
   (status o = "downloaded" ∧ download_timestamp o = get_timestamp w' ∧
    files (disk w) !! bulletin_info.1 = None ∧
    ∃ content, files (disk w') !! bulletin_info.1 = Some content ∧
               file_size_mb o = rounded_size_mb content)).
Proof.
  destruct bulletin_info as [bulletin_name pdf_url].
  unfold download_bulletin, file_exists. cbn [fst].
  destruct (exists_fails (disk w) bulletin_name) eqn:Hrefused; [done|].
  destruct (files (disk w) !! bulletin_name) as [content|] eqn:Hfile; cbn.
  { intros [= <- <-]. split_and!; [done | done |]. left. split_and!; try done. by exists content. }
  pose proof (make_request_clock self pdf_url true w) as (Hclock & Hdisk & _).
  destruct (make_request self pdf_url true w) as [[r|] w1]; cbn [snd] in Hclock, Hdisk.
  - pose proof (save_body_faults bulletin_name r (disk w1)) as (Hsame & _).
    destruct (save_body bulletin_name r (disk w1)) as [ok d1] eqn:Hsave.
    cbn [snd] in Hsame. rewrite Hsame, Hdisk, Hrefused.
    destruct ok.
    + intros [= <- <-]. split_and!; [done | done |]. right; right.
      split_and!; [done | done | done |]. cbn.
      destruct (save_body_stored _ _ _ _ _ Hsave eq_refl) as [content Hcontent].
      exists content. by rewrite Hcontent.
    + destruct (files d1 !! bulletin_name) as [partial|] eqn:Hpartial; cbn.
      * destruct (unlink_fails d1 bulletin_name); [done|].
        intros [= <- <-]. split_and!; [done | done |]. right; left.
        split_and!; try done. cbn. apply lookup_delete_eq.
      * intros [= <- <-]. split_and!; [done | done |]. right; left.
        split_and!; try done.
  - intros [= <- <-]. split_and!; [done | done |]. right; left.
    split_and!; try done. by rewrite Hdisk.
Qed.



Lemma write_rows_elem (m : Ledger) keys : ∀ written row,
  row ∈ write_rows m keys written →
  row ∈ written ∨ ∃ key e, m !! key = Some e ∧ dict_to_list e = Some row.
Proof.
  induction keys as [|key keys IH]; intros written row; cbn; [by left|].
  destruct (m !! key) as [e|] eqn:He; cbn; [|by left].
  destruct (dict_to_list e) as [row'|] eqn:Hrow; [|by left].
  intros [Hin | H]%IH; [|by right].
  apply elem_of_app in Hin as [Hin | Hin]; [by left|].
  apply list_elem_of_singleton in Hin as ->. right. by exists key, e.
Qed.

Lemma write_rows_cons (m : Ledger) keys : ∀ header written,
  write_rows m keys (header :: written) = header :: write_rows m keys written.
Proof.
  induction keys as [|key keys IH]; intros header written; cbn; [done|].
  destruct (m !! key ≫= dict_to_list); [|done]. apply IH.
Qed.

Lemma dict_to_list_length e row : dict_to_list e = Some row → length row = 4%nat.
Proof.
  destruct e as [r|o]; cbn.
  - destruct (Csv.rest r); [done|]. destruct (forallb _ _); [|done]. by intros [= <-].
  - by intros [= <-].
Qed.

(** Whatever the prior file, the file a save leaves can be written back:
    from the first save on, the ledger stays among the files for which the
    save merges and is idempotent. *)
Lemma create_csv_summary_writable f results :
  writable (get_existing_files (create_csv_summary NoFault f results)).
Proof.
  unfold create_csv_summary, summary_rows.
  destruct (sorted _) as [filenames|]; [|apply writable_written; constructor].
  rewrite write_rows_cons. apply writable_written, Forall_forall.
  intros row [Hin | (key & e & _ & Hrow)]%write_rows_elem.
  - by apply elem_of_nil in Hin.
  - by apply (dict_to_list_length e).
Qed.



End Outcomes.

(** A download that never gets an answer. *)

Definition dead_net (history : list Event) (url : string) : Attempt := Fails.

Definition sample_link : Link :=
  ("irb2024-05.pdf", "https://www.irs.gov/pub/irs-irbs/irb2024-05.pdf").

Definition failed_sample : Outcome :=
  {| file_name := "irb2024-05.pdf"; file_size_mb := PInt 0;
     download_timestamp := "2024-01-02T03:04:05"; status := "failed" |}.

Example download_bulletin_failed :
  (download_bulletin default_scraper sample_link (sample_world dead_net ∅ None)).1 =
  Returned failed_sample.
Proof. reflexivity. Qed.




(** ** Download manager: a write error *)

(** Storage on which the second write to a file fails and files cannot be
    removed. *)
Definition stuck_disk : Disk :=
  {| files := ∅; exists_fails := λ _, false; open_fails := λ _, false;
     write_fails := λ _ k, bool_decide (k = 1%nat);
     read_fails := λ _, false; unlink_fails := λ _, true;
     csv_fault := NoFault |}.

Definition pdf_net (history : list Event) (url : string) : Attempt :=
  Answer {| status_code := 200; soup := empty_page;
            body := ["%PDF-1.7 "; "second chunk"]; body_fails := false |}.

Definition stuck_world : World :=
  {| net := pdf_net; clock := λ _, epoch; log := []; disk := stuck_disk; ledger := None |}.

(** A site with two bulletins, the second of which cannot be saved. *)
Definition bulletin_net (history : list Event) (url : string) : Attempt :=
  if decide (url = BASE_URL) then
    answer 200 {| Html.hrefs := [href "/pub/irs-irbs/irb2024-04.pdf";
                                 href "/pub/irs-irbs/irb2024-05.pdf"];
                  Html.pagination := None |}
  else pdf_net history url.

Definition half_stuck_disk : Disk :=
  {| files := ∅; exists_fails := λ _, false; open_fails := λ _, false;
     write_fails := λ name k, bool_decide (name = "irb2024-05.pdf" ∧ k = 1%nat);
     read_fails := λ _, false;
     unlink_fails := λ name, bool_decide (name = "irb2024-05.pdf");
     csv_fault := NoFault |}.

Definition half_stuck_world : World :=
  {| net := bulletin_net; clock := λ _, epoch; log := [];
     disk := half_stuck_disk; ledger := None |}.

(** C6. The write error is caught, but removing the partial file raises in
    turn: the call raises instead of returning a [failed] outcome, and the
    partial file stays in storage.  In a batch the raise ends [run] before
    the ledger is written: the bulletin that was downloaded is in storage
    and no outcome is recorded. *)
Theorem download_bulletin_raises :
  (download_bulletin default_scraper sample_link stuck_world).1 = Raised ∧
  files (disk (download_bulletin default_scraper sample_link stuck_world).2)
    !! "irb2024-05.pdf" = Some "%PDF-1.7 " ∧
  (run sample_decimal sample_urljoin 10 default_scraper half_stuck_world).1 =
    Some Raised ∧
  files (disk (run sample_decimal sample_urljoin 10 default_scraper half_stuck_world).2)
    !! "irb2024-04.pdf" = Some "%PDF-1.7 second chunk" ∧
  ledger (run sample_decimal sample_urljoin 10 default_scraper half_stuck_world).2 = None.
Proof. split_and!; vm_compute; reflexivity. Qed.

(** Without the failing removal the same batch records both outcomes. *)
Example run_records_outcomes :
  let w := {| net := bulletin_net; clock := λ _, epoch; log := [];
              disk := sample_disk ∅; ledger := None |} in
  (run sample_decimal sample_urljoin 10 default_scraper w).1 = Some (Returned ()) ∧
  ledger (run sample_decimal sample_urljoin 10 default_scraper w).2 =
    Some [CSV_FIELDNAMES;
          ["irb2024-04.pdf"; "0.0"; "2024-01-02T03:04:05"; "downloaded"];
          ["irb2024-05.pdf"; "0.0"; "2024-01-02T03:04:05"; "downloaded"]].
Proof. split; vm_compute; reflexivity. Qed.

(** When the file system accepts the name and the removal of the file
    does not fail, [download_bulletin] returns an outcome. *)
Lemma download_bulletin_returns self bulletin_info w :
  exists_fails (disk w) bulletin_info.1 = false →
  unlink_fails (disk w) bulletin_info.1 = false →
  ∃ o, (download_bulletin self bulletin_info w).1 = Returned o.
Proof.
  intros Haccepted Hunlink. destruct bulletin_info as [bulletin_name pdf_url].
  unfold download_bulletin, file_exists. cbn [fst] in *. rewrite Haccepted.
  destruct (files (disk w) !! bulletin_name); cbn; [by eexists|].
  pose proof (make_request_clock self pdf_url true w) as (_ & Hdisk & _).
  destruct (make_request self pdf_url true w) as [[r|] w1]; [|by eexists].
  cbn [snd] in Hdisk.
  pose proof (save_body_faults bulletin_name r (disk w1)) as (Hsame & _ & _ & _ & Hfaults & _).
  destruct (save_body bulletin_name r (disk w1)) as [ok d1] eqn:Hsave.
  cbn [snd] in Hsame, Hfaults.
  destruct ok; [by eexists|].
  rewrite Hsame, Hfaults, Hdisk, Haccepted, Hunlink.
  destruct (files d1 !! bulletin_name); cbn; by eexists.
Qed.

(** ** Cleanup *)

(** Two invalid files, one of which cannot be removed. *)
Definition littered_disk : Disk :=
  {| files := {[ "irb2024-01.pdf" := "%PDF-1.7 bulletin";
                 "irb2024-02.pdf" := "";
                 "irb2024-03.pdf" := "stub" ]};
     exists_fails := λ _, false; open_fails := λ _, false;
     write_fails := λ _ _, false; read_fails := λ _, false;
     unlink_fails := λ name, bool_decide (name = "irb2024-02.pdf");
     csv_fault := NoFault |}.

(** C8. The file whose removal failed is still in storage, and yet it is
    in the list returned as deleted. *)
Theorem cleanup_reports_undeleted :
  "irb2024-02.pdf" ∈ (cleanup_invalid_files false littered_disk).1 ∧
  files (cleanup_invalid_files false littered_disk).2 !! "irb2024-02.pdf" = Some "" ∧
  files (cleanup_invalid_files false littered_disk).2 !! "irb2024-03.pdf" = None ∧
  files (cleanup_invalid_files false littered_disk).2 !! "irb2024-01.pdf" =
    Some "%PDF-1.7 bulletin".
Proof.
  split_and!; [|vm_compute; reflexivity..].
  apply (bool_decide_unpack _). vm_compute. exact I.
Qed.

(** A dry run leaves the storage as it is and reports the invalid files. *)
Lemma cleanup_dry_run d :
  cleanup_invalid_files true d =
  ((List.filter (λ kv : string * bool, negb kv.2) (validate_pdf_files d)).*1, d).
Proof. unfold cleanup_invalid_files. by destruct (_.*1). Qed.

(** The deletion loop removes every listed file but those whose removal
    fails, and goes through the whole list. *)
Lemma unlink_each_lookup names : ∀ d name,
  files (unlink_each names d) !! name =
  if bool_decide (name ∈ names) && negb (unlink_fails d name) then None
  else files d !! name.
Proof.
  induction names as [|n names IH]; intros d name; cbn [unlink_each].
  - by rewrite bool_decide_eq_false_2 by apply not_elem_of_nil.
  - rewrite IH. destruct (unlink_fails d n) eqn:Hn.
    + destruct (decide (name = n)) as [->|Hne].
      * rewrite Hn, !andb_false_r. done.
      * rewrite (bool_decide_ext (name ∈ n :: names) (name ∈ names)); [done|].
        rewrite elem_of_cons. split; [by intros [?|?] | by right].
    + cbn [unlink_fails with_files files].
      destruct (decide (name = n)) as [->|Hne].
      * rewrite Hn, lookup_delete_eq. rewrite (bool_decide_eq_true_2 (n ∈ n :: names)) by left.
        cbn. by destruct (bool_decide _).
      * rewrite lookup_delete_ne by done.
        rewrite (bool_decide_ext (name ∈ n :: names) (name ∈ names)); [done|].
        rewrite elem_of_cons. split; [by intros [?|?] | by right].
Qed.

(** * Further properties *)

(** ** HTTP fetcher: what a request returns and costs *)

Section FetcherMore.

(** The seconds slept during a stretch of the log. *)
Fixpoint slept (events : list Event) : Z :=
  match events with
  | [] => 0
  | ESleep secs :: events' => secs + slept events'
  | EGet _ _ _ :: events' => slept events'
  end.

Lemma slept_app e1 e2 : slept (e1 ++ e2) = slept e1 + slept e2.
Proof.
  induction e1 as [|e e1 IH]; [done|]. destruct e; cbn; rewrite IH; lia.
Qed.

Lemma gets_app e1 e2 : gets (e1 ++ e2) = (gets e1 + gets e2)%nat.
Proof. unfold gets. by rewrite List.filter_app, length_app. Qed.

Lemma make_request_from_answer self url stream remaining : ∀ attempt w r w',
  make_request_from remaining attempt self url stream w = (Some r, w') →
  status_code r = 200 ∧
  ∃ events, log w' = log w ++ events ++ [EGet url stream (Answer r)] ∧
            net w (log w ++ events) url = Answer r.
Proof.
  induction remaining as [|k IH]; intros attempt w r w'; cbn [make_request_from]; [done|].
  unfold requests_get. destruct (net w (log w) url) as [r0|] eqn:Hnet.
  - destruct (status_code r0 =? 200) eqn:H200.
    + intros [= <- <-]. split; [by apply Z.eqb_eq|].
      exists []. cbn. by rewrite app_nil_r.
    + intros Hrun. apply IH in Hrun as (Hstatus & events & Hlog & Hnet').
      split; [done|]. destruct (attempt <? max_retries self - 1); cbn in Hlog, Hnet'.
      * exists (EGet url stream (Answer r0) :: ESleep (2 ^ attempt) :: events).
        rewrite <- !app_assoc in Hlog. rewrite <- !app_assoc in Hnet'. done.
      * exists (EGet url stream (Answer r0) :: events).
        rewrite <- !app_assoc in Hlog. rewrite <- !app_assoc in Hnet'. done.
  - intros Hrun. apply IH in Hrun as (Hstatus & events & Hlog & Hnet').
    split; [done|]. destruct (attempt <? max_retries self - 1); cbn in Hlog, Hnet'.
    * exists (EGet url stream Fails :: ESleep (2 ^ attempt) :: events).
      rewrite <- !app_assoc in Hlog. rewrite <- !app_assoc in Hnet'. done.
    * exists (EGet url stream Fails :: events).
      rewrite <- !app_assoc in Hlog. rewrite <- !app_assoc in Hnet'. done.
Qed.

(** X1. A response that [make_request] returns has status 200 and is the
    answer the network gave to the last GET of the call, for that URL; the
    disk, the ledger and the clock are as before. *)
Theorem make_request_returns_success (self : Scraper) (url : string) (stream : bool)
    (w w' : World) (r : Response) :
  make_request self url stream w = (Some r, w') →
  status_code r = 200 ∧
  (∃ events, log w' = log w ++ events ++ [EGet url stream (Answer r)] ∧
             net w (log w ++ events) url = Answer r) ∧
  same_world w w'.
Proof.
  intros Hrun. split_and!.
  - by apply (make_request_from_answer _ _ _ _ _ _ _ _ Hrun).
  - by apply (make_request_from_answer _ _ _ _ _ _ _ _ Hrun).
  - destruct (make_request_log self url stream w) as (events & H).
    rewrite Hrun in H. apply H.
Qed.

(** X2. With [max_retries] zero or negative the loop body never runs: no
    request is sent and the call returns [None]. *)
Theorem make_request_without_attempts (self : Scraper) (url : string) (stream : bool)
    (w : World) :
  max_retries self <= 0 → make_request self url stream w = (None, w).
Proof.
  intros Hle. unfold make_request.
  replace (Z.to_nat (max_retries self)) with 0%nat by lia. done.
Qed.

Lemma slept_backoff url stream failures : ∀ j,
  0 <= j →
  slept (backoff_log url stream j failures) = 2 ^ j * (2 ^ Z.of_nat (length failures) - 1) ∧
  gets (backoff_log url stream j failures) = length failures.
Proof.
  induction failures as [|a failures IH]; intros j Hj.
  - cbn. split; [lia | done].
  - cbn [backoff_log length]. destruct (IH (j + 1)) as [Hs Hg]; [lia|].
    split.
    + cbn. rewrite Hs. rewrite Nat2Z.inj_succ, Z.pow_succ_r, Z.pow_add_r by lia. lia.
    + unfold gets in *. cbn. by rewrite Hg.
Qed.

(** X3. When every attempt fails, [make_request] has sent [max_retries] GETs
    and slept [2 ^ (max_retries - 1) - 1] seconds in all (3 seconds with
    the default of 3 attempts). *)
Theorem make_request_exhausted_cost (self : Scraper) (url : string) (stream : bool)
    (w w' : World) :
  1 <= max_retries self →
  make_request self url stream w = (None, w') →
  ∃ events,
    log w' = log w ++ events ∧
    Z.of_nat (gets events) = max_retries self ∧
    slept events = 2 ^ (max_retries self - 1) - 1.
Proof.
  intros Hpos Hrun. unfold make_request in Hrun.
  destruct (make_request_from_spec self url stream (Z.to_nat (max_retries self)) 0 w)
    as (failures & last & H); [lia | lia |].
  rewrite Hrun in H. destruct H as (Hlog & _ & _ & _ & Hres).
  destruct Hres as [(r & _ & _ & Hsome & _) | (_ & _ & Hlen)]; [done|].
  exists (backoff_log url stream 0 failures ++ [EGet url stream last]).
  destruct (slept_backoff url stream failures 0) as [Hs Hg]; [lia|].
  split_and!; [done | |].
  - rewrite gets_app, Hg. unfold gets. cbn. lia.
  - rewrite slept_app, Hs. cbn.
    replace (max_retries self - 1) with (Z.of_nat (length failures)) by lia. lia.
Qed.

End FetcherMore.

Lemma make_request_returns_success_witness :
  let w := sample_world flaky_net ∅ None in
  make_request default_scraper "u" false w =
    (Some {| status_code := 200; soup := empty_page; body := []; body_fails := false |},
     (make_request default_scraper "u" false w).2) ∧
  same_world w (make_request default_scraper "u" false w).2.
Proof.
  intros w.
  assert (Hrun : make_request default_scraper "u" false w =
    (Some {| status_code := 200; soup := empty_page; body := []; body_fails := false |},
     (make_request default_scraper "u" false w).2)) by reflexivity.
  split; [exact Hrun|].
  exact (proj2 (proj2 (make_request_returns_success _ _ _ _ _ _ Hrun))).
Defined.

Definition idle_scraper : Scraper :=
  {| max_workers := MAX_WORKERS; max_retries := 0;
     timeout := REQUEST_TIMEOUT; max_pages := Unlimited |}.

Lemma make_request_without_attempts_witness :
  max_retries idle_scraper <= 0 ∧
  make_request idle_scraper "u" false (sample_world flaky_net ∅ None) =
    (None, sample_world flaky_net ∅ None).
Proof.
  assert (Hle : max_retries idle_scraper <= 0) by (cbn; lia).
  split; [exact Hle|]. exact (make_request_without_attempts _ _ _ _ Hle).
Defined.

Lemma make_request_exhausted_cost_witness :
  let w := sample_world dead_net ∅ None in
  1 <= max_retries default_scraper ∧
  ∃ events,
    log (make_request default_scraper "u" false w).2 = log w ++ events ∧
    Z.of_nat (gets events) = 3 ∧ slept events = 3.
Proof.
  intros w.
  assert (Hpos : 1 <= max_retries default_scraper)
    by (unfold default_scraper, MAX_RETRIES; simpl; lia).
  split; [exact Hpos|].
  assert (Hrun : make_request default_scraper "u" false w =
                 (None, (make_request default_scraper "u" false w).2)) by reflexivity.
  destruct (make_request_exhausted_cost default_scraper "u" false w _ Hpos Hrun)
    as (events & Hlog & Hgets & Hslept).
  exists events. split; [exact Hlog | split; [exact Hgets | exact Hslept]].
Defined.

(** ** The bulletin pattern *)

Section Pattern.
Import Bytes BytesFacts Text.

Variable unicode_decimal : N → bool.

Local Abbreviation decimal := (Re.decimal unicode_decimal).

Lemma lit_spec p : ∀ s r, Re.lit p s = Some r ↔ s = p ++ r.
Proof.
  induction p as [|a p IH]; intros s r; cbn.
  - split; [by intros [= ->] | by intros ->].
  - destruct s as [|b s]; [done|]. case_decide as Hab.
    + subst b. rewrite IH. split; [by intros -> | by intros [= ->]].
    + split; [done | intros [= -> _]; done].
Qed.

Lemma skip_digits_spec s :
  ∃ d, forallb decimal d = true ∧ s = d ++ Re.skip_digits unicode_decimal s.
Proof.
  induction s as [|c s IH]; cbn.
  - by exists [].
  - destruct (decimal c) eqn:Hc.
    + destruct IH as (d & Hd & Hs). exists (c :: d). cbn.
      rewrite Hc, Hd, <- Hs. done.
    + by exists [].
Qed.

Lemma skip_digits_app d : ∀ c r,
  forallb decimal d = true → decimal c = false →
  Re.skip_digits unicode_decimal (d ++ c :: r) = c :: r.
Proof.
  induction d as [|a d IH]; intros c r Hd Hc.
  - cbn. by rewrite Hc.
  - cbn in Hd. apply andb_true_iff in Hd as [Ha Hd]. cbn.
    rewrite Ha. by apply IH.
Qed.

(** One or more characters of the class [\d]. *)
Definition digit_run (d : list N) : Prop := d ≠ [] ∧ forallb decimal d = true.

Lemma digits1_app d c r :
  digit_run d → decimal c = false →
  Re.digits1 unicode_decimal (d ++ c :: r) = Some (c :: r).
Proof.
  intros [Hne Hd] Hc. destruct d as [|a d]; [done|].
  cbn in Hd. apply andb_true_iff in Hd as [Ha Hd]. cbn.
  rewrite Ha. f_equal. by apply skip_digits_app.
Qed.

Lemma digits1_inv s r :
  Re.digits1 unicode_decimal s = Some r → ∃ d, digit_run d ∧ s = d ++ r.
Proof.
  destruct s as [|c s]; cbn; [done|]. destruct (decimal c) eqn:Hc; [|done].
  intros [= <-]. destruct (skip_digits_spec s) as (d & Hd & Hs).
  exists (c :: d). split; [split; [done | by cbn; rewrite Hc, Hd]|].
  cbn. by rewrite <- Hs.
Qed.

(** The text starts with [/pub/irs-irbs/irb<digits>-<digits>.pdf]. *)
Definition bulletin_prefixed (s : list N) : Prop :=
  ∃ d1 d2 rest,
    digit_run d1 ∧ digit_run d2 ∧
    s = code_points "/pub/irs-irbs/irb" ++ d1 ++ code_points "-" ++ d2 ++
        code_points ".pdf" ++ rest.

Lemma mbind_Some_eq {A B} (x : A) (f : A → option B) : Some x ≫= f = f x.
Proof. done. Qed.

Lemma mbind_None_eq {A B} (f : A → option B) : None ≫= f = None.
Proof. done. Qed.

Lemma bulletin_at_spec s : Re.bulletin_at unicode_decimal s = true ↔ bulletin_prefixed s.
Proof.
  unfold Re.bulletin_at, bulletin_prefixed. split.
  - destruct (Re.lit (code_points "/pub/irs-irbs/irb") s) as [s1|] eqn:H1;
      rewrite ?mbind_Some_eq, ?mbind_None_eq; [|done].
    destruct (Re.digits1 unicode_decimal s1) as [s2|] eqn:H2;
      rewrite ?mbind_Some_eq, ?mbind_None_eq; [|done].
    destruct (Re.lit (code_points "-") s2) as [s3|] eqn:H3;
      rewrite ?mbind_Some_eq, ?mbind_None_eq; [|done].
    destruct (Re.digits1 unicode_decimal s3) as [s4|] eqn:H4;
      rewrite ?mbind_Some_eq, ?mbind_None_eq; [|done].
    destruct (Re.lit (code_points ".pdf") s4) as [s5|] eqn:H5; [|done]. intros _.
    apply lit_spec in H1, H3, H5.
    apply digits1_inv in H2 as (d1 & Hd1 & Hs1).
    apply digits1_inv in H4 as (d2 & Hd2 & Hs3).
    exists d1, d2, s5. split_and!; [done | done |].
    by rewrite H1, Hs1, H3, Hs3, H5.
  - intros (d1 & d2 & rest & Hd1 & Hd2 & ->).
    rewrite (proj2 (lit_spec (code_points "/pub/irs-irbs/irb") _ _) eq_refl), mbind_Some_eq.
    change (code_points "-" ++ ?x) with (45%N :: x).
    rewrite digits1_app, mbind_Some_eq by done.
    change (45%N :: ?x) with (code_points "-" ++ x).
    rewrite (proj2 (lit_spec (code_points "-") _ _) eq_refl), mbind_Some_eq.
    change (code_points ".pdf" ++ rest) with (46%N :: code_points "pdf" ++ rest).
    rewrite digits1_app, mbind_Some_eq by done.
    change (46%N :: code_points "pdf" ++ rest) with (code_points ".pdf" ++ rest).
    by rewrite (proj2 (lit_spec (code_points ".pdf") _ _) eq_refl).
Qed.

(** X4. An anchor is taken for a bulletin link exactly when its [href] holds,
    anywhere, [/pub/irs-irbs/irb], a run of digits, a dash, a run of
    digits and [.pdf], where a digit is any character of the class [\d]:
    the ASCII digits [0] to [9] and whatever the Unicode database counts
    as a decimal digit beyond ASCII. *)
Theorem bulletin_search_spec (s : list N) :
  Re.bulletin_search unicode_decimal s = true ↔
  ∃ pre tail, s = pre ++ tail ∧ bulletin_prefixed tail.
Proof.
  induction s as [|c s IH]; cbn [Re.bulletin_search].
  - rewrite orb_false_r, bulletin_at_spec. split.
    + intros H. by exists [], [].
    + intros (pre & tail & Hs & H). destruct pre; [|done]. cbn in Hs. by subst.
  - rewrite orb_true_iff, bulletin_at_spec, IH. split.
    + intros [H | (pre & tail & -> & H)].
      * by exists [], (c :: s).
      * by exists (c :: pre), tail.
    + intros (pre & tail & Hs & H). destruct pre as [|a pre].
      * left. cbn in Hs. by subst.
      * right. cbn in Hs. injection Hs as -> ->. by exists pre, tail.
Qed.

Lemma basename_no_slash p : contains "/" (Path.basename p) = false.
Proof.
  induction p as [|c r IH]; [done|]. cbn [Path.basename].
  destruct (contains "/" r) eqn:Hr; [done|].
  case_decide as Hc; [done|].
  cbn. rewrite Hr, orb_false_r. by rewrite decide_False by done.
Qed.

End Pattern.

(** ** Link collector: how a crawl ends and what it costs *)

Section CollectorMore.

Variable unicode_decimal : N → bool.
Variable urljoin : string → list N → option string.


(** X5. When a page cannot be fetched the crawl ends with the links collected
    so far, and nothing is requested after the failed attempts. *)
Theorem crawl_fetch_failure_keeps_links (self : Scraper) (fuel : nat)
    (links : list Link) (page_num : Z) (w w1 : World) :
  below page_num (max_pages self) = true →
  make_request self (page_url page_num) false w = (None, w1) →
  crawl unicode_decimal urljoin (S fuel) self links page_num w = (Some (Returned links), w1).
Proof.
  intros Hbelow Hreq. cbn [crawl]. rewrite Hbelow.
  unfold crawl_page. by rewrite Hreq.
Qed.

(** X6. A page that brings new links but has no next-page control is the last
    one: when [urljoin] raises on none of its anchors, its new links are
    added and the list is returned; when it raises on one, the crawl
    raises.  Either way nothing more is requested, not even after a
    pause. *)
Theorem crawl_last_page_ends (self : Scraper) (fuel : nat) (links : list Link)
    (page_num : Z) (w w1 : World) (r : Response) :
  below page_num (max_pages self) = true →
  make_request self (page_url page_num) false w = (Some r, w1) →
  first_seen links.*1 (page_links unicode_decimal urljoin (soup r)) ≠ [] →
  _has_next_page (soup r) = false →
  crawl unicode_decimal urljoin (S fuel) self links page_num w =
    (Some (if page_raises unicode_decimal urljoin (soup r) then Raised
           else Returned (links ++ first_seen links.*1
                                     (page_links unicode_decimal urljoin (soup r)))),
     w1).
Proof.
  intros Hbelow Hreq Hnew Hnext. cbn [crawl]. rewrite Hbelow.
  unfold crawl_page. rewrite Hreq, scan_page_spec, Hnext.
  destruct (page_raises _ _ _); [done|].
  by rewrite bool_decide_eq_false_2 by done.
Qed.

Lemma make_request_from_gets self url stream remaining : ∀ attempt w,
  ∃ events,
    log (make_request_from remaining attempt self url stream w).2 = log w ++ events ∧
    (gets events <= remaining)%nat ∧
    (length (fetched_pages events) <= 1)%nat.
Proof.
  induction remaining as [|k IH]; intros attempt w; cbn [make_request_from].
  - exists []. rewrite app_nil_r. cbn. split_and!; [done | lia | lia].
  - unfold requests_get. set (a := net w (log w) url).
    assert (Hone : (gets [EGet url stream a] = 1)%nat) by done.
    destruct (match a with
              | Answer r => if status_code r =? 200 then Some r else None
              | Fails => None
              end) as [r|] eqn:Hok.
    + exists [EGet url stream a]. cbn [snd log record]. split_and!; [done | cbn; lia |].
      cbn. destruct a as [r0|]; [|cbn; lia]. destruct (status_code r0 =? 200); cbn; lia.
    + assert (Hnone : fetched_pages [EGet url stream a] = []).
      { cbn. destruct a as [r0|]; [|done]. by destruct (status_code r0 =? 200). }
      match goal with |- context [make_request_from k ?x self url stream ?w2] =>
        destruct (IH x w2) as (events & Hlog & Hgets & Hpages)
      end.
      destruct (attempt <? max_retries self - 1).
      * exists ([EGet url stream a] ++ [ESleep (2 ^ attempt)] ++ events).
        rewrite Hlog. cbn [log sleep record]. rewrite <- !app_assoc.
        split_and!; [done | |].
        -- rewrite !gets_app, Hone. cbn. lia.
        -- rewrite !fetched_pages_app, Hnone. cbn. lia.
      * exists ([EGet url stream a] ++ events).
        rewrite Hlog. cbn [log record]. rewrite <- !app_assoc.
        split_and!; [done | |].
        -- rewrite !gets_app, Hone. lia.
        -- rewrite !fetched_pages_app, Hnone. cbn. lia.
Qed.

Lemma crawl_page_cost self links page_num w :
  ∃ events,
    log (step_world (crawl_page unicode_decimal urljoin self links page_num w)) = log w ++ events ∧
    (gets events <= Z.to_nat (max_retries self))%nat ∧
    (length (fetched_pages events) <= 1)%nat.
Proof.
  unfold crawl_page, make_request.
  destruct (make_request_from_gets self (page_url page_num) false
              (Z.to_nat (max_retries self)) 0 w) as (events & Hlog & Hgets & Hpages).
  destruct (make_request_from _ _ _ _ _ _) as [[r|] w1]; cbn [snd] in Hlog.
  - destruct (scan_page unicode_decimal urljoin links (soup r)) as [links' [found|]];
      [|by exists events].
    destruct (negb found); [by exists events|].
    destruct (negb (_has_next_page (soup r))); [by exists events|].
    exists (events ++ [ESleep DELAY_BETWEEN_PAGES]). cbn [step_world log sleep record].
    rewrite Hlog, <- app_assoc, gets_app, fetched_pages_app. cbn.
    split_and!; [done | lia |]. rewrite app_nil_r. lia.
  - by exists events.
Qed.

Lemma crawl_cost self n fuel : ∀ links page_num w,
  max_pages self = Pages n →
  ∃ events,
    log (crawl unicode_decimal urljoin fuel self links page_num w).2 = log w ++ events ∧
    (length (fetched_pages events) <= Z.to_nat (n - page_num))%nat ∧
    (gets events <= Z.to_nat (n - page_num) * Z.to_nat (max_retries self))%nat.
Proof.
  induction fuel as [|fuel IH]; intros links page_num w Hmax; cbn [crawl];
    rewrite Hmax; cbn [below].
  - exists []. rewrite app_nil_r.
    change (gets []) with 0%nat. change (length (fetched_pages [])) with 0%nat.
    destruct (page_num <? n); cbn [snd]; split_and!; first [done | apply Nat.le_0_l].
  - destruct (page_num <? n) eqn:Hlt.
    2: { exists []. rewrite app_nil_r.
         change (gets []) with 0%nat. change (length (fetched_pages [])) with 0%nat.
         cbn [snd]. split_and!; first [done | apply Nat.le_0_l]. }
    apply Z.ltb_lt in Hlt.
    destruct (crawl_page_cost self links page_num w) as (events & Hlog & Hgets & Hpages).
    replace (Z.to_nat (n - page_num)) with (S (Z.to_nat (n - (page_num + 1)))) by lia.
    rewrite Nat.mul_succ_l.
    destruct (crawl_page unicode_decimal urljoin self links page_num w) as [l1 w1 | l1 w1 | l1 w1];
      cbn [step_world] in Hlog.
    + exists events. cbn [snd]. split_and!; [done | lia | nia].
    + destruct (IH l1 (page_num + 1) w1 Hmax) as (events' & Hlog' & Hpages' & Hgets').
      exists (events ++ events'). rewrite Hlog', Hlog, <- app_assoc.
      rewrite fetched_pages_app, length_app, gets_app.
      split_and!; [done | lia | nia].
    + exists events. cbn [snd]. split_and!; [done | lia | nia].
Qed.

(** X7. A crawl limited to [n] pages receives at most [n] listing pages and
    sends at most [n * max_retries] requests, whatever the site answers. *)
Theorem get_document_links_cost (self : Scraper) (fuel : nat) (w : World) (n : Z) :
  max_pages self = Pages n →
  ∃ events,
    log (get_document_links unicode_decimal urljoin fuel self w).2 = log w ++ events ∧
    (length (fetched_pages events) <= Z.to_nat n)%nat ∧
    (gets events <= Z.to_nat n * Z.to_nat (max_retries self))%nat.
Proof.
  intros Hmax. unfold get_document_links.
  destruct (crawl_cost self n fuel [] 0 w Hmax) as (events & Hlog & Hpages & Hgets).
  exists events. rewrite Z.sub_0_r in Hpages, Hgets. done.
Qed.

Lemma resolved_elem hs l :
  l ∈ resolved urljoin hs → ∃ h, h ∈ hs ∧ resolve urljoin h = Some l.
Proof.
  induction hs as [|h hs IH]; cbn; [by intros ?%elem_of_nil|].
  destruct (resolve urljoin h) as [l0|] eqn:Hh; [|by intros ?%elem_of_nil].
  intros [-> | Hl]%elem_of_cons.
  - exists h. split; [by left | done].
  - destruct (IH Hl) as (h' & Hh' & Hres). exists h'. split; [by right | done].
Qed.

(** X8. Every link a crawl returns stands for an anchor of a fetched page whose
    [href] matches the bulletin pattern: its URL is that [href] joined to
    the site, and its filename is the last segment of the URL, without any
    slash. *)
Theorem get_document_links_wellformed (self : Scraper) (fuel : nat) (w w' : World)
    (result : list Link) (l : Link) :
  get_document_links unicode_decimal urljoin fuel self w = (Some (Returned result), w') →
  l ∈ result →
  l.1 = Path.basename l.2 ∧
  Bytes.contains "/" l.1 = false ∧
  ∃ events page href,
    log w' = log w ++ events ∧ page ∈ fetched_pages events ∧
    href ∈ Html.hrefs page ∧ Re.bulletin_search unicode_decimal href = true ∧
    urljoin "https://www.irs.gov" href = Some l.2.
Proof.
  intros Hrun Hl. unfold get_document_links in Hrun.
  apply crawl_spec in Hrun as (events & Hlog & -> & _). cbn in Hl.
  apply (λ H, elem_of_sublist _ _ _ H (first_seen_sublist _ [])) in Hl.
  apply list_elem_of_In, in_concat in Hl as (links & Hlinks & Hl).
  apply list_elem_of_In in Hlinks, Hl.
  apply list_elem_of_fmap in Hlinks as (page & -> & Hpage).
  apply resolved_elem in Hl as (href & Hhref & Hres).
  apply list_elem_of_In, List.filter_In in Hhref as [Hhref Hmatch].
  apply list_elem_of_In in Hhref. unfold resolve in Hres.
  destruct (urljoin "https://www.irs.gov" href) as [pdf_url|] eqn:Hjoin; [|done].
  injection Hres as <-. cbn. split_and!; [done | apply basename_no_slash |].
  by exists events, page, href.
Qed.

End CollectorMore.

Lemma sublist_filter_stdlib {A} (f : A → bool) (l : list A) : List.filter f l `sublist_of` l.
Proof.
  induction l as [|x l IH]; cbn; [done|].
  destruct (f x); [by apply sublist_skip | by apply sublist_cons].
Qed.

(** ** Checking for new bulletins *)

Section CheckMore.

Variable unicode_decimal : N → bool.
Variable urljoin : string → list N → option string.

(** X9. With a limit of at least 1 the remote listing is the first [limit]
    links of a crawl; up to 50 that crawl is cut to [limit // 20 + 1]
    pages, so it receives at most three pages. *)
Theorem get_remote_bulletins_limited (self : Scraper) (fuel : nat) (n : Z) (w : World) :
  1 <= n →
  let self' := if bool_decide (n <= 50)
               then with_max_pages (Pages (n / 20 + 1)) self else self in
  get_remote_bulletins unicode_decimal urljoin fuel self (Some n) w =
    (returned (take (Z.to_nat n))
       (get_document_links unicode_decimal urljoin fuel self' w).1,
     (get_document_links unicode_decimal urljoin fuel self' w).2) ∧
  (∀ result,
     (get_remote_bulletins unicode_decimal urljoin fuel self (Some n) w).1 =
       Some (Returned result) →
     Z.of_nat (length result) <= n) ∧
  (n <= 50 →
   ∃ events,
     log (get_remote_bulletins unicode_decimal urljoin fuel self (Some n) w).2 =
       log w ++ events ∧
     (length (fetched_pages events) <= 3)%nat).
Proof.
  intros Hn self'.
  assert (Heq : get_remote_bulletins unicode_decimal urljoin fuel self (Some n) w =
    (returned (take (Z.to_nat n))
       (get_document_links unicode_decimal urljoin fuel self' w).1,
     (get_document_links unicode_decimal urljoin fuel self' w).2)).
  { unfold get_remote_bulletins, self'. cbn [truthy from_option id].
    rewrite (proj2 (Z.eqb_neq n 0)) by lia. cbn [negb andb].
    assert (0 <= n / 20) by (apply Z.div_pos; lia).
    rewrite Z.max_r by lia.
    case_bool_decide; destruct (get_document_links _ _ _ _ _) as [all w'];
      cbn [fst snd]; unfold slice_to; by rewrite (proj2 (Z.leb_le 0 n)) by lia. }
  split_and!; [done | |].
  - intros result. rewrite Heq. cbn [fst].
    destruct (get_document_links _ _ _ _ _).1 as [[all|]|]; [|done..]. intros [= <-].
    rewrite length_take. lia.
  - intros Hsmall. rewrite Heq. cbn [snd]. unfold self'.
    rewrite bool_decide_eq_true_2 by done.
    destruct (crawl_cost unicode_decimal urljoin (with_max_pages (Pages (n / 20 + 1)) self)
                (n / 20 + 1) fuel [] 0 w eq_refl) as (events & Hlog & Hpages & _).
    exists events. split; [done|]. rewrite Z.sub_0_r in Hpages.
    assert (n / 20 + 1 <= 3); [|lia].
    assert (n / 20 < 3); [|lia]. apply Z.div_lt_upper_bound; lia.
Qed.

(** X10. A negative limit counts as set: the crawl is cut to one page and the
    listing loses its last [-limit] links. *)
Theorem get_remote_bulletins_negative_limit (self : Scraper) (fuel : nat) (n : Z)
    (w : World) :
  n < 0 →
  let self' := with_max_pages (Pages 1) self in
  get_remote_bulletins unicode_decimal urljoin fuel self (Some n) w =
    (returned (λ all : list Link, take (length all - Z.to_nat (- n)) all)
       (get_document_links unicode_decimal urljoin fuel self' w).1,
     (get_document_links unicode_decimal urljoin fuel self' w).2).
Proof.
  intros Hn self'. unfold get_remote_bulletins, self'. cbn [truthy from_option id].
  rewrite (proj2 (Z.eqb_neq n 0)) by lia. cbn [negb andb].
  rewrite bool_decide_eq_true_2 by lia.
  rewrite Z.max_l.
  2: { assert (n / 20 < 0); [|lia]. apply Z.div_lt_upper_bound; lia. }
  destruct (get_document_links _ _ _ _ _) as [all w']; cbn [fst snd].
  unfold slice_to. by rewrite (proj2 (Z.leb_gt 0 n)) by lia.
Qed.

(** X11. The check is consistent: the new bulletins are remote bulletins, in
    the order of the listing, none of which is known locally, and the
    counts are the sizes of the lists and of the local set. *)
Theorem check_for_new_bulletins_consistent (self : Scraper) (fuel : nat)
    (limit : option Z) (w : World) (results : CheckResults) :
  (check_for_new_bulletins unicode_decimal urljoin fuel self limit w).1 =
    Some (Returned results) →
  ∃ remote,
    (get_remote_bulletins unicode_decimal urljoin fuel self limit w).1 =
      Some (Returned remote) ∧
    total_remote_checked results = length remote ∧
    new_bulletins results `sublist_of` remote ∧
    (∀ l, l ∈ new_bulletins results ↔ l ∈ remote ∧ Some l.1 ∉ get_local_bulletins w) ∧
    new_bulletins_count results = length (new_bulletins results) ∧
    (new_bulletins_count results <= total_remote_checked results)%nat ∧
    total_local results = size (get_local_bulletins w).
Proof.
  unfold check_for_new_bulletins.
  destruct (get_remote_bulletins unicode_decimal urljoin fuel self limit w)
    as [[[remote|]|] w']; [|done..].
  cbn. intros [= <-]. exists remote. cbn. split_and!; try done.
  - apply sublist_filter_stdlib.
  - intros l. rewrite list_elem_of_In, List.filter_In, bool_decide_eq_true.
    by rewrite <- list_elem_of_In.
  - apply List.filter_length_le.
Qed.

End CheckMore.

(** ** The local set *)

Section LocalMore.
Import Bytes BytesFacts.

Lemma read_row_status a b c d :
  Csv.cells (Csv.read_row CSV_FIELDNAMES [a; b; c; d]) !! "status" = Some (Some d).
Proof. vm_compute. reflexivity. Qed.

(** A record of the ledger that counts as held locally. *)
Definition held (name : string) (row : list string) : Prop :=
  ∃ size stamp token,
    row = [name; size; stamp; token] ∧ (token = "downloaded" ∨ token = "skipped").

Lemma local_rows_elem rows : ∀ (acc : gset (option string)) key,
  Forall (λ row, length row = 4%nat) rows →
  key ∈ local_rows acc (Csv.read_row CSV_FIELDNAMES <$> rows) ↔
  key ∈ acc ∨ ∃ name row, key = Some name ∧ row ∈ rows ∧ held name row.
Proof.
  induction rows as [|row rows IH]; intros acc key Hlen.
  - cbn. split; [by left|]. intros [H | (name & row & _ & Hrow & _)]; [done|].
    by apply elem_of_nil in Hrow.
  - apply Forall_cons in Hlen as [Hrow Hrows].
    destruct (length_four row Hrow) as (a & b & c & d & ->).
    cbn [fmap list_fmap local_rows].
    rewrite read_row_status, (proj1 (read_row_written a b c d)). cbn [mjoin option_join].
    destruct (bool_decide (Some d = Some "downloaded") || bool_decide (Some d = Some "skipped"))
      eqn:Hst.
    + rewrite IH by done. rewrite elem_of_union, elem_of_singleton.
      assert (Hheld : held a [a; b; c; d]).
      { exists b, c, d. split; [done|].
        apply orb_true_iff in Hst as [H | H]; apply bool_decide_eq_true in H;
          injection H as ->; [by left | by right]. }
      split.
      * intros [[-> | H] | (name & row & -> & Hin & Hh)].
        -- right. exists a, [a; b; c; d]. split_and!; [done | by left | done].
        -- by left.
        -- right. exists name, row. split_and!; [done | by right | done].
      * intros [H | (name & row & -> & Hin & Hh)]; [left; by right|].
        apply elem_of_cons in Hin as [-> | Hin].
        -- left; left. destruct Hh as (? & ? & ? & [= -> _ _ _] & _). done.
        -- right. by exists name, row.
    + rewrite IH by done. apply orb_false_iff in Hst as [H1 H2].
      apply bool_decide_eq_false in H1, H2.
      split.
      * intros [H | (name & row & -> & Hin & Hh)]; [by left|].
        right. exists name, row. split_and!; [done | by right | done].
      * intros [H | (name & row & -> & Hin & Hh)]; [by left|].
        apply elem_of_cons in Hin as [-> | Hin].
        -- destruct Hh as (? & ? & ? & [= _ _ _ ->] & [-> | ->]);
             [by destruct H1 | by destruct H2].
        -- right. by exists name, row.
Qed.

Lemma glob_pdf_elem d name content :
  (name, content) ∈ glob_pdf d ↔
  files d !! name = Some content ∧ Path.endswith name ".pdf" = true.
Proof.
  unfold glob_pdf. rewrite list_elem_of_In, List.filter_In, <- list_elem_of_In.
  by rewrite elem_of_map_to_list.
Qed.

(** X12. With a ledger of four-field records under the fixed header, a
    filename is in the local set exactly when a file of that name ending
    in [.pdf] is in the output directory, or the ledger has a record of it
    with status [downloaded] or [skipped].  A record with status [failed]
    does not count. *)
Theorem get_local_bulletins_spec (w : World) (rows : list (list string)) (name : string) :
  ledger w = Some (CSV_FIELDNAMES :: rows) →
  Forall (λ row, length row = 4%nat) rows →
  Some name ∈ get_local_bulletins w ↔
  (is_Some (files (disk w) !! name) ∧ Path.endswith name ".pdf" = true) ∨
  (∃ row, row ∈ rows ∧ held name row).
Proof.
  intros Hledger Hlen. unfold get_local_bulletins. rewrite Hledger.
  unfold Csv.DictReader. rewrite filter_not_blank by done.
  rewrite local_rows_elem by done.
  rewrite elem_of_list_to_set, list_elem_of_fmap. split.
  - intros [([n content] & [= ->] & Hin) | (n & row & [= ->] & Hrow)].
    + left. apply glob_pdf_elem in Hin as [Hfile Hpdf]. split; [by eexists | done].
    + right. by exists row.
  - intros [[[content Hfile] Hpdf] | (row & Hrow)].
    + left. exists (name, content). split; [done|]. by apply glob_pdf_elem.
    + right. by exists name, row.
Qed.

End LocalMore.

(** ** Download manager: what a download leaves in storage *)

Section DownloadMore.

(** The chunks of a body put end to end. *)
Definition joined (chunks : list string) : string :=
  foldr (λ chunk rest, chunk +:+ rest) EmptyString chunks.

(** Two states of the file system that differ at most in the file
    [name]: the other files are the same, and so is what fails. *)
Definition same_but (name : string) (d d' : Disk) : Prop :=
  (∀ other, other ≠ name → files d' !! other = files d !! other) ∧
  same_faults d d'.

Lemma same_but_refl name d : same_but name d d.
Proof. split; [done | apply same_faults_refl]. Qed.

Lemma same_but_trans name d1 d2 d3 :
  same_but name d1 d2 → same_but name d2 d3 → same_but name d1 d3.
Proof.
  intros [Hf1 Hs1] [Hf2 Hs2]. split; [|by eapply same_faults_trans].
  intros other Hne. by rewrite Hf2, Hf1.
Qed.

Lemma same_but_insert name content d :
  same_but name d (with_files (<[name := content]> (files d)) d).
Proof.
  split; [|apply same_faults_files]. intros other Hne. cbn. by rewrite lookup_insert_ne.
Qed.

Lemma same_but_delete name d :
  same_but name d (with_files (delete name (files d)) d).
Proof.
  split; [|apply same_faults_files]. intros other Hne. cbn. by rewrite lookup_delete_ne.
Qed.

Lemma write_chunks_spec name chunks : ∀ k d ok d' content,
  files d !! name = Some content →
  write_chunks name k chunks d = (ok, d') →
  same_but name d d' ∧
  (ok = true → files d' !! name = Some (content +:+ joined chunks)).
Proof.
  induction chunks as [|chunk chunks IH]; intros k d ok d' content Hfile; cbn.
  - intros [= <- <-]. split; [apply same_but_refl|]. intros _.
    by rewrite string_app_nil_r.
  - destruct (write_fails d name k); [intros [= <- <-]; split; [apply same_but_refl|done]|].
    rewrite Hfile. cbn [default from_option id]. intros Hrun.
    eapply IH in Hrun as [Hsame Hok]; [|cbn; apply lookup_insert_eq].
    split.
    + eapply same_but_trans; [apply same_but_insert | exact Hsame].
    + intros ->. rewrite Hok by done. by rewrite string_app_assoc.
Qed.

Lemma save_body_spec name r d ok d1 :
  save_body name r d = (ok, d1) →
  same_but name d d1 ∧
  (ok = true → files d1 !! name = Some (joined (body r)) ∧ body_fails r = false) ∧
  (files d !! name = None → files d1 !! name = None → ok = false).
Proof.
  unfold save_body. destruct (open_fails d name).
  { intros [= <- <-]. split_and!; [apply same_but_refl | done | done]. }
  destruct (write_chunks _ _ _ _) as [ok' d2] eqn:Hwrite. intros [= <- <-].
  eapply write_chunks_spec in Hwrite as [Hsame Hok]; [|cbn; apply lookup_insert_eq].
  split_and!.
  - eapply same_but_trans; [apply same_but_insert | exact Hsame].
  - intros [-> Hbody]%andb_true_iff. rewrite Hok by done.
    split; [done | by destruct (body_fails r)].
  - intros _ Hnone. destruct ok'; [|done]. rewrite Hok in Hnone by done. done.
Qed.

Lemma download_bulletin_same_but self bulletin_info w w' result :
  download_bulletin self bulletin_info w = (result, w') →
  same_but bulletin_info.1 (disk w) (disk w') ∧
  ledger w' = ledger w ∧ clock w' = clock w ∧ net w' = net w.
Proof.
  destruct bulletin_info as [bulletin_name pdf_url].
  unfold download_bulletin, file_exists. cbn [fst].
  destruct (exists_fails (disk w) bulletin_name) eqn:Hrefused.
  { intros [= <- <-]. split_and!; [apply same_but_refl | done..]. }
  destruct (files (disk w) !! bulletin_name) as [content|] eqn:Hfile; cbn.
  { intros [= <- <-]. split_and!; [apply same_but_refl | done..]. }
  destruct (make_request_log self pdf_url true w) as (events & H).
  destruct (make_request self pdf_url true w) as [[r|] w1];
    destruct H as (_ & (Hnet & Hclock & Hdisk & Hledger) & _).
  2: { intros [= <- <-]. rewrite Hdisk. split_and!; [apply same_but_refl | done..]. }
  destruct (save_body bulletin_name r (disk w1)) as [ok d1] eqn:Hsave.
  apply save_body_spec in Hsave as (Hsame & _). rewrite Hdisk in Hsame.
  destruct ok; [intros [= <- <-]; by split_and!|].
  destruct (exists_fails d1 bulletin_name); [intros [= <- <-]; by split_and!|].
  destruct (files d1 !! bulletin_name); cbn; [|intros [= <- <-]; by split_and!].
  destruct (unlink_fails d1 bulletin_name); intros [= <- <-]; [by split_and!|].
  split_and!; try done. cbn.
  eapply same_but_trans; [exact Hsame | apply same_but_delete].
Qed.

(** A download that returns met a name the file system accepts. *)
Lemma download_bulletin_accepted self bulletin_info w o w' :
  download_bulletin self bulletin_info w = (Returned o, w') →
  exists_fails (disk w) bulletin_info.1 = false.
Proof.
  destruct bulletin_info as [bulletin_name pdf_url].
  unfold download_bulletin, file_exists. cbn [fst].
  by destruct (exists_fails (disk w) bulletin_name).
Qed.

(** X13. Whatever a download does, returning or raising, it touches no file
    but its own target, and neither the ledger nor the clock. *)
Theorem download_bulletin_frame (self : Scraper) (bulletin_info : Link) (w w' : World)
    (result : Raising Outcome) :
  download_bulletin self bulletin_info w = (result, w') →
  same_but bulletin_info.1 (disk w) (disk w') ∧
  ledger w' = ledger w ∧ clock w' = clock w ∧ net w' = net w.
Proof. apply download_bulletin_same_but. Qed.

(** X14. A returned outcome tells the truth about storage: after [skipped] or
    [downloaded] the file is there and the size recorded is that of the
    stored content, rounded; after [failed] the file is absent and the
    size recorded is 0.  No other status is returned. *)
Theorem download_bulletin_outcome_truthful (self : Scraper) (bulletin_info : Link)
    (w w' : World) (o : Outcome) :
  download_bulletin self bulletin_info w = (Returned o, w') →
  file_name o = bulletin_info.1 ∧
  ((status o = "skipped" ∨ status o = "downloaded") ∧
   (∃ content, files (disk w') !! bulletin_info.1 = Some content ∧
               file_size_mb o = rounded_size_mb content) ∨
   status o = "failed" ∧ files (disk w') !! bulletin_info.1 = None ∧
   file_size_mb o = PInt 0).
Proof.
  intros Hrun. apply download_bulletin_outcome in Hrun as (Hname & _ & Hcases).
  split; [done|].
  destruct Hcases as [(Hst & _ & -> & content & Hfile & Hsize) |
                      [(Hst & _ & Hsize & _ & Hfile) | (Hst & _ & _ & content & Hfile & Hsize)]].
  - left. split; [by left | by exists content].
  - right. done.
  - left. split; [by right | by exists content].
Qed.

(** X15. A bulletin that is downloaded holds exactly the bytes of the response
    body, chunk after chunk. *)
Theorem download_bulletin_stores_body (self : Scraper) (bulletin_name pdf_url : string)
    (w w1 w' : World) (r : Response) (o : Outcome) :
  files (disk w) !! bulletin_name = None →
  make_request self pdf_url true w = (Some r, w1) →
  download_bulletin self (bulletin_name, pdf_url) w = (Returned o, w') →
  status o = "downloaded" →
  files (disk w') !! bulletin_name = Some (joined (body r)) ∧
  file_size_mb o = rounded_size_mb (joined (body r)).
Proof.
  intros Hfile Hreq. unfold download_bulletin, file_exists.
  destruct (exists_fails (disk w) bulletin_name); [done|].
  rewrite Hfile. cbn. rewrite Hreq.
  destruct (save_body bulletin_name r (disk w1)) as [ok d1] eqn:Hsave.
  apply save_body_spec in Hsave as (_ & Hok & _).
  destruct ok.
  - destruct (Hok eq_refl) as [Hstored _]. intros [= <- <-] _. cbn.
    by rewrite Hstored.
  - destruct (exists_fails d1 bulletin_name); [done|].
    destruct (files d1 !! bulletin_name); cbn;
      [destruct (unlink_fails d1 bulletin_name)|]; by intros [= <- <-].
Qed.

(** X16. Downloading again a bulletin that was downloaded or skipped sends no
    request and changes nothing: the second outcome is [skipped], with the
    same size and the timestamp [existing]. *)
Theorem download_bulletin_again_skips (self : Scraper) (bulletin_info : Link)
    (w w' : World) (o : Outcome) :
  download_bulletin self bulletin_info w = (Returned o, w') →
  status o ≠ "failed" →
  download_bulletin self bulletin_info w' =
    (Returned {| file_name := file_name o; file_size_mb := file_size_mb o;
                 download_timestamp := "existing"; status := "skipped" |}, w').
Proof.
  intros Hrun Hst.
  pose proof (download_bulletin_accepted _ _ _ _ _ Hrun) as Haccepted.
  pose proof (download_bulletin_same_but _ _ _ _ _ Hrun) as ((_ & Hfaults & _) & _).
  apply download_bulletin_outcome in Hrun as (Hname & _ & Hcases).
  assert (Hstored : ∃ content, files (disk w') !! bulletin_info.1 = Some content ∧
                               file_size_mb o = rounded_size_mb content).
  { destruct Hcases as [(_ & _ & -> & content & Hfile & Hsize) |
                        [(Hfailed & _) | (_ & _ & _ & content & Hfile & Hsize)]];
      [by exists content | done | by exists content]. }
  destruct Hstored as (content & Hfile & Hsize).
  destruct bulletin_info as [bulletin_name pdf_url]. cbn [fst] in *.
  unfold download_bulletin, file_exists. rewrite Hfaults, Haccepted, Hfile, Hname, Hsize.
  done.
Qed.

End DownloadMore.

(** ** Ledger: odd files, order and batches *)

Section LedgerMore.

(** X17. In a ledger of four-field records under the fixed header, the last
    record of a filename is the one that is kept. *)
Theorem get_existing_files_last_wins (rows : list (list string)) (name : string) :
  Forall (λ row, length row = 4%nat) rows →
  get_existing_files (Some (CSV_FIELDNAMES :: rows)) !! Some name =
  (λ row, Loaded (Csv.read_row CSV_FIELDNAMES row)) <$>
    last (List.filter (λ row, bool_decide (List.hd "" row = name)) rows).
Proof.
  intros Hlen. rewrite get_existing_files_written by done.
  rewrite (foldl_insert_lookup (λ row, Some (List.hd "" row))
             (λ row, Loaded (Csv.read_row CSV_FIELDNAMES row))).
  rewrite lookup_empty.
  assert (Hfilter :
    List.filter (λ row : list string, bool_decide (Some (List.hd "" row) = Some name)) rows =
    List.filter (λ row, bool_decide (List.hd "" row = name)) rows).
  { apply List.filter_ext. intros row. apply bool_decide_ext. naive_solver. }
  rewrite Hfilter. by destruct (last _).
Qed.

Lemma foldl_insert_cells_None (l : list (string * option string)) :
  ∀ (acc : gmap string (option string)) key,
    key ∉ l.*1 →
    foldl (λ d (kv : string * option string), <[kv.1 := kv.2]> d) acc l !! key = acc !! key.
Proof.
  induction l as [|[k v] l IH]; intros acc key Hkey; [done|].
  cbn in *. rewrite not_elem_of_cons in Hkey. destruct Hkey as [Hne Hkey].
  rewrite IH by done. by rewrite lookup_insert_ne.
Qed.

Lemma zip_row_None fieldnames row key :
  key ∉ fieldnames → Csv.zip_row fieldnames row !! key = None.
Proof.
  intros Hkey. unfold Csv.zip_row. rewrite foldl_insert_cells_None; [done|].
  rewrite fmap_app, elem_of_app. intros [Hin | Hin].
  - apply list_elem_of_fmap in Hin as ([k v] & -> & Hin).
    apply elem_of_zip_l in Hin. done.
  - rewrite <- list_fmap_compose in Hin.
    apply list_elem_of_fmap in Hin as (k & -> & Hin). cbn in Hkey.
    apply Hkey. by eapply elem_of_sublist; [|apply sublist_drop].
Qed.

(** X18. A ledger whose header has no [file_name] column is read as empty.
    The next save sends to the writer what a save on a missing file sends,
    the new results alone: unless the file cannot be opened for writing,
    in which case it stays as it is, the records it held are lost. *)
Theorem ledger_without_file_name_is_dropped (header : list string)
    (rows : list (list string)) (results : list Outcome) :
  "file_name" ∉ header →
  get_existing_files (Some (header :: rows)) = ∅ ∧
  (∀ fault, fault ≠ OpenFails →
     create_csv_summary fault (Some (header :: rows)) results =
       create_csv_summary fault None results) ∧
  create_csv_summary OpenFails (Some (header :: rows)) results = Some (header :: rows).
Proof.
  intros Hheader.
  assert (Hempty : get_existing_files (Some (header :: rows)) = ∅).
  { unfold get_existing_files, Csv.DictReader.
    destruct (List.filter _ rows) as [|row rows']; [done|].
    cbn. by rewrite zip_row_None. }
  split_and!; [done | | done].
  intros fault Hfault. unfold create_csv_summary. rewrite Hempty.
  destruct fault; [done | by destruct Hfault | done].
Qed.

Lemma merge_results_cons prior o results :
  merge_results prior (o :: results) =
  merge_results (<[Some (file_name o) := Result o]> prior) results.
Proof. done. Qed.

Lemma merge_results_Permutation results1 results2 : ∀ prior,
  results1 ≡ₚ results2 → NoDup (file_name <$> results1) →
  merge_results prior results1 = merge_results prior results2.
Proof.
  intros prior Hperm. revert prior.
  induction Hperm as [|o l1 l2 _ IH|o1 o2 l|l1 l2 l3 Hp1 IH1 Hp2 IH2]; intros prior Hnodup.
  - done.
  - rewrite !merge_results_cons. apply IH. by apply NoDup_cons in Hnodup as [_ ?].
  - rewrite !merge_results_cons. f_equal. apply insert_insert_ne.
    cbn in Hnodup. apply NoDup_cons in Hnodup as [Hne _].
    rewrite not_elem_of_cons in Hne. intros [= Heq]. by destruct Hne as [Hne _].
  - rewrite IH1 by done. apply IH2. by rewrite <- Hp1.
Qed.

(** X19. The downloads of a batch end in any order: as long as their filenames
    are distinct, the ledger saved does not depend on the order of the
    results, whether or not the file system lets the save through. *)
Theorem create_csv_summary_order_free (fault : Fault) (f : LedgerFile)
    (results1 results2 : list Outcome) :
  results1 ≡ₚ results2 → NoDup (file_name <$> results1) →
  create_csv_summary fault f results1 = create_csv_summary fault f results2.
Proof.
  intros Hperm Hnodup. unfold create_csv_summary.
  by rewrite (merge_results_Permutation results1 results2).
Qed.

(** X20. Two saves in a row leave the ledger that one save of both batches
    leaves, when every record of the prior ledger can be written back and
    no write to the ledger file is cut short. *)
Theorem create_csv_summary_batches (fault : Fault) (f : LedgerFile)
    (results1 results2 : list Outcome) :
  writable (get_existing_files f) →
  (∀ kept, fault ≠ WriteFails kept) →
  create_csv_summary fault (create_csv_summary fault f results1) results2 =
  create_csv_summary fault f (results1 ++ results2).
Proof.
  intros Hprior Hwhole.
  destruct fault as [| |kept]; [|done|by destruct (Hwhole kept)].
  rewrite (create_csv_summary_written f results1) by done.
  rewrite (create_csv_summary_written f (results1 ++ results2)) by done.
  set (m1 := merge_results (get_existing_files f) results1).
  assert (Hw : writable m1) by by apply merge_results_writable.
  assert (Hk : keyed m1) by apply merge_results_keyed, get_existing_files_keyed.
  destruct (read_back_writable m1 Hw Hk) as [Hw' Hk'].
  rewrite create_csv_summary_written;
    rewrite get_existing_files_ledger_rows by done; [|done].
  assert (Happ : merge_results (get_existing_files f) (results1 ++ results2) =
                 merge_results m1 results2).
  { unfold merge_results, m1. by rewrite foldl_app. }
  rewrite Happ. do 2 f_equal. apply ledger_rows_ext.
  - intros name. by rewrite !merge_results_dom, lookup_fmap, fmap_is_Some.
  - intros name. rewrite !merge_results_lookup, lookup_fmap.
    destruct (last_result name results2) as [o|]; [done|].
    destruct (m1 !! Some name) as [e|] eqn:He; [|done].
    change (fields (read_back e) = fields e).
    destruct (Hw _ _ He) as [_ Hrow].
    destruct (fields_read_back e name (Hk _ _ He) Hrow) as [Hfields _].
    unfold fields at 1. by rewrite Hfields.
Qed.

(** X21. Whatever the prior file holds, a save sends to the writer the fixed
    header and records of four fields, each the record of an entry of the
    merged dictionary.  When the file system raises no error the file
    holds these records, and such a file can always be written back.  When
    the file cannot be opened for writing it stays as it was, whatever it
    holds; when a write fails it holds what had reached it of these
    records. *)
Theorem create_csv_summary_shape (f : LedgerFile) (results : list Outcome) :
  ∃ rows,
    (∀ fault,
       create_csv_summary fault f results =
         match fault with
         | NoFault => Some (CSV_FIELDNAMES :: rows)
         | OpenFails => f
         | WriteFails kept => Some (kept (CSV_FIELDNAMES :: rows))
         end) ∧
    Forall (λ row, length row = 4%nat) rows ∧
    (∀ row, row ∈ rows →
       ∃ key e, merge_results (get_existing_files f) results !! key = Some e ∧
                dict_to_list e = Some row) ∧
    writable (get_existing_files (create_csv_summary NoFault f results)).
Proof.
  unfold create_csv_summary.
  set (m := merge_results (get_existing_files f) results).
  assert (Hshape : ∃ rows,
    summary_rows m = CSV_FIELDNAMES :: rows ∧
    ∀ row, row ∈ rows → ∃ key e, m !! key = Some e ∧ dict_to_list e = Some row).
  { unfold summary_rows. destruct (sorted _) as [filenames|].
    - rewrite write_rows_cons. eexists. split; [done|].
      intros row [Hin | H]%write_rows_elem; [by apply elem_of_nil in Hin | done].
    - exists []. split; [done|]. by intros row ?%elem_of_nil. }
  destruct Hshape as (rows & -> & Hrows).
  assert (Hlen : Forall (λ row, length row = 4%nat) rows).
  { apply Forall_forall. intros row (key & e & _ & Hrow)%Hrows.
    by apply (dict_to_list_length e). }
  exists rows. split_and!; [by intros [] | done | done | by apply writable_written].
Qed.

End LedgerMore.

(** ** Validation, cleanup and statistics *)

Section InventoryMore.

Lemma is_valid_empty d name :
  files d !! name = Some EmptyString → _is_valid_pdf_flexible d name = false.
Proof. unfold _is_valid_pdf_flexible. by intros ->. Qed.

Lemma is_valid_same_file d d' name :
  files d' !! name = files d !! name → same_faults d d' →
  _is_valid_pdf_flexible d' name = _is_valid_pdf_flexible d name.
Proof.
  unfold _is_valid_pdf_flexible. intros -> (_ & _ & _ & Hread & _). by rewrite Hread.
Qed.

Lemma validate_pdf_files_names d : (validate_pdf_files d).*1 = (glob_pdf d).*1.
Proof.
  unfold validate_pdf_files. rewrite <- list_fmap_compose.
  apply list_fmap_ext. intros _ [name content] _. cbn. by destruct (_ =? _).
Qed.

Lemma validate_pdf_files_elem (d : Disk) :
  NoDup (validate_pdf_files d).*1 ∧
  ∀ name verdict,
    (name, verdict) ∈ validate_pdf_files d ↔
    is_Some (files d !! name) ∧ Path.endswith name ".pdf" = true ∧
    verdict = _is_valid_pdf_flexible d name.
Proof.
  split.
  - rewrite validate_pdf_files_names. unfold glob_pdf.
    apply (sublist_NoDup _ (map_to_list (files d)).*1); [apply NoDup_fst_map_to_list|].
    apply fmap_sublist, sublist_filter_stdlib.
  - intros name verdict. unfold validate_pdf_files. rewrite list_elem_of_fmap. split.
    + intros ([n content] & Heq & [Hfile Hpdf]%glob_pdf_elem). cbn in Heq.
      assert (Hverdict : verdict = _is_valid_pdf_flexible d n ∧ name = n).
      { destruct (Bytes.len content =? 0) eqn:Hlen; injection Heq as -> ->; [|done].
        split; [|done]. apply Z.eqb_eq, len_zero in Hlen. subst content.
        by rewrite is_valid_empty. }
      destruct Hverdict as [-> ->]. split_and!; [by eexists | done | done].
    + intros ([content Hfile] & Hpdf & ->). exists (name, content). split.
      * cbn. destruct (Bytes.len content =? 0) eqn:Hlen; [|done].
        apply Z.eqb_eq, len_zero in Hlen. subst content. by rewrite is_valid_empty.
      * by apply glob_pdf_elem.
Qed.

(** X22. The validation results hold one entry for each file of the output
    directory whose name ends in [.pdf], and the entry is the verdict of
    the classifier: the separate test for empty files changes nothing. *)
Theorem validate_pdf_files_spec (d : Disk) :
  NoDup (validate_pdf_files d).*1 ∧
  ∀ name verdict,
    (name, verdict) ∈ validate_pdf_files d ↔
    is_Some (files d !! name) ∧ Path.endswith name ".pdf" = true ∧
    verdict = _is_valid_pdf_flexible d name.
Proof. apply validate_pdf_files_elem. Qed.

(** The files a cleanup lists. *)
Lemma cleanup_list_elem dry_run d name :
  name ∈ (cleanup_invalid_files dry_run d).1 ↔
  is_Some (files d !! name) ∧ Path.endswith name ".pdf" = true ∧
  _is_valid_pdf_flexible d name = false.
Proof.
  assert (Hlist : (cleanup_invalid_files dry_run d).1 =
    (List.filter (λ kv : string * bool, negb kv.2) (validate_pdf_files d)).*1).
  { unfold cleanup_invalid_files. destruct (_.*1) eqn:Hl; [done|]. by destruct dry_run. }
  rewrite Hlist, list_elem_of_fmap. split.
  - intros ([n v] & -> & Hin). apply list_elem_of_In, List.filter_In in Hin as [Hin Hv].
    apply list_elem_of_In, (proj2 (validate_pdf_files_elem d)) in Hin as (Hfile & Hpdf & ->).
    cbn in *. split_and!; [done | done |]. by destruct (_is_valid_pdf_flexible d n).
  - intros (Hfile & Hpdf & Hv). exists (name, false). split; [done|].
    apply list_elem_of_In, List.filter_In. split; [|done].
    apply list_elem_of_In, (proj2 (validate_pdf_files_elem d)). by rewrite Hv.
Qed.

Lemma cleanup_files d :
  (cleanup_invalid_files false d).2 = unlink_each (cleanup_invalid_files false d).1 d.
Proof. unfold cleanup_invalid_files. by destruct (_.*1). Qed.

Lemma unlink_each_faults names : ∀ d, same_faults d (unlink_each names d).
Proof.
  induction names as [|n names IH]; intros d; cbn [unlink_each];
    [apply same_faults_refl|].
  destruct (unlink_fails d n); [apply IH|].
  eapply same_faults_trans; [apply same_faults_files | apply IH].
Qed.

(** X23. A cleanup never adds a file nor changes one, and the only files it
    removes are the invalid [.pdf] files of a real run whose removal does
    not fail: valid files and files of other kinds stay. *)
Theorem cleanup_removes_only_invalid (dry_run : bool) (d : Disk) (name : string) :
  files (cleanup_invalid_files dry_run d).2 !! name = files d !! name ∨
  (files (cleanup_invalid_files dry_run d).2 !! name = None ∧
   dry_run = false ∧ unlink_fails d name = false ∧
   Path.endswith name ".pdf" = true ∧ _is_valid_pdf_flexible d name = false).
Proof.
  destruct dry_run; [left; by rewrite cleanup_dry_run|].
  rewrite cleanup_files, unlink_each_lookup.
  case_bool_decide as Hin; [|by left].
  destruct (unlink_fails d name) eqn:Hfail; [by left|]. right.
  apply cleanup_list_elem in Hin as (_ & Hpdf & Hv). done.
Qed.

(** X24. When no removal fails, a real cleanup leaves only valid [.pdf] files:
    a validation after it finds no invalid file, and a second cleanup has
    nothing to list. *)
Theorem cleanup_leaves_valid (d : Disk) :
  (∀ name, unlink_fails d name = false) →
  let d' := (cleanup_invalid_files false d).2 in
  (∀ name verdict, (name, verdict) ∈ validate_pdf_files d' → verdict = true) ∧
  (cleanup_invalid_files false d').1 = [].
Proof.
  intros Hfaults d'.
  assert (Hvalid : ∀ name, is_Some (files d' !! name) → Path.endswith name ".pdf" = true →
                           _is_valid_pdf_flexible d' name = true).
  { intros name Hfile Hpdf. unfold d' in *.
    assert (Hlookup : files (cleanup_invalid_files false d).2 !! name =
              if bool_decide (name ∈ (cleanup_invalid_files false d).1)
              then None else files d !! name).
    { rewrite cleanup_files, unlink_each_lookup, Hfaults. by rewrite andb_true_r. }
    destruct (bool_decide (name ∈ (cleanup_invalid_files false d).1)) eqn:Hin.
    { rewrite Hlookup in Hfile. by destruct Hfile. }
    rewrite (is_valid_same_file d _ name Hlookup)
      by (rewrite cleanup_files; apply unlink_each_faults).
    apply bool_decide_eq_false in Hin.
    destruct (_is_valid_pdf_flexible d name) eqn:Hv; [done|].
    destruct Hin. apply cleanup_list_elem. by rewrite <- Hlookup. }
  split.
  - intros name verdict (Hfile & Hpdf & ->)%(proj2 (validate_pdf_files_elem d')).
    by apply Hvalid.
  - destruct (cleanup_invalid_files false d').1 as [|name names] eqn:Hlist; [done|].
    assert (Hin : name ∈ (cleanup_invalid_files false d').1) by (rewrite Hlist; left).
    apply cleanup_list_elem in Hin as (Hfile & Hpdf & Hv).
    by rewrite Hvalid in Hv.
Qed.

Lemma count_valid_le l : (count_valid l <= length l)%nat.
Proof. apply List.filter_length_le. Qed.

Lemma count_invalid l :
  (length l - count_valid l)%nat =
  length (List.filter (λ kv : string * bool, negb kv.2) l).
Proof.
  unfold count_valid. induction l as [|[name v] l IH]; [done|].
  cbn. destruct v; cbn.
  - rewrite <- IH. done.
  - rewrite <- IH. pose proof (List.filter_length_le snd l). lia.
Qed.

(** X25. The statistics add up: valid and invalid files together are all the
    [.pdf] files, the invalid ones are as many as a cleanup lists, and
    without any [.pdf] file the average is 0 and nothing is divided. *)
Theorem get_bulletin_statistics_counts (rounded_average : Z → nat → pynum) (d : Disk) :
  let stats := get_bulletin_statistics rounded_average d in
  (valid_files stats + invalid_files stats = total_files stats)%nat ∧
  invalid_files stats = length (cleanup_invalid_files true d).1 ∧
  (total_files stats = 0%nat →
   average_size_mb stats = PInt 0 ∧ total_size_mb stats = PFloat2 0 ∧
   valid_files stats = 0%nat ∧ invalid_files stats = 0%nat).
Proof.
  intros stats. unfold stats, get_bulletin_statistics. cbn.
  assert (Hlen : length (validate_pdf_files d) = length (glob_pdf d)).
  { unfold validate_pdf_files. by rewrite length_fmap. }
  split_and!.
  - pose proof (count_valid_le (validate_pdf_files d)). lia.
  - rewrite count_invalid, cleanup_dry_run. cbn. by rewrite length_fmap.
  - intros Hnone. unfold validate_pdf_files, count_valid.
    destruct (glob_pdf d); [done|]. done.
Qed.

End InventoryMore.

(** ** Sizes *)

Section SizeMore.

Lemma round2_error num den :
  0 < den → - den <= 2 * (100 * num - den * Text.round2 num den) <= den.
Proof.
  intros Hden. unfold Text.round2.
  pose proof (Z.div_mod (num * 100) den ltac:(lia)) as Hdiv.
  pose proof (Z.mod_pos_bound (num * 100) den Hden) as Hmod.
  destruct (Z.ltb_spec (2 * (num * 100 mod den)) den);
    [|destruct (Z.ltb_spec den (2 * (num * 100 mod den)));
      [|destruct (Z.even (num * 100 / den))]]; lia.
Qed.

(** X26. The size a result records is a non-negative number of hundredths of
    a mebibyte, at most half a hundredth away from the size of the file. *)
Theorem rounded_size_mb_accurate (content : string) :
  ∃ h, rounded_size_mb content = PFloat2 h ∧ 0 <= h ∧
       Z.abs (100 * Bytes.len content - 1048576 * h) <= 524288.
Proof.
  unfold rounded_size_mb, get_file_size_mb. eexists. split; [done|].
  change (1024 * 1024) with 1048576.
  pose proof (round2_error (Bytes.len content) 1048576 ltac:(lia)).
  split; [|lia]. apply round2_nonneg; [|lia]. unfold Bytes.len. lia.
Qed.

End SizeMore.

(** ** Download manager: the raising path *)

Section RaiseMore.

(** X27. A download raises in two situations only.  Either the file system
    refuses the name, so that the first test for the file raises: then
    nothing is requested and nothing changes.  Or the file was absent, the
    server answered 200, saving the body failed after the file had been
    created, and removing the partial file failed too: then the partial
    file is left in storage. *)
Theorem download_bulletin_raises_only (self : Scraper) (bulletin_info : Link)
    (w : World) :
  (exists_fails (disk w) bulletin_info.1 = true →
   download_bulletin self bulletin_info w = (Raised, w)) ∧
  ∀ w', download_bulletin self bulletin_info w = (Raised, w') →
    exists_fails (disk w) bulletin_info.1 = true ∧ w' = w ∨
    exists_fails (disk w) bulletin_info.1 = false ∧
    files (disk w) !! bulletin_info.1 = None ∧
    (∃ r w1, make_request self bulletin_info.2 true w = (Some r, w1)) ∧
    unlink_fails (disk w) bulletin_info.1 = true ∧
    is_Some (files (disk w') !! bulletin_info.1).
Proof.
  destruct bulletin_info as [bulletin_name pdf_url].
  unfold download_bulletin, file_exists. cbn [fst snd].
  destruct (exists_fails (disk w) bulletin_name) eqn:Hrefused.
  { split; [done|]. intros w' [= <-]. by left. }
  split; [done|]. intros w'.
  destruct (files (disk w) !! bulletin_name) as [content|] eqn:Hfile; cbn; [done|].
  destruct (make_request_log self pdf_url true w) as (events & H).
  destruct (make_request self pdf_url true w) as [[r|] w1];
    destruct H as (_ & (_ & _ & Hdisk & _) & _); [|done].
  pose proof (save_body_faults bulletin_name r (disk w1))
    as (Hsame & _ & _ & _ & Hunlink & _).
  destruct (save_body bulletin_name r (disk w1)) as [ok d1] eqn:Hsave.
  cbn [snd] in Hsame, Hunlink. rewrite Hsame, Hdisk, Hrefused.
  destruct ok; [done|].
  destruct (files d1 !! bulletin_name) as [partial|] eqn:Hthere; cbn; [|done].
  destruct (unlink_fails d1 bulletin_name) eqn:Hfails; [|done].
  intros [= <-]. right. split_and!; [done | done | by eexists _, _ | | by eexists].
  by rewrite <- Hdisk, <- Hunlink.
Qed.

End RaiseMore.

(** ** Cleanup: what a real run removes *)

Section CleanupMore.

(** X28. In a real run every listed file whose removal does not fail is gone
    afterwards, whatever happens to the others: a failed removal does not
    stop the loop, and the file it failed on stays as it was. *)
Theorem cleanup_deletes_listed (d : Disk) (name : string) :
  name ∈ (cleanup_invalid_files false d).1 →
  files (cleanup_invalid_files false d).2 !! name =
    if unlink_fails d name then files d !! name else None.
Proof.
  intros Hin. rewrite cleanup_files, unlink_each_lookup.
  rewrite bool_decide_eq_true_2 by done. by destruct (unlink_fails d name).
Qed.

End CleanupMore.

(** ** Orchestrator *)

Section RunMore.

Variable unicode_decimal : N → bool.
Variable urljoin : string → list N → option string.

Lemma crawl_page_same_world self links page_num w :
  same_world w (step_world (crawl_page unicode_decimal urljoin self links page_num w)).
Proof.
  unfold crawl_page.
  destruct (make_request_log self (page_url page_num) false w) as (events & H).
  destruct (make_request self (page_url page_num) false w) as [[r|] w1];
    destruct H as (_ & Hsame & _); [|done].
  rewrite scan_page_spec.
  destruct (page_raises _ _ _); [done|].
  destruct (negb (negb _)); [|destruct (negb _)]; cbn; done.
Qed.

Lemma crawl_same_world self fuel : ∀ links page_num w,
  same_world w (crawl unicode_decimal urljoin fuel self links page_num w).2.
Proof.
  induction fuel as [|fuel IH]; intros links page_num w; cbn [crawl].
  - destruct (below _ _); apply same_world_refl.
  - destruct (below _ _); [|apply same_world_refl].
    pose proof (crawl_page_same_world self links page_num w) as Hstep.
    destruct (crawl_page unicode_decimal urljoin self links page_num w)
      as [l1 w1 | l1 w1 | l1 w1]; cbn in Hstep; [done | | done].
    eapply same_world_trans; [exact Hstep | apply IH].
Qed.

(** The comprehension that keeps the links whose file is absent raises
    when [exists] raises on one of the names. *)
Lemma not_yet_stored_spec (bulletin_links : list Link) (d : Disk) :
  not_yet_stored bulletin_links d =
    if existsb (λ l : Link, exists_fails d l.1) bulletin_links then Raised
    else Returned (List.filter (λ l : Link, bool_decide (files d !! l.1 = None))
                     bulletin_links).
Proof.
  induction bulletin_links as [|l ls IH]; [done|].
  cbn [not_yet_stored existsb List.filter]. unfold file_exists.
  destruct (exists_fails d l.1); [done|]. cbn [orb]. rewrite IH.
  destruct (existsb _ ls); [done|].
  destruct (files d !! l.1) as [content|]; done.
Qed.

Lemma not_yet_stored_raises (bulletin_links : list Link) (d : Disk) (l : Link) :
  l ∈ bulletin_links → exists_fails d l.1 = true →
  not_yet_stored bulletin_links d = Raised.
Proof.
  intros Hin Hrefused. rewrite not_yet_stored_spec.
  assert (existsb (λ l : Link, exists_fails d l.1) bulletin_links = true) as ->; [|done].
  apply existsb_exists. exists l. split; [by apply list_elem_of_In | done].
Qed.

Lemma not_yet_stored_returns (bulletin_links : list Link) (d : Disk) :
  (∀ l : Link, l ∈ bulletin_links → exists_fails d l.1 = false) →
  not_yet_stored bulletin_links d =
    Returned (List.filter (λ l : Link, bool_decide (files d !! l.1 = None)) bulletin_links).
Proof.
  intros Haccepted. rewrite not_yet_stored_spec.
  destruct (existsb _ bulletin_links) eqn:Hrefused; [|done].
  apply existsb_exists in Hrefused as (l & Hin%list_elem_of_In & Hrefused).
  by rewrite Haccepted in Hrefused.
Qed.

Lemma not_yet_stored_returned (bulletin_links new_bulletins : list Link) (d : Disk) :
  not_yet_stored bulletin_links d = Returned new_bulletins →
  new_bulletins =
    List.filter (λ l : Link, bool_decide (files d !! l.1 = None)) bulletin_links ∧
  ∀ l : Link, l ∈ bulletin_links → exists_fails d l.1 = false.
Proof.
  rewrite not_yet_stored_spec.
  destruct (existsb _ bulletin_links) eqn:Hrefused; [done|].
  intros [= <-]. split; [done|]. intros l Hin.
  destruct (exists_fails d l.1) eqn:Hl; [|done].
  assert (existsb (λ l : Link, exists_fails d l.1) bulletin_links = true); [|congruence].
  apply existsb_exists. exists l. split; [by apply list_elem_of_In | done].
Qed.

(** The batch of downloads: one outcome per bulletin, in order; no file
    touched but those of the batch, and no change in what fails; and
    nothing skipped when the files were absent and the names distinct. *)
Lemma download_all_spec self new_bulletins : ∀ w result w',
  download_all self new_bulletins w = (result, w') →
  ledger w' = ledger w ∧ same_faults (disk w) (disk w') ∧
  (∀ name, name ∉ new_bulletins.*1 → files (disk w') !! name = files (disk w) !! name) ∧
  ∀ results, result = Returned results →
    file_name <$> results = new_bulletins.*1 ∧
    (NoDup new_bulletins.*1 →
     (∀ name, name ∈ new_bulletins.*1 → files (disk w) !! name = None) →
     ∀ o, o ∈ results → status o = "downloaded" ∨ status o = "failed").
Proof.
  induction new_bulletins as [|bulletin bs IH]; intros w result w'; cbn [download_all].
  { intros [= <- <-]. split_and!; [done | apply same_faults_refl | done |].
    intros results [= <-]. split; [done|]. intros _ _ o Ho. by apply elem_of_nil in Ho. }
  destruct (download_bulletin self bulletin w) as [res1 w1] eqn:Hone.
  destruct (download_all self bs w1) as [res2 w2] eqn:Hrest.
  intros [= <- <-].
  pose proof (download_bulletin_same_but _ _ _ _ _ Hone) as ((Hframe & Hfaults) & Hledger & _).
  destruct (IH _ _ _ Hrest) as (Hledger' & Hfaults' & Hframe' & Hres).
  split_and!.
  - congruence.
  - by eapply same_faults_trans.
  - intros name Hname. rewrite fmap_cons, not_elem_of_cons in Hname.
    destruct Hname as [Hne Hname]. rewrite Hframe' by done. by apply Hframe.
  - intros results Hresults.
    destruct res1 as [o|]; [|done]. destruct res2 as [os|]; [|done].
    injection Hresults as <-.
    destruct (Hres os eq_refl) as [Hnames Hstatus].
    pose proof (download_bulletin_outcome _ _ _ _ _ Hone) as (Hname & _ & Hcases).
    split; [by rewrite !fmap_cons, Hnames, Hname|].
    rewrite fmap_cons. intros [Hnotin Hnodup]%NoDup_cons Habsent o' Ho'.
    apply elem_of_cons in Ho' as [-> | Ho'].
    + destruct Hcases as [(_ & _ & _ & content & Hfile & _) | [(Hst & _) | (Hst & _)]];
        [|by right | by left].
      rewrite Habsent in Hfile by left. done.
    + apply Hstatus; [done | | done].
      intros name Hin. rewrite Hframe.
      * apply Habsent. by right.
      * intros ->. done.
Qed.

(** A batch returns when the file system accepts every name of it and no
    removal of a file of it fails. *)
Lemma download_all_returns self new_bulletins : ∀ w,
  (∀ l : Link, l ∈ new_bulletins →
     exists_fails (disk w) l.1 = false ∧ unlink_fails (disk w) l.1 = false) →
  ∃ results, (download_all self new_bulletins w).1 = Returned results.
Proof.
  induction new_bulletins as [|bulletin bs IH]; intros w Hsound; cbn [download_all].
  { by eexists. }
  destruct (Hsound bulletin) as [Haccepted Hunlink]; [by left|].
  destruct (download_bulletin_returns self bulletin w Haccepted Hunlink) as [o Ho].
  destruct (download_bulletin self bulletin w) as [res1 w1] eqn:Hone.
  cbn [fst] in Ho. subst res1.
  apply download_bulletin_same_but in Hone as ((_ & Hexists & _ & _ & _ & Hfaults & _) & _).
  destruct (IH w1) as [os Hos].
  { intros l Hl. rewrite Hexists, Hfaults. apply Hsound. by right. }
  destruct (download_all self bs w1) as [res2 w2]. cbn [fst] in Hos. subst res2.
  by eexists.
Qed.

(** X29. A run that returns records its whole batch.  When the ledger on disk
    is one the scraper can rewrite, the links crawled whose file is absent
    are the batch, and the file system accepted the name of every link
    crawled.  If the batch is empty the ledger is left untouched.
    Otherwise the pool had at least one worker, and the ledger is saved
    once, with one result per link of the batch (in the order the
    downloads ended), each [downloaded] or [failed] and never [skipped];
    when the file system raises no error on that save, every bulletin of
    the batch has a row afterwards.  No file outside the batch is
    touched. *)
Theorem run_records_batch (fuel : nat) (self : Scraper) (w w1 w' : World)
    (bulletin_links : list Link) :
  writable (get_existing_files (ledger w)) →
  get_document_links unicode_decimal urljoin fuel self w =
    (Some (Returned bulletin_links), w1) →
  run unicode_decimal urljoin fuel self w = (Some (Returned ()), w') →
  let new_bulletins :=
    List.filter (λ l : Link, bool_decide (files (disk w) !! l.1 = None)) bulletin_links in
  (∀ l : Link, l ∈ bulletin_links → exists_fails (disk w) l.1 = false) ∧
  (∀ name, name ∉ new_bulletins.*1 → files (disk w') !! name = files (disk w) !! name) ∧
  (new_bulletins = [] → ledger w' = ledger w) ∧
  (new_bulletins ≠ [] →
   1 <= max_workers self ∧
   ∃ results,
     ledger w' = create_csv_summary (csv_fault (disk w)) (ledger w) results ∧
     file_name <$> results ≡ₚ new_bulletins.*1 ∧
     (∀ o, o ∈ results → status o = "downloaded" ∨ status o = "failed") ∧
     (csv_fault (disk w) = NoFault →
      ∀ l, l ∈ new_bulletins → is_Some (get_existing_files (ledger w') !! Some l.1))).
Proof.
  intros Hprior Hcrawl Hrun new_bulletins.
  assert (Hsame : same_world w w1).
  { pose proof (crawl_same_world self fuel [] 0 w) as H.
    unfold get_document_links in Hcrawl. by rewrite Hcrawl in H. }
  destruct Hsame as (_ & _ & Hdisk & Hledger).
  assert (Hnodup : NoDup new_bulletins.*1).
  { unfold get_document_links in Hcrawl.
    apply crawl_spec in Hcrawl as (events & _ & -> & _).
    eapply sublist_NoDup; [|apply fmap_sublist, sublist_filter_stdlib].
    apply (first_seen_NoDup _ []). apply NoDup_nil_2. }
  assert (Habsent : ∀ name, name ∈ new_bulletins.*1 → files (disk w1) !! name = None).
  { intros name ([n u] & -> & Hin)%list_elem_of_fmap.
    apply list_elem_of_In, List.filter_In in Hin as [_ Hmissing].
    apply bool_decide_eq_true in Hmissing. cbn in *. by rewrite Hdisk. }
  unfold run in Hrun. rewrite Hcrawl, Hdisk in Hrun.
  destruct bulletin_links as [|l0 ls].
  { injection Hrun as <-. rewrite Hdisk, Hledger.
    split_and!; [by intros l ?%elem_of_nil | done | done | done]. }
  destruct (not_yet_stored (l0 :: ls) (disk w)) as [batch|] eqn:Hbatch; [|done].
  apply not_yet_stored_returned in Hbatch as [-> Haccepted].
  fold new_bulletins in Hrun. split; [done|].
  destruct new_bulletins as [|b bs] eqn:Hnew.
  { injection Hrun as <-. rewrite Hdisk, Hledger. split_and!; done. }
  destruct (max_workers self <=? 0) eqn:Hworkers; [done|].
  apply Z.leb_gt in Hworkers.
  destruct (download_all self (b :: bs) w1) as [res w2] eqn:Hall.
  destruct res as [results|]; [|done]. injection Hrun as <-.
  apply download_all_spec in Hall as (Hledger2 & Hfaults & Hframe & Hres).
  destruct Hfaults as (_ & _ & _ & _ & _ & Hfault).
  destruct (Hres results eq_refl) as [Hnames Hstatus].
  split_and!.
  - intros name Hname. cbn. rewrite <- Hdisk. by apply Hframe.
  - done.
  - intros _. split; [lia|]. exists results. cbn [ledger with_ledger].
    rewrite Hledger2, Hledger, Hfault, Hdisk.
    split_and!; [done | by rewrite Hnames | by apply Hstatus |].
    intros -> l Hl. rewrite create_csv_summary_written by done.
    rewrite get_existing_files_ledger_rows.
    + rewrite lookup_fmap. apply fmap_is_Some, merge_results_dom. right.
      assert (Hin : l.1 ∈ file_name <$> results).
      { rewrite Hnames. apply list_elem_of_fmap. by exists l. }
      apply list_elem_of_fmap in Hin as (o & Ho & Hin). exists o. by rewrite <- Ho.
    + by apply merge_results_writable.
    + apply merge_results_keyed, get_existing_files_keyed.
Qed.

(** X30. When a run returns and when it raises.  A crawl that raises (on a
    link [urljoin] rejects) makes the run raise.  When the crawl returns
    its links, the run raises if the file system refuses the name of one
    of them.  Otherwise the batch is made of the links whose file is
    absent: an empty batch makes the run return; a batch with a pool of no
    worker makes it raise; and a batch with at least one worker makes it
    return as soon as no removal of a file of the batch fails, whatever
    the network and the writes to the disk and to the ledger do. *)
Theorem run_returns_without_unlink_faults (fuel : nat) (self : Scraper) (w : World) :
  let crawled := (get_document_links unicode_decimal urljoin fuel self w).1 in
  let outcome := (run unicode_decimal urljoin fuel self w).1 in
  (crawled = None → outcome = None) ∧
  (crawled = Some Raised → outcome = Some Raised) ∧
  ∀ bulletin_links, crawled = Some (Returned bulletin_links) →
    let new_bulletins :=
      List.filter (λ l : Link, bool_decide (files (disk w) !! l.1 = None)) bulletin_links in
    ((∃ l : Link, l ∈ bulletin_links ∧ exists_fails (disk w) l.1 = true) →
     outcome = Some Raised) ∧
    ((∀ l : Link, l ∈ bulletin_links → exists_fails (disk w) l.1 = false) →
     (new_bulletins = [] → outcome = Some (Returned ())) ∧
     (new_bulletins ≠ [] → max_workers self <= 0 → outcome = Some Raised) ∧
     (new_bulletins ≠ [] → 1 <= max_workers self →
      (∀ l : Link, l ∈ new_bulletins → unlink_fails (disk w) l.1 = false) →
      outcome = Some (Returned ()))).
Proof.
  intros crawled outcome. subst crawled outcome. unfold run.
  pose proof (crawl_same_world self fuel [] 0 w) as (_ & _ & Hdisk & _).
  fold (get_document_links unicode_decimal urljoin fuel self w) in Hdisk.
  destruct (get_document_links unicode_decimal urljoin fuel self w) as [crawled w1].
  cbn [fst snd] in *. rewrite Hdisk.
  split_and!; [by intros -> | by intros -> |].
  intros bulletin_links ->.
  set (new_bulletins := List.filter _ bulletin_links). split.
  - intros (l & Hin & Hrefused).
    rewrite (not_yet_stored_raises bulletin_links (disk w) l Hin Hrefused).
    destruct bulletin_links; [by apply elem_of_nil in Hin | done].
  - intros Haccepted. rewrite (not_yet_stored_returns _ _ Haccepted).
    fold new_bulletins.
    assert (Hempty : bulletin_links = [] → new_bulletins = []) by by intros ->.
    split_and!.
    + intros Hnone. rewrite Hnone. by destruct bulletin_links.
    + intros Hsome Hworkers.
      destruct bulletin_links as [|l0 ls]; [by destruct Hsome; apply Hempty|].
      destruct new_bulletins as [|b bs]; [done|].
      by rewrite (proj2 (Z.leb_le _ _) Hworkers).
    + intros Hsome Hworkers Hunlink.
      destruct bulletin_links as [|l0 ls] eqn:Hlinks; [by destruct Hsome; apply Hempty|].
      rewrite <- Hlinks in *.
      destruct (download_all_returns self new_bulletins w1) as [results Hres].
      { intros l Hl. rewrite Hdisk. split; [|by apply Hunlink].
        apply Haccepted. rewrite Hlinks. unfold new_bulletins in Hl.
        apply list_elem_of_In, List.filter_In in Hl as [Hl _]. by apply list_elem_of_In. }
      rewrite Hlinks in *.
      destruct new_bulletins as [|b bs]; [done|].
      rewrite (proj2 (Z.leb_gt _ _)) by lia.
      destruct (download_all self (b :: bs) w1) as [res w2]. cbn [fst] in Hres.
      by subst res.
Qed.

End RunMore.

(** ** Instances of the further properties *)

Lemma crawl_fetch_failure_keeps_links_witness :
  crawl sample_decimal sample_urljoin 1 default_scraper site_links 0
    (sample_world dead_net ∅ None) =
    (Some (Returned site_links),
     (make_request default_scraper (page_url 0) false (sample_world dead_net ∅ None)).2).
Proof.
  apply (crawl_fetch_failure_keeps_links sample_decimal sample_urljoin
           default_scraper 0 site_links 0
           (sample_world dead_net ∅ None)).
  - reflexivity.
  - reflexivity.
Defined.

Lemma crawl_last_page_ends_witness :
  let w := sample_world bulletin_net ∅ None in
  let page := {| Html.hrefs := [href "/pub/irs-irbs/irb2024-04.pdf";
                                href "/pub/irs-irbs/irb2024-05.pdf"];
                 Html.pagination := None |} in
  let r := {| status_code := 200; soup := page; body := []; body_fails := false |} in
  crawl sample_decimal sample_urljoin 1 default_scraper [] 0 w =
    (Some (if page_raises sample_decimal sample_urljoin page then Raised
           else Returned
                  ([] ++ first_seen [] (page_links sample_decimal sample_urljoin page))),
     record (EGet (page_url 0) false (Answer r)) w).
Proof.
  intros w page r.
  apply (crawl_last_page_ends sample_decimal sample_urljoin default_scraper 0 [] 0 w _ r).
  - reflexivity.
  - reflexivity.
  - discriminate.
  - reflexivity.
Defined.

Lemma get_document_links_cost_witness :
  ∃ events,
    log (get_document_links sample_decimal sample_urljoin 10
           (with_max_pages (Pages 2) default_scraper)
           (sample_world site_net ∅ None)).2 = [] ++ events ∧
    (length (fetched_pages events) <= 2)%nat ∧
    (gets events <= 2 * 3)%nat.
Proof.
  exact (get_document_links_cost sample_decimal sample_urljoin
           (with_max_pages (Pages 2) default_scraper)
           10 (sample_world site_net ∅ None) 2 eq_refl).
Defined.

Lemma get_document_links_wellformed_witness :
  let l : Link := ("irb2024-01.pdf", "https://www.irs.gov/pub/irs-irbs/irb2024-01.pdf") in
  l.1 = Path.basename l.2 ∧ Bytes.contains "/" l.1 = false.
Proof.
  intros l.
  destruct (get_document_links_wellformed sample_decimal sample_urljoin default_scraper 10
              (sample_world site_net ∅ None)
              (get_document_links sample_decimal sample_urljoin 10 default_scraper
                 (sample_world site_net ∅ None)).2
              site_links l) as (Hname & Hslash & _).
  - reflexivity.
  - right. left.
  - split; [exact Hname | exact Hslash].
Defined.

Lemma get_remote_bulletins_limited_witness :
  let w := sample_world site_net ∅ None in
  get_remote_bulletins sample_decimal sample_urljoin 10 default_scraper (Some 1) w =
    (returned (take 1) (get_document_links sample_decimal sample_urljoin 10
                          (with_max_pages (Pages 1) default_scraper) w).1,
     (get_document_links sample_decimal sample_urljoin 10
        (with_max_pages (Pages 1) default_scraper) w).2).
Proof.
  intros w.
  destruct (get_remote_bulletins_limited sample_decimal sample_urljoin default_scraper 10 1 w)
    as (Heq & _ & _).
  - lia.
  - exact Heq.
Defined.

Lemma get_remote_bulletins_negative_limit_witness :
  (get_remote_bulletins sample_decimal sample_urljoin 10 default_scraper (Some (-1))
     (sample_world site_net ∅ None)).1 = Some (Returned (take 1 site_links)).
Proof.
  rewrite (get_remote_bulletins_negative_limit sample_decimal sample_urljoin
             default_scraper 10 (-1)
             (sample_world site_net ∅ None)) by lia.
  reflexivity.
Defined.

(** One of the two bulletins of the site is already in storage. *)
Definition partly_local_world : World :=
  sample_world site_net {[ "irb2024-02.pdf" := "%PDF-1.7 bulletin" ]} None.

Lemma check_for_new_bulletins_consistent_witness :
  ∃ results remote,
    (check_for_new_bulletins sample_decimal sample_urljoin 10 default_scraper None
       partly_local_world).1 = Some (Returned results) ∧
    (get_remote_bulletins sample_decimal sample_urljoin 10 default_scraper None
       partly_local_world).1 = Some (Returned remote) ∧
    new_bulletins results `sublist_of` remote ∧
    (new_bulletins_count results <= total_remote_checked results)%nat.
Proof.
  destruct (check_for_new_bulletins sample_decimal sample_urljoin 10 default_scraper None
              partly_local_world).1 as [[results|]|] eqn:Hcheck.
  - destruct (check_for_new_bulletins_consistent sample_decimal sample_urljoin
                default_scraper 10 None partly_local_world results Hcheck)
      as (remote & Hremote & _ & Hsub & _ & _ & Hle & _).
    exists results, remote. split; [reflexivity|]. split; [exact Hremote|].
    split; [exact Hsub | exact Hle].
  - vm_compute in Hcheck. discriminate Hcheck.
  - vm_compute in Hcheck. discriminate Hcheck.
Defined.

Lemma get_local_bulletins_spec_witness :
  let w := sample_world dead_net {[ "irb2024-02.pdf" := "%PDF-1.7 bulletin" ]} kept_ledger in
  Some "irb2024-01.pdf" ∈ get_local_bulletins w.
Proof.
  intros w.
  apply (get_local_bulletins_spec w
           [["irb2024-03.pdf"; "2.25"; "2024-01-01T00:00:00"; "downloaded"];
            ["irb2024-01.pdf"; "1.5"; "existing"; "skipped"]] "irb2024-01.pdf").
  - reflexivity.
  - repeat constructor.
  - right. exists ["irb2024-01.pdf"; "1.5"; "existing"; "skipped"]. split.
    + right. left.
    + exists "1.5", "existing", "skipped". split; [reflexivity | right; reflexivity].
Defined.

Lemma download_bulletin_frame_witness :
  let w := sample_world pdf_net {[ "notes.txt" := "keep" ]} None in
  files (disk (download_bulletin default_scraper sample_link w).2) !! "notes.txt" =
    Some "keep" ∧
  ledger (download_bulletin default_scraper sample_link w).2 = None.
Proof.
  intros w.
  destruct (download_bulletin_frame default_scraper sample_link w
              (download_bulletin default_scraper sample_link w).2
              (download_bulletin default_scraper sample_link w).1)
    as ((Hfiles & _) & Hledger & _).
  - reflexivity.
  - split; [|exact Hledger]. rewrite Hfiles; [reflexivity | discriminate].
Defined.

Lemma download_bulletin_outcome_truthful_witness :
  let w := sample_world dead_net ∅ None in
  file_name failed_sample = sample_link.1 ∧
  ((status failed_sample = "skipped" ∨ status failed_sample = "downloaded") ∧
   (∃ content,
      files (disk (download_bulletin default_scraper sample_link w).2) !! sample_link.1 =
        Some content ∧
      file_size_mb failed_sample = rounded_size_mb content) ∨
   status failed_sample = "failed" ∧
   files (disk (download_bulletin default_scraper sample_link w).2) !! sample_link.1 = None ∧
   file_size_mb failed_sample = PInt 0).
Proof.
  intros w.
  apply (download_bulletin_outcome_truthful default_scraper sample_link w).
  reflexivity.
Defined.

Lemma download_bulletin_stores_body_witness :
  let w := sample_world pdf_net ∅ None in
  files (disk (download_bulletin default_scraper sample_link w).2) !! "irb2024-05.pdf" =
    Some "%PDF-1.7 second chunk".
Proof.
  intros w.
  destruct (download_bulletin_stores_body default_scraper
              "irb2024-05.pdf" "https://www.irs.gov/pub/irs-irbs/irb2024-05.pdf" w
              (make_request default_scraper
                 "https://www.irs.gov/pub/irs-irbs/irb2024-05.pdf" true w).2
              (download_bulletin default_scraper sample_link w).2
              {| status_code := 200; soup := empty_page;
                 body := ["%PDF-1.7 "; "second chunk"]; body_fails := false |}
              {| file_name := "irb2024-05.pdf"; file_size_mb := PFloat2 0;
                 download_timestamp := "2024-01-02T03:04:05"; status := "downloaded" |})
    as [Hfile _].
  - reflexivity.
  - reflexivity.
  - reflexivity.
  - reflexivity.
  - exact Hfile.
Defined.

Lemma download_bulletin_again_skips_witness :
  let w := sample_world pdf_net ∅ None in
  let w' := (download_bulletin default_scraper sample_link w).2 in
  download_bulletin default_scraper sample_link w' =
    (Returned {| file_name := "irb2024-05.pdf"; file_size_mb := PFloat2 0;
                 download_timestamp := "existing"; status := "skipped" |}, w').
Proof.
  intros w w'.
  apply (download_bulletin_again_skips default_scraper sample_link w w'
           {| file_name := "irb2024-05.pdf"; file_size_mb := PFloat2 0;
              download_timestamp := "2024-01-02T03:04:05"; status := "downloaded" |}).
  - reflexivity.
  - discriminate.
Defined.

Lemma download_bulletin_raises_only_witness :
  unlink_fails (disk stuck_world) sample_link.1 = true ∧
  is_Some (files (disk (download_bulletin default_scraper sample_link stuck_world).2)
             !! sample_link.1).
Proof.
  destruct (proj2 (download_bulletin_raises_only default_scraper sample_link stuck_world)
              (download_bulletin default_scraper sample_link stuck_world).2)
    as [[Hrefused _] | (_ & _ & _ & Hfails & Hkept)].
  - reflexivity.
  - discriminate Hrefused.
  - split; [exact Hfails | exact Hkept].
Defined.

Lemma get_existing_files_last_wins_witness :
  get_existing_files
    (Some [CSV_FIELDNAMES;
           ["irb2024-01.pdf"; "0"; "2024-01-01T00:00:00"; "failed"];
           ["irb2024-01.pdf"; "1.5"; "2024-01-02T03:04:05"; "downloaded"]])
    !! Some "irb2024-01.pdf" =
  Some (Loaded (Csv.read_row CSV_FIELDNAMES
                  ["irb2024-01.pdf"; "1.5"; "2024-01-02T03:04:05"; "downloaded"])).
Proof.
  rewrite (get_existing_files_last_wins
             [["irb2024-01.pdf"; "0"; "2024-01-01T00:00:00"; "failed"];
              ["irb2024-01.pdf"; "1.5"; "2024-01-02T03:04:05"; "downloaded"]]
             "irb2024-01.pdf") by repeat constructor.
  reflexivity.
Defined.

Lemma ledger_without_file_name_is_dropped_witness :
  create_csv_summary NoFault
    (Some [["name"; "size"]; ["irb2024-01.pdf"; "1.5"]]) [new_outcome] =
  create_csv_summary NoFault None [new_outcome].
Proof.
  refine (proj1 (proj2 (ledger_without_file_name_is_dropped ["name"; "size"]
                          [["irb2024-01.pdf"; "1.5"]] [new_outcome] _)) NoFault _);
    [|discriminate].
  intros Hin. apply elem_of_cons in Hin as [Hin | Hin]; [discriminate Hin|].
  apply elem_of_cons in Hin as [Hin | Hin]; [discriminate Hin|].
  by apply elem_of_nil in Hin.
Defined.

Lemma create_csv_summary_order_free_witness :
  create_csv_summary NoFault kept_ledger [new_outcome; failed_sample] =
  create_csv_summary NoFault kept_ledger [failed_sample; new_outcome].
Proof.
  apply (create_csv_summary_order_free NoFault kept_ledger [new_outcome; failed_sample]
           [failed_sample; new_outcome]).
  - apply perm_swap.
  - apply NoDup_cons. split.
    + intros Hin. apply list_elem_of_singleton in Hin. discriminate Hin.
    + apply NoDup_singleton.
Defined.

Lemma create_csv_summary_batches_witness :
  create_csv_summary NoFault (create_csv_summary NoFault kept_ledger [new_outcome])
    [failed_sample] =
  create_csv_summary NoFault kept_ledger [new_outcome; failed_sample].
Proof.
  apply (create_csv_summary_batches NoFault kept_ledger [new_outcome] [failed_sample]).
  - apply writable_written. repeat constructor.
  - discriminate.
Defined.

Lemma cleanup_leaves_valid_witness :
  let d := sample_disk {[ "irb2024-01.pdf" := "%PDF-1.7 bulletin";
                          "irb2024-02.pdf" := "";
                          "irb2024-03.pdf" := "stub" ]} in
  (cleanup_invalid_files false (cleanup_invalid_files false d).2).1 = [].
Proof.
  intros d.
  destruct (cleanup_leaves_valid d) as [_ Hnone].
  - intros name. reflexivity.
  - exact Hnone.
Defined.

Lemma cleanup_deletes_listed_witness :
  files (cleanup_invalid_files false littered_disk).2 !! "irb2024-03.pdf" = None.
Proof.
  rewrite (cleanup_deletes_listed littered_disk "irb2024-03.pdf").
  - reflexivity.
  - apply (bool_decide_unpack _). vm_compute. exact I.
Defined.

Lemma run_records_batch_witness :
  let w := sample_world bulletin_net ∅ None in
  ∃ results,
    ledger (run sample_decimal sample_urljoin 10 default_scraper w).2 =
      create_csv_summary NoFault None results ∧
    file_name <$> results ≡ₚ ["irb2024-04.pdf"; "irb2024-05.pdf"].
Proof.
  intros w.
  destruct (run_records_batch sample_decimal sample_urljoin 10 default_scraper w
              (get_document_links sample_decimal sample_urljoin 10 default_scraper w).2
              (run sample_decimal sample_urljoin 10 default_scraper w).2
              [("irb2024-04.pdf", "https://www.irs.gov/pub/irs-irbs/irb2024-04.pdf");
               ("irb2024-05.pdf", "https://www.irs.gov/pub/irs-irbs/irb2024-05.pdf")])
    as (_ & _ & _ & Hbatch).
  - exact writable_missing.
  - reflexivity.
  - reflexivity.
  - destruct Hbatch as (_ & results & Hledger & Hnames & _); [discriminate|].
    exists results. split; [exact Hledger | exact Hnames].
Defined.

(** A scraper whose pool has no worker. *)
Definition unstaffed_scraper : Scraper :=
  {| max_workers := 0; max_retries := MAX_RETRIES;
     timeout := REQUEST_TIMEOUT; max_pages := Unlimited |}.

Lemma run_returns_without_unlink_faults_witness :
  let w := sample_world bulletin_net ∅ None in
  (run sample_decimal sample_urljoin 10 default_scraper w).1 = Some (Returned ()) ∧
  (run sample_decimal sample_urljoin 10 unstaffed_scraper w).1 = Some Raised.
Proof.
  intros w.
  pose (bulletin_links :=
    [("irb2024-04.pdf", "https://www.irs.gov/pub/irs-irbs/irb2024-04.pdf");
     ("irb2024-05.pdf", "https://www.irs.gov/pub/irs-irbs/irb2024-05.pdf")] : list Link).
  split.
  - destruct (run_returns_without_unlink_faults sample_decimal sample_urljoin 10
                default_scraper w) as (_ & _ & Hcrawled).
    destruct (Hcrawled bulletin_links eq_refl) as (_ & Haccepted).
    destruct Haccepted as (_ & _ & Hreturns); [intros l _; reflexivity|].
    apply Hreturns; [discriminate | discriminate | intros l _; reflexivity].
  - destruct (run_returns_without_unlink_faults sample_decimal sample_urljoin 10
                unstaffed_scraper w) as (_ & _ & Hcrawled).
    destruct (Hcrawled bulletin_links eq_refl) as (_ & Haccepted).
    destruct Haccepted as (_ & Hraises & _); [intros l _; reflexivity|].
    apply Hraises; [discriminate | discriminate].
Defined.
